(** * panel.param: the Param pane and the ParamMethod pane

    A shallow embedding of [panel/param.py]: the widget type resolver
    ([Param.widget_type]), the widget builder ([Param.widget]), the widget
    tree orchestrator ([Param._ordered_params], [Param._get_widgets],
    [Param._update_widgets], [Param.__init__]), the bidirectional link
    manager (the closures [link_widget] and [link] of [Param.widget]) and
    the re-evaluator ([ParamMethod._update_pane]).

    Python values are modelled by the inductive type [value]; numbers
    (precedences, thresholds, bounds) are rationals, compared with the
    boolean tests of [QArith]; a not-a-number float has no counterpart.
    Dictionaries keyed by strings are [gmap string _]; the [OrderedDict]
    of built widgets is an association list. *)

From Stdlib Require Import QArith.
From stdpp Require Import gmap strings list sorting.

(** ** Python values *)

(** The classes of [panel.widgets] that [param.py] names, and any other
    widget class a caller may supply. *)
Inductive wclass :=
| Button | LiteralInput | ColorPicker | Select | Checkbox | FloatSlider
| IntSlider | RangeSlider | MultiSelect | StaticText | Toggle | TextInput
| DatetimeInput | DateRangeSlider
| WOther (n : nat).

(** The classes of the [param] library that [Param._mapping] names, the
    root [object], and any other class (an unregistered class of the
    library such as [Dynamic], or a subclass defined by a user). *)
Inductive pclass :=
| P_object | P_Parameter | P_Action | P_Color | P_Dict | P_Selector
| P_ObjectSelector | P_FileSelector | P_Boolean | P_Number | P_Integer
| P_Range | P_String | P_ListSelector | P_Date | P_DateRange
| POther (n : nat).

#[global] Instance wclass_eq_dec : EqDecision wclass.
Proof. solve_decision. Defined.

#[global] Instance pclass_eq_dec : EqDecision pclass.
Proof. solve_decision. Defined.

Inductive value :=
| VNone
| VBool (b : bool)
| VNum (q : Q)
| VStr (s : string)
| VList (l : list value)
| VDict (d : list (string * value))
| VParameterized (id : nat)        (* a Parameterized object, by identity *)
| VCallable (id : nat)             (* a function or bound method *)
| VWidgetClass (c : wclass)        (* a widget class *)
| VWidgetInst (c : wclass) (id : nat). (* a ready-made widget instance *)

(** Truth value of a Python object, as [if x:] tests it. *)
Definition truthy (v : value) : bool :=
  match v with
  | VNone => false
  | VBool b => b
  | VNum q => negb (Qeq_bool q 0)
  | VStr s => negb (String.eqb s EmptyString)
  | VList l => match l with [] => false | _ => true end
  | VDict d => match d with [] => false | _ => true end
  | _ => true
  end.

(** [v is None]. *)
Definition is_None (v : value) : bool :=
  match v with VNone => true | _ => false end.

(** The identity of a value that is a Parameterized instance or class:
    widgets and widget classes are Parameterized too. *)
Inductive ident :=
| IdObject (id : nat)
| IdClass (c : wclass)
| IdInst (c : wclass) (id : nat).

#[global] Instance ident_eq_dec : EqDecision ident.
Proof. solve_decision. Defined.

Definition identity (v : value) : option ident :=
  match v with
  | VParameterized id => Some (IdObject id)
  | VWidgetClass c => Some (IdClass c)
  | VWidgetInst c id => Some (IdInst c id)
  | _ => None
  end.

(** [util.is_parameterized]. *)
Definition is_parameterized (v : value) : bool :=
  bool_decide (is_Some (identity v)).

(** Exceptions. *)
Inductive exn :=
| KeyError | IndexError | TypeError | AttributeError | ValueError.

(** ** Parameter descriptors and parameterized objects *)

Record descriptor := {
  (** [classlist(type(pobj))[::-1]]: the method resolution order of the
      descriptor's class, most specific class first. *)
  mro : list pclass;
  precedence : option Q;
  constant : bool;
  label : string;
  (** [Some opts] when the descriptor has a [get_range] method; the
      options are a list or a dictionary. *)
  get_range : option value;
  (** [Some (lo, hi)] when the descriptor has a [get_soft_bounds] method;
      a bound is [VNone] when open. *)
  get_soft_bounds : option (value * value);
  (** [getattr(pobj, 'step', None)]. *)
  step : value;
  (** [pobj.path], read by the [FileSelector] factory. *)
  path : value;
  (** what the [param] library does when the parameter is set to a
      value: [None] when it takes it, the exception it raises otherwise *)
  validate : value → option exn
}.

Definition isinstance_p (c : pclass) (pobj : descriptor) : bool :=
  bool_decide (c ∈ mro pobj).

(** ** Widget Type Resolver *)

Module Resolver.

(** An entry of [Param._mapping]: a widget class, or a function from the
    descriptor to a widget class ([types.FunctionType]). *)
Inductive entry :=
| Cls (c : wclass)
| Fn (f : descriptor → wclass).

(** The module-level function [FileSelector]. *)
Definition FileSelector (pobj : descriptor) : wclass :=
  if truthy (path pobj) then Select else TextInput.

(** The class attribute [Param._mapping]. *)
Definition _mapping (t : pclass) : option entry :=
  match t with
  | P_Action => Some (Cls Button)
  | P_Parameter => Some (Cls LiteralInput)
  | P_Color => Some (Cls ColorPicker)
  | P_Dict => Some (Cls LiteralInput)
  | P_Selector => Some (Cls Select)
  | P_ObjectSelector => Some (Cls Select)
  | P_FileSelector => Some (Fn FileSelector)
  | P_Boolean => Some (Cls Checkbox)
  | P_Number => Some (Cls FloatSlider)
  | P_Integer => Some (Cls IntSlider)
  | P_Range => Some (Cls RangeSlider)
  | P_String => Some (Cls TextInput)
  | P_ListSelector => Some (Cls MultiSelect)
  | P_Date => Some (Cls DatetimeInput)
  | P_DateRange => Some (Cls DateRangeSlider)
  | P_object | POther _ => None
  end.

Definition apply_entry (e : entry) (pobj : descriptor) : wclass :=
  match e with
  | Cls c => c
  | Fn f => f pobj
  end.

(** The loop of [widget_type] over a list of classes; [None] is the
    [None] Python returns when the loop ends without a [return]. *)
Fixpoint widget_type_loop (mapping : pclass → option entry)
    (ts : list pclass) (pobj : descriptor) : option wclass :=
  match ts with
  | [] => None
  | t :: ts' =>
      match mapping t with
      | Some e => Some (apply_entry e pobj)
      | None => widget_type_loop mapping ts' pobj
      end
  end.

Definition widget_type_with (mapping : pclass → option entry)
    (pobj : descriptor) : option wclass :=
  widget_type_loop mapping (mro pobj) pobj.

(** [Param.widget_type]. *)
Definition widget_type (pobj : descriptor) : option wclass :=
  widget_type_with _mapping pobj.

End Resolver.

(** ** Exceptions and the state monad of the pane

    A method of the pane reads and mutates the pane and either returns or
    raises; what it mutated before raising stays mutated. *)

Inductive outcome (A : Type) :=
| Ret (a : A)
| Raise (e : exn).
Arguments Ret {A} a.
Arguments Raise {A} e.

(** [None] stands for a computation that has not ended within the
    number of nested notifications it was allowed. *)
Definition M (S A : Type) : Type := S → option (S * outcome A).

Definition ret {S A} (a : A) : M S A := λ s, Some (s, Ret a).
Definition raise {S A} (e : exn) : M S A := λ s, Some (s, Raise e).
Definition bind {S A B} (m : M S A) (k : A → M S B) : M S B :=
  λ s, match m s with
       | Some (s', Ret a) => k a s'
       | Some (s', Raise e) => Some (s', Raise e)
       | None => None
       end.
Definition get {S} : M S S := λ s, Some (s, Ret s).
Definition modify {S} (f : S → S) : M S unit := λ s, Some (f s, Ret tt).
Definition out_of_fuel {S A} : M S A := λ _, None.
(** [try: body finally: cleanup]: the cleanup runs on both exits and the
    exception, if any, goes on to the caller. *)
Definition try_finally {S A} (body : M S A) (cleanup : S → S) : M S A :=
  λ s, match body s with
       | Some (s', r) => Some (cleanup s', r)
       | None => None
       end.
(** [x[k]] on an optional result of a lookup. *)
Definition lift_opt {S A} (e : exn) (o : option A) : M S A :=
  match o with Some a => ret a | None => raise e end.

#[global] Instance M_ret {S} : MRet (M S) := λ A, ret.
#[global] Instance M_bind {S} : MBind (M S) := λ A B k m, bind m k.

(** [mapM]: a list comprehension whose body has effects, left to right. *)
Fixpoint mapM {S A B} (f : A → M S B) (l : list A) : M S (list B) :=
  match l with
  | [] => ret []
  | a :: l' => b ← f a; bs ← mapM f l'; ret (b :: bs)
  end.

(** ** The widget library, as [param.py] uses it

    [panel.widgets] is imported, not defined, by [param.py]; what the
    module asks of a widget class is collected here. *)
Class WidgetLib := {
  (** the names in [widget_class.param] *)
  wparams : wclass → gset string;
  (** [hasattr(widget_class, 'step')] *)
  has_step : wclass → bool;
  (** [issubclass(widget_class, LiteralInput)] *)
  sub_LiteralInput : wclass → bool;
  (** [issubclass(widget_class, _ButtonBase)] *)
  sub_ButtonBase : wclass → bool;
  (** [issubclass(widget_class, Toggle)] *)
  sub_Toggle : wclass → bool;
  (** what a widget of the class does when its parameter is set to a
      value: [None] when it takes it, the exception it raises otherwise *)
  w_validate : wclass → string → value → option exn
}.

(** ** The pane *)

(** A widget is referred to by identity: [inl n] is the [n]-th widget the
    pane built, [inr n] a widget instance supplied by the caller. *)
Definition wid : Type := nat + nat.

Record widget_state := {
  w_class : wclass;
  (** the parameter values of the widget: [value], [name], [disabled],
      [options], [start], [end], [step], ... *)
  w_attrs : gmap string value
}.

(** What [Param.widget] returns: the widget, or a [Row] of the widget and
    an expand toggle. *)
Inductive control :=
| CWidget (w : wid)
| CRow (w : wid) (toggle : wid).

#[global] Instance control_eq_dec : EqDecision control.
Proof. solve_decision. Defined.

Record Parameterized := {
  (** [self.object.name] *)
  obj_name : string;
  (** [object.param.objects('existing').items()], in declaration order *)
  params : list (string * descriptor);
  (** the current value of each parameter, [getattr(object, p)] *)
  values : gmap string value
}.

(** [object.param[p]]. *)
Definition param_lookup (obj : Parameterized) (p : string) : option descriptor :=
  (λ ix, ix.2.2) <$> list_find (λ kv, kv.1 = p) (params obj).

(** An entry of the [widgets] dictionary of the pane: a dictionary of
    keyword overrides (which may hold a ['type']), or anything else (a
    widget class or a widget instance). *)
Inductive override :=
| ODict (d : gmap string value)
| OVal (v : value).

(** The closures [Param.widget] and [Param._link_subobjects] register.
    [link_cb] keeps the key of its one-element list [watchers]. *)
Inductive callback :=
| link_widget_cb (p_name : string)
| action_cb (v : value)
| link_cb (p_name : string) (w : wid) (cell : nat)
| update_pane_cb (p_name : string) (toggle : option wid)
| toggle_pane_cb (p_name : string).

(** The instance a watcher is registered on. *)
Inductive target :=
| OnObject
| OnWidget (w : wid).

#[global] Instance target_eq_dec : EqDecision target.
Proof. solve_decision. Defined.

(** A [param] watcher; [uid] is its identity. *)
Record watcher := {
  uid : nat;
  inst : target;
  parameter_name : string;
  what : string;
  fn : callback
}.

(** The event a watcher is called with. *)
Record change := {
  ch_what : string;
  ch_old : value;
  ch_new : value
}.

(** The items of a layout: a control, or the nested pane of a
    parameterized value, kept by the identity of that value (the widgets
    of a nested pane are not part of this model). *)
Inductive item :=
| IControl (c : control)
| IPane (object_id : ident).

#[global] Instance item_eq_dec : EqDecision item.
Proof. solve_decision. Defined.

(** A Python class, as [isinstance] and [issubclass] see it: its name
    and the names of the other classes of its method resolution order. *)
Record pytype := {
  tname : string;
  ancestors : list string
}.

(** [issubclass(a, b)], for the class [b] of the given name. *)
Definition is_subclass_of (a : pytype) (b : string) : bool :=
  bool_decide (b = tname a ∨ b ∈ ancestors a).

(** A value given for [expand_layout]: an instance of a class, a class,
    a tuple of classes, or another value that is not a class. *)
Inductive layout_value :=
| LInstance (c : pytype)
| LType (c : pytype)
| LTuple (cs : list pytype)
| LOther.

(** How [__init__] resolved [expand_layout]. *)
Inductive expand_target :=
| ExpandInstance      (* a Panel instance of the caller *)
| ExpandBox           (* the widget box itself *)
| ExpandWrap.         (* a new layout around the widget box *)

(** A call recorded in the history of the pane. *)
Inductive write :=
| WObject (p_name : string) (v : value)        (* object.set_param(p_name=v) *)
| WWidget (w : wid) (updates : gmap string value) (* widget.set_param of the updates *)
| WCall (f : value).                           (* f(self.object) *)

Record Param := {
  (** [self.object] and the pane's own parameters *)
  object : option Parameterized;
  parameters : list string;
  display_threshold : Q;
  default_precedence : Q;
  expand : bool;
  expand_button : option bool;
  expand_layout : layout_value;
  (** the class of [self._widget_box] *)
  default_layout : pytype;
  show_labels : bool;
  show_name : bool;
  width : Z;
  widgets : option (gmap string override);
  (** the pane's private attributes *)
  _updating : bool;
  _widgets : list (string * control);
  (** [self._widget_box.objects] *)
  _widget_box : list item;
  (** how [self._expand_layout] was resolved and, when it is not the
      widget box, the nested panes put into it *)
  _expand_layout : expand_target;
  _expanded : list item;
  _callbacks : list watcher;
  (** every watcher registered and not unwatched, on the object and on
      the widgets, in the order of registration *)
  registry : list watcher;
  (** the one-element list [watchers] of each [link] closure of an
      action parameter: the click watcher currently registered for it *)
  cells : gmap nat nat;
  next_watcher : nat;
  (** the widgets, by identity; the instances the caller supplied are
      in it from the start *)
  store : gmap wid widget_state;
  next_widget : nat;
  (** the calls of [set_param] and of action callables made so far,
      oldest first *)
  trace : list write
}.

(** Assignments to the attributes of the pane. *)
Definition set_object (x : option Parameterized) (s : Param) : Param :=
  {| object := x; parameters := parameters s; display_threshold :=
     display_threshold s; default_precedence := default_precedence s;
     expand := expand s; expand_button := expand_button s; expand_layout := expand_layout s; default_layout := default_layout s; show_labels := show_labels s; show_name :=
     show_name s; width := width s; widgets := widgets s; _updating :=
     _updating s; _widgets := _widgets s; _widget_box := _widget_box s;
     _expand_layout := _expand_layout s; _expanded := _expanded s;
     _callbacks := _callbacks s; registry := registry s; cells := cells s;
     next_watcher := next_watcher s; store := store s; next_widget :=
     next_widget s; trace := trace s |}.
Definition set_parameters (x : list string) (s : Param) : Param :=
  {| object := object s; parameters := x; display_threshold :=
     display_threshold s; default_precedence := default_precedence s;
     expand := expand s; expand_button := expand_button s; expand_layout := expand_layout s; default_layout := default_layout s; show_labels := show_labels s; show_name :=
     show_name s; width := width s; widgets := widgets s; _updating :=
     _updating s; _widgets := _widgets s; _widget_box := _widget_box s;
     _expand_layout := _expand_layout s; _expanded := _expanded s;
     _callbacks := _callbacks s; registry := registry s; cells := cells s;
     next_watcher := next_watcher s; store := store s; next_widget :=
     next_widget s; trace := trace s |}.
Definition set_widgets (x : option (gmap string override)) (s : Param) : Param :=
  {| object := object s; parameters := parameters s; display_threshold :=
     display_threshold s; default_precedence := default_precedence s;
     expand := expand s; expand_button := expand_button s; expand_layout := expand_layout s; default_layout := default_layout s; show_labels := show_labels s; show_name :=
     show_name s; width := width s; widgets := x; _updating := _updating
     s; _widgets := _widgets s; _widget_box := _widget_box s;
     _expand_layout := _expand_layout s; _expanded := _expanded s;
     _callbacks := _callbacks s; registry := registry s; cells := cells s;
     next_watcher := next_watcher s; store := store s; next_widget :=
     next_widget s; trace := trace s |}.
Definition set__updating (x : bool) (s : Param) : Param :=
  {| object := object s; parameters := parameters s; display_threshold :=
     display_threshold s; default_precedence := default_precedence s;
     expand := expand s; expand_button := expand_button s; expand_layout := expand_layout s; default_layout := default_layout s; show_labels := show_labels s; show_name :=
     show_name s; width := width s; widgets := widgets s; _updating := x;
     _widgets := _widgets s; _widget_box := _widget_box s; _expand_layout
     := _expand_layout s; _expanded := _expanded s; _callbacks :=
     _callbacks s; registry := registry s; cells := cells s; next_watcher
     := next_watcher s; store := store s; next_widget := next_widget s;
     trace := trace s |}.
Definition set__widgets (x : list (string * control)) (s : Param) : Param :=
  {| object := object s; parameters := parameters s; display_threshold :=
     display_threshold s; default_precedence := default_precedence s;
     expand := expand s; expand_button := expand_button s; expand_layout := expand_layout s; default_layout := default_layout s; show_labels := show_labels s; show_name :=
     show_name s; width := width s; widgets := widgets s; _updating :=
     _updating s; _widgets := x; _widget_box := _widget_box s;
     _expand_layout := _expand_layout s; _expanded := _expanded s;
     _callbacks := _callbacks s; registry := registry s; cells := cells s;
     next_watcher := next_watcher s; store := store s; next_widget :=
     next_widget s; trace := trace s |}.
Definition set__widget_box (x : list item) (s : Param) : Param :=
  {| object := object s; parameters := parameters s; display_threshold :=
     display_threshold s; default_precedence := default_precedence s;
     expand := expand s; expand_button := expand_button s; expand_layout := expand_layout s; default_layout := default_layout s; show_labels := show_labels s; show_name :=
     show_name s; width := width s; widgets := widgets s; _updating :=
     _updating s; _widgets := _widgets s; _widget_box := x; _expand_layout
     := _expand_layout s; _expanded := _expanded s; _callbacks :=
     _callbacks s; registry := registry s; cells := cells s; next_watcher
     := next_watcher s; store := store s; next_widget := next_widget s;
     trace := trace s |}.
Definition set__expanded (x : list item) (s : Param) : Param :=
  {| object := object s; parameters := parameters s; display_threshold :=
     display_threshold s; default_precedence := default_precedence s;
     expand := expand s; expand_button := expand_button s; expand_layout := expand_layout s; default_layout := default_layout s; show_labels := show_labels s; show_name :=
     show_name s; width := width s; widgets := widgets s; _updating :=
     _updating s; _widgets := _widgets s; _widget_box := _widget_box s;
     _expand_layout := _expand_layout s; _expanded := x; _callbacks :=
     _callbacks s; registry := registry s; cells := cells s; next_watcher
     := next_watcher s; store := store s; next_widget := next_widget s;
     trace := trace s |}.
Definition set__callbacks (x : list watcher) (s : Param) : Param :=
  {| object := object s; parameters := parameters s; display_threshold :=
     display_threshold s; default_precedence := default_precedence s;
     expand := expand s; expand_button := expand_button s; expand_layout := expand_layout s; default_layout := default_layout s; show_labels := show_labels s; show_name :=
     show_name s; width := width s; widgets := widgets s; _updating :=
     _updating s; _widgets := _widgets s; _widget_box := _widget_box s;
     _expand_layout := _expand_layout s; _expanded := _expanded s;
     _callbacks := x; registry := registry s; cells := cells s;
     next_watcher := next_watcher s; store := store s; next_widget :=
     next_widget s; trace := trace s |}.
Definition set_registry (x : list watcher) (s : Param) : Param :=
  {| object := object s; parameters := parameters s; display_threshold :=
     display_threshold s; default_precedence := default_precedence s;
     expand := expand s; expand_button := expand_button s; expand_layout := expand_layout s; default_layout := default_layout s; show_labels := show_labels s; show_name :=
     show_name s; width := width s; widgets := widgets s; _updating :=
     _updating s; _widgets := _widgets s; _widget_box := _widget_box s;
     _expand_layout := _expand_layout s; _expanded := _expanded s;
     _callbacks := _callbacks s; registry := x; cells := cells s;
     next_watcher := next_watcher s; store := store s; next_widget :=
     next_widget s; trace := trace s |}.
Definition set_cells (x : gmap nat nat) (s : Param) : Param :=
  {| object := object s; parameters := parameters s; display_threshold :=
     display_threshold s; default_precedence := default_precedence s;
     expand := expand s; expand_button := expand_button s; expand_layout := expand_layout s; default_layout := default_layout s; show_labels := show_labels s; show_name :=
     show_name s; width := width s; widgets := widgets s; _updating :=
     _updating s; _widgets := _widgets s; _widget_box := _widget_box s;
     _expand_layout := _expand_layout s; _expanded := _expanded s;
     _callbacks := _callbacks s; registry := registry s; cells := x;
     next_watcher := next_watcher s; store := store s; next_widget :=
     next_widget s; trace := trace s |}.
Definition set_next_watcher (x : nat) (s : Param) : Param :=
  {| object := object s; parameters := parameters s; display_threshold :=
     display_threshold s; default_precedence := default_precedence s;
     expand := expand s; expand_button := expand_button s; expand_layout := expand_layout s; default_layout := default_layout s; show_labels := show_labels s; show_name :=
     show_name s; width := width s; widgets := widgets s; _updating :=
     _updating s; _widgets := _widgets s; _widget_box := _widget_box s;
     _expand_layout := _expand_layout s; _expanded := _expanded s;
     _callbacks := _callbacks s; registry := registry s; cells := cells s;
     next_watcher := x; store := store s; next_widget := next_widget s;
     trace := trace s |}.
Definition set_store (x : gmap wid widget_state) (s : Param) : Param :=
  {| object := object s; parameters := parameters s; display_threshold :=
     display_threshold s; default_precedence := default_precedence s;
     expand := expand s; expand_button := expand_button s; expand_layout := expand_layout s; default_layout := default_layout s; show_labels := show_labels s; show_name :=
     show_name s; width := width s; widgets := widgets s; _updating :=
     _updating s; _widgets := _widgets s; _widget_box := _widget_box s;
     _expand_layout := _expand_layout s; _expanded := _expanded s;
     _callbacks := _callbacks s; registry := registry s; cells := cells s;
     next_watcher := next_watcher s; store := x; next_widget :=
     next_widget s; trace := trace s |}.
Definition set_next_widget (x : nat) (s : Param) : Param :=
  {| object := object s; parameters := parameters s; display_threshold :=
     display_threshold s; default_precedence := default_precedence s;
     expand := expand s; expand_button := expand_button s; expand_layout := expand_layout s; default_layout := default_layout s; show_labels := show_labels s; show_name :=
     show_name s; width := width s; widgets := widgets s; _updating :=
     _updating s; _widgets := _widgets s; _widget_box := _widget_box s;
     _expand_layout := _expand_layout s; _expanded := _expanded s;
     _callbacks := _callbacks s; registry := registry s; cells := cells s;
     next_watcher := next_watcher s; store := store s; next_widget := x;
     trace := trace s |}.
Definition set_trace (x : list write) (s : Param) : Param :=
  {| object := object s; parameters := parameters s; display_threshold :=
     display_threshold s; default_precedence := default_precedence s;
     expand := expand s; expand_button := expand_button s; expand_layout := expand_layout s; default_layout := default_layout s; show_labels := show_labels s; show_name :=
     show_name s; width := width s; widgets := widgets s; _updating :=
     _updating s; _widgets := _widgets s; _widget_box := _widget_box s;
     _expand_layout := _expand_layout s; _expanded := _expanded s;
     _callbacks := _callbacks s; registry := registry s; cells := cells s;
     next_watcher := next_watcher s; store := store s; next_widget :=
     next_widget s; trace := x |}.

(** ** The interpreter and the [param] library

    What [param.py] takes from its environment: the version of the
    interpreter ([sys.version_info]) and the test [param] makes before it
    calls a watcher registered with [onlychanged] (the default). *)
Class Runtime := {
  major : Z;
  minor : Z;
  (** [Comparator.is_equal(old, new)] *)
  is_equal : value → value → bool;
  (** [util.param_name] *)
  param_name : string → string
}.

Section Pane.
Context `{WidgetLib} `{Runtime}.

Definition log (w : write) : M Param unit :=
  modify (λ s, set_trace (trace s ++ [w]) s).

(** [inst.param.watch(fn, parameter_name, what)]. *)
Definition watch (t : target) (name wh : string) (cb : callback) : M Param watcher :=
  s ← get;
  let w := {| uid := next_watcher s; inst := t; parameter_name := name;
              what := wh; fn := cb |} in
  modify (λ s, set_next_watcher (S (next_watcher s))
                 (set_registry (registry s ++ [w]) s));;
  mret w.

(** [inst.param.unwatch(watcher)]. *)
Definition unwatch (u : nat) : M Param unit :=
  modify (λ s, set_registry (filter (λ w, uid w ≠ u) (registry s)) s).

(** A notification: the watchers to call for a change of [name] on [t]. *)
Definition notifier : Type := target → string → change → M Param unit.

(** [iterM]: a [for] loop whose body has effects. *)
Fixpoint iterM {A} (f : A → M Param unit) (l : list A) : M Param unit :=
  match l with
  | [] => mret tt
  | a :: l' => f a;; iterM f l'
  end.

(** The value [v] becomes the value of the parameter [p] of the object. *)
Definition store_value (p : string) (v : value) (s : Param) : Param :=
  match object s with
  | Some obj =>
      set_object (Some {| obj_name := obj_name obj;
                          params := params obj;
                          values := <[p := v]> (values obj) |}) s
  | None => s
  end.

(** [object.set_param(p=v)], as the [param] library does it: the value
    is validated and stored, and the watchers of the value are called
    when it changed. *)
Definition object_set_param (notify : notifier) (p : string) (v : value)
    : M Param unit :=
  log (WObject p v);;
  s ← get;
  obj ← lift_opt AttributeError (object s);
  p_obj ← lift_opt ValueError (param_lookup obj p);
  match validate p_obj v with
  | Some e => raise e
  | None =>
      let old := default VNone (values obj !! p) in
      modify (store_value p v);;
      if is_equal old v then mret tt
      else notify OnObject p {| ch_what := "value"; ch_old := old; ch_new := v |}
  end.

(** One assignment of [widget.set_param]: the name must be a parameter
    of the widget and the value must be valid. *)
Definition widget_store (w : wid) (kv : string * value) : M Param unit :=
  s ← get;
  ws ← lift_opt AttributeError (store s !! w);
  if bool_decide (kv.1 ∈ wparams (w_class ws)) then
    match w_validate (w_class ws) kv.1 kv.2 with
    | Some e => raise e
    | None =>
        modify (set_store (<[w := {| w_class := w_class ws;
                                     w_attrs := <[kv.1 := kv.2]> (w_attrs ws) |}]>
                             (store s)))
    end
  else raise ValueError.

(** [widget.set_param] of the updates: all values are stored, then the
    watchers of the values that changed are called. *)
Definition widget_set_param (notify : notifier) (w : wid)
    (updates : gmap string value) : M Param unit :=
  log (WWidget w updates);;
  s ← get;
  ws ← lift_opt AttributeError (store s !! w);
  iterM (widget_store w) (map_to_list updates);;
  iterM (λ kv : string * value,
           let old := default VNone (w_attrs ws !! kv.1) in
           if is_equal old kv.2 then mret tt
           else notify (OnWidget w) kv.1
                  {| ch_what := "value"; ch_old := old; ch_new := kv.2 |})
        (map_to_list updates).
(** *** Ordering of the parameters *)

(** Python's [sorted(l, key=key)] is a stable sort: it is modelled by the
    insertion sort that puts an element before the elements already
    placed that do not come before it. *)
Fixpoint insert_sorted {A} (le : A → A → bool) (x : A) (l : list A) : list A :=
  match l with
  | [] => [x]
  | y :: l' => if le x y then x :: y :: l' else y :: insert_sorted le x l'
  end.

Fixpoint sorted {A} (le : A → A → bool) (l : list A) : list A :=
  match l with
  | [] => []
  | x :: l' => insert_sorted le x (sorted le l')
  end.

(** [itertools.groupby(l, key=key)]: the runs of consecutive elements
    whose key equals the key of the first element of the run. [tgt] is
    the key of the run being read and [grp] the run, last element first. *)
Fixpoint groupby_from {A K} (eqb : K → K → bool) (key : A → K)
    (tgt : K) (grp : list A) (l : list A) : list (list A) :=
  match l with
  | [] => [rev grp]
  | x :: l' =>
      if eqb (key x) tgt then groupby_from eqb key tgt (x :: grp) l'
      else rev grp :: groupby_from eqb key (key x) [x] l'
  end.

Definition groupby {A K} (eqb : K → K → bool) (key : A → K) (l : list A)
    : list (list A) :=
  match l with
  | [] => []
  | x :: l' => groupby_from eqb key (key x) [x] l'
  end.

(** The sort key of [_ordered_params]. *)
Definition key_fn (default_precedence : Q) (x : string * descriptor) : Q :=
  match precedence x.2 with
  | Some q => q
  | None => default_precedence
  end.

(** [dict_ordered] of [_ordered_params]. *)
Definition dict_ordered : bool :=
  ((major =? 3)%Z && (6 <=? minor)%Z) || (3 <? major)%Z.

(** The property [Param._ordered_params], on an object. Within a group
    [sorted(grp)] compares the pairs, that is the names, which are the
    keys of a dictionary and so differ. *)
Definition ordered_params_of (obj : Parameterized) (whitelist : list string)
    (default_prec : Q) : list string :=
  let params := filter (λ x : string * descriptor,
                          x.1 ∈ whitelist ∨ x.1 = "name") (params obj) in
  let sorted_precedence :=
    sorted (λ x y, Qle_bool (key_fn default_prec x) (key_fn default_prec y))
           params in
  let filtered := sorted_precedence in
  let groups := groupby Qeq_bool (key_fn default_prec) filtered in
  let ordered_groups :=
    (λ grp : list (string * descriptor),
       if dict_ordered then grp
       else sorted (λ x y, String.leb x.1 y.1) grp) <$> groups in
  fst <$> filter (λ el : string * descriptor, el.1 ≠ "name")
                 (concat ordered_groups).

Definition _ordered_params : M Param (list string) :=
  s ← get;
  obj ← lift_opt AttributeError (object s);
  mret (ordered_params_of obj (parameters s) (default_precedence s)).

(** [precedence is None or precedence >= display_threshold]. *)
Definition shown_precedence (threshold : Q) (p_obj : descriptor) : bool :=
  match precedence p_obj with
  | None => true
  | Some q => Qle_bool threshold q
  end.

(** The test of the comprehension of [_update_widgets] and of the loop
    of [link], for the parameter [p] of [self.object]. *)
Definition shown (p : string) : M Param bool :=
  s ← get;
  obj ← lift_opt AttributeError (object s);
  p_obj ← lift_opt KeyError (param_lookup obj p);
  mret (shown_precedence (display_threshold s) p_obj).

(** [[x for x in l if test(x)]] with a test that may raise. *)
Fixpoint filterM {A} (f : A → M Param bool) (l : list A) : M Param (list A) :=
  match l with
  | [] => mret []
  | a :: l' =>
      b ← f a;
      r ← filterM f l';
      mret (if b : bool then a :: r else r)
  end.

(** [d[k]] on the ordered dictionary [self._widgets]. *)
Definition widgets_lookup (d : list (string * control)) (k : string)
    : option control :=
  (λ ix, ix.2.2) <$> list_find (λ kv, kv.1 = k) d.

(** [OrderedDict(l)[k] = v]: a key that is present keeps its place. *)
Fixpoint odict_set {V} (k : string) (v : V) (d : list (string * V))
    : list (string * V) :=
  match d with
  | [] => [(k, v)]
  | (k', v') :: d' =>
      if bool_decide (k' = k) then (k, v) :: d' else (k', v') :: odict_set k v d'
  end.

(** [OrderedDict(l)]. *)
Definition OrderedDict {V} (l : list (string * V)) : list (string * V) :=
  foldl (λ d kv, odict_set kv.1 kv.2 d) [] l.

(** *** The layouts *)

(** [self._expand_layout.objects], which is [self._widget_box.objects]
    when the expand layout is the widget box. *)
Definition layout_objects (s : Param) : list item :=
  match _expand_layout s with
  | ExpandBox => _widget_box s
  | _ => _expanded s
  end.

Definition set_layout_objects (l : list item) (s : Param) : Param :=
  match _expand_layout s with
  | ExpandBox => set__widget_box l s
  | _ => set__expanded l s
  end.

(** [l.remove(x)] and [layout.pop(x)]: without the first [x], if any. *)
Fixpoint remove_first {A} `{EqDecision A} (x : A) (l : list A) : list A :=
  match l with
  | [] => []
  | y :: l' => if decide (y = x) then l' else y :: remove_first x l'
  end.

(** [l[l.index(x)] = y]. *)
Fixpoint replace_first {A} `{EqDecision A} (x y : A) (l : list A) : list A :=
  match l with
  | [] => []
  | z :: l' => if decide (z = x) then y :: l' else z :: replace_first x y l'
  end.

(** ** Bidirectional Link Manager *)

(** [link_widget], the closure of [Param.widget] that watches the value
    of the widget. *)
Definition link_widget (notify : notifier) (p_name : string) (ch : change)
    : M Param unit :=
  s ← get;
  if _updating s then mret tt
  else
    try_finally
      (modify (set__updating true);;
       object_set_param notify p_name (ch_new ch))
      (set__updating false).

(** [action], the closure that watches the clicks of the widget of an
    action parameter: [value(self.object)]. What the callable does is
    its own business; the call is recorded. *)
Definition action (v : value) : M Param unit :=
  match v with
  | VCallable _ => log (WCall v)
  | _ => raise TypeError
  end.

(** [v < q] and [v >= q] for a number [q]: Python 3 refuses to order a
    number and a value that is not one; Python 2 puts [None] below and
    every other value above the numbers. *)
Definition lt_num (v : value) (q : Q) : M Param bool :=
  match v with
  | VNum x => mret (negb (Qle_bool q x))
  | VBool b => mret (negb (Qle_bool q (if b then 1 else 0)))
  | VNone => if (3 <=? major)%Z then raise TypeError else mret true
  | _ => if (3 <=? major)%Z then raise TypeError else mret false
  end.

Definition ge_num (v : value) (q : Q) : M Param bool :=
  match v with
  | VNum x => mret (Qle_bool q x)
  | VBool b => mret (Qle_bool q (if b then 1 else 0))
  | VNone => if (3 <=? major)%Z then raise TypeError else mret false
  | _ => if (3 <=? major)%Z then raise TypeError else mret true
  end.

(** The loop of [link] that collects the widgets of the shown
    parameters. *)
Fixpoint collect_shown (ks : list string) : M Param (list control) :=
  match ks with
  | [] => mret []
  | k :: ks' =>
      b ← shown k;
      here ← (if b : bool then
                s ← get;
                c ← lift_opt KeyError (widgets_lookup (_widgets s) k);
                mret [c]
              else mret []);
      rest ← collect_shown ks';
      mret (here ++ rest)
  end.

(** [self.object.param[p_name]], the descriptor [p_obj] the closures
    of [Param.widget] keep. *)
Definition the_descriptor (p_name : string) : M Param descriptor :=
  s ← get;
  obj ← lift_opt AttributeError (object s);
  lift_opt KeyError (param_lookup obj p_name).

(** [link], the closure of [Param.widget] that watches the parameter of
    the object; [w] is the widget and [cell] its list [watchers]. *)
Definition link (notify : notifier) (p_name : string) (w : wid) (cell : nat)
    (ch : change) : M Param unit :=
  let set_widget (updates : gmap string value) : M Param unit :=
    try_finally
      (modify (set__updating true);;
       widget_set_param notify w updates)
      (set__updating false) in
  if bool_decide (ch_what ch = "constant") then
    set_widget {["disabled" := ch_new ch]}
  else if bool_decide (ch_what ch = "precedence") then
    s ← get;
    below ← lt_num (ch_new ch) (display_threshold s);
    if below && bool_decide (IControl (CWidget w) ∈ _widget_box s) then
      modify (set__widget_box (remove_first (IControl (CWidget w)) (_widget_box s)))
    else
      above ← ge_num (ch_new ch) (display_threshold s);
      if above : bool then
        params ← _ordered_params;
        let params := if show_name s then "name" :: params else params in
        widgets ← collect_shown params;
        modify (set__widget_box (IControl <$> widgets))
      else mret tt
  else if bool_decide (ch_what ch = "objects") then
    p_obj ← the_descriptor p_name;
    options ← lift_opt AttributeError (get_range p_obj);
    set_widget {["options" := options]}
  else if bool_decide (ch_what ch = "bounds") then
    p_obj ← the_descriptor p_name;
    bounds ← lift_opt AttributeError (get_soft_bounds p_obj);
    set_widget (<["start" := bounds.1]> {["end" := bounds.2]})
  else if bool_decide (ch_what ch = "step") then
    p_obj ← the_descriptor p_name;
    set_widget {["step" := step p_obj]}
  else if bool_decide (ch_what ch = "label") then
    p_obj ← the_descriptor p_name;
    set_widget {["name" := VStr (label p_obj)]}
  else
    s ← get;
    if _updating s then mret tt
    else
      p_obj ← the_descriptor p_name;
      if isinstance_p P_Action p_obj then
        old ← lift_opt KeyError (cells s !! cell);
        unwatch old;;
        new ← watch (OnWidget w) "clicks" "value" (action_cb (ch_new ch));
        modify (λ s, set_cells (<[cell := uid new]> (cells s)) s)
      else set_widget {["value" := ch_new ch]}.

(** The nested panes of a layout that show the object [v]. *)
Definition shows (v : value) (it : item) : bool :=
  match it with
  | IPane id => bool_decide (identity v = Some id)
  | IControl _ => false
  end.

Definition panes_of (v : value) (l : list item) : list item :=
  filter (λ it, shows v it) l.

(** [toggle_pane], the closure of [_link_subobjects] that adds the pane
    of the value of a parameter to the expand layout, or removes it. *)
Definition toggle_pane (parameter : string) (ch : change) : M Param unit :=
  s ← get;
  obj ← lift_opt AttributeError (object s);
  parameterized ← lift_opt AttributeError (values obj !! parameter);
  match panes_of parameterized (layout_objects s) with
  | old_panel :: _ =>
      if truthy (ch_new ch) then mret tt
      else modify (λ s, set_layout_objects
                          (remove_first old_panel (layout_objects s)) s)
  | [] =>
      if truthy (ch_new ch) then
        (* [Param(parameterized, name=parameterized.name, ...)] *)
        pane ← lift_opt AttributeError (identity parameterized);
        modify (λ s, set_layout_objects (layout_objects s ++ [IPane pane]) s)
      else mret tt
  end.

(** [update_pane], the closure of [_link_subobjects] that follows the
    value of the selector. *)
Definition update_pane (notify : notifier) (parameter : string)
    (toggle : option wid) (ch : change) : M Param unit :=
  s ← get;
  let existing := panes_of (ch_old ch) (layout_objects s) in
  match toggle with
  | Some t =>
      widget_set_param notify t
        {["disabled" := VBool (negb (is_parameterized (ch_new ch)))]}
  | None => mret tt
  end;;
  match existing with
  | [] => mret tt
  | old_panel :: _ =>
      match identity (ch_new ch) with
      | Some pane =>
          modify (λ s, set_layout_objects
                         (replace_first old_panel (IPane pane) (layout_objects s)) s)
      | None =>
          modify (λ s, set_layout_objects
                         (remove_first old_panel (layout_objects s)) s)
      end
  end.

(** *** Delivery of a change to the watchers *)

Definition run_callback (notify : notifier) (cb : callback) (ch : change)
    : M Param unit :=
  match cb with
  | link_widget_cb p_name => link_widget notify p_name ch
  | action_cb v => action v
  | link_cb p_name w cell => link notify p_name w cell ch
  | update_pane_cb p_name toggle => update_pane notify p_name toggle ch
  | toggle_pane_cb p_name => toggle_pane p_name ch
  end.

(** The watchers registered on [name] of [t] for the kind of change. *)
Definition watchers_of (t : target) (name wh : string) (reg : list watcher)
    : list watcher :=
  filter (λ w, inst w = t ∧ parameter_name w = name ∧ what w = wh) reg.

(** The watchers are called one after the other, each to its end; a
    watcher may set a parameter and so call watchers in turn, which
    [fuel] bounds. *)
Fixpoint fire (fuel : nat) (t : target) (name : string) (ch : change)
    : M Param unit :=
  match fuel with
  | 0 => out_of_fuel
  | S fuel' =>
      s ← get;
      iterM (λ w, run_callback (fire fuel') (fn w) ch)
            (watchers_of t name (ch_what ch) (registry s))
  end.

(** ** Widget Builder *)

(** What [widget_type] returned, as a Python value. *)
Definition of_resolved (o : option wclass) : value :=
  match o with
  | Some c => VWidgetClass c
  | None => VNone
  end.

(** [issubclass(widget_class, C)]: the first argument must be a class. *)
Definition issubclass (sub : wclass → bool) (widget_class : value)
    : M Param bool :=
  match widget_class with
  | VWidgetClass c => mret (sub c)
  | _ => raise TypeError
  end.

(** [widget_class.param], of a widget class or of a widget. *)
Definition param_names (widget_class : value) : M Param (gset string) :=
  match widget_class with
  | VWidgetClass c | VWidgetInst c _ => mret (wparams c)
  | _ => raise AttributeError
  end.

(** [hasattr(widget_class, 'step')]. *)
Definition hasattr_step (widget_class : value) : bool :=
  match widget_class with
  | VWidgetClass c | VWidgetInst c _ => has_step c
  | _ => false
  end.

(** The choice of the widget class and of the keyword overrides: the
    first [if] of [Param.widget]. The ['type'] of a dictionary of
    overrides is popped from the dictionary held by [self.widgets]. *)
Definition choose_class (p_name : string) (p_obj : descriptor)
    : M Param (value * gmap string value) :=
  s ← get;
  match widgets s with
  | None => mret (of_resolved (Resolver.widget_type p_obj), ∅)
  | Some ws =>
      match ws !! p_name with
      | None => mret (of_resolved (Resolver.widget_type p_obj), ∅)
      | Some (ODict d) =>
          match d !! "type" with
          | Some t =>
              modify (set_widgets
                        (Some (<[p_name := ODict (delete "type" d)]> ws)));;
              mret (t, delete "type" d)
          | None => mret (of_resolved (Resolver.widget_type p_obj), d)
          end
      | Some (OVal v) => mret (v, ∅)
      end
  end.

(** [if not self.show_labels and not issubclass(widget_class, _ButtonBase)]. *)
Definition choose_label (widget_class : value) (p_obj : descriptor)
    : M Param string :=
  s ← get;
  if show_labels s then mret (label p_obj)
  else
    b ← issubclass sub_ButtonBase widget_class;
    mret (if b : bool then label p_obj else EmptyString).

(** [if hasattr(p_obj, 'get_range')]. *)
Definition with_options (p_obj : descriptor) (v : value)
    (kw : gmap string value) : gmap string value :=
  match get_range p_obj with
  | Some options =>
      let options :=
        if negb (truthy options) && negb (is_None v)
        then VList [v] else options in
      <["options" := options]> kw
  | None => kw
  end.
(** [if hasattr(p_obj, 'get_soft_bounds')]: the bounds that are not
    [None] become [start] and [end]; a widget class that is not a
    [LiteralInput] gives way to [LiteralInput] when [start] or [end] is
    missing from the keywords; the step follows. *)
Definition with_bounds (p_obj : descriptor) (widget_class : value)
    (kw : gmap string value) : M Param (value * gmap string value) :=
  match get_soft_bounds p_obj with
  | Some bounds =>
      let kw := if is_None bounds.1 then kw else <["start" := bounds.1]> kw in
      let kw := if is_None bounds.2 then kw else <["end" := bounds.2]> kw in
      widget_class ←
        (if bool_decide (kw !! "start" = None ∨ kw !! "end" = None) then
           b ← issubclass sub_LiteralInput widget_class;
           mret (if b : bool then widget_class else VWidgetClass LiteralInput)
         else mret widget_class);
      let kw := if hasattr_step widget_class && truthy (step p_obj)
                then <["step" := step p_obj]> kw else kw in
      mret (widget_class, kw)
  | None => mret (widget_class, kw)
  end.

(** The call of [widget_class] on [kwargs], or the widget itself when [widget_class]
    is a widget: the identity and the class of the widget. The
    constructor raises what the class raises for a value it refuses. *)
Definition construct (widget_class : value) (kwargs : gmap string value)
    : M Param (wid * wclass) :=
  match widget_class with
  | VWidgetInst c n => mret (inr n, c)
  | VWidgetClass c =>
      match list_find (λ kv, is_Some (w_validate c kv.1 kv.2))
                      (map_to_list kwargs) with
      | Some (_, kv) => lift_opt TypeError (w_validate c kv.1 kv.2) ≫= raise
      | None =>
          s ← get;
          let w : wid := inl (next_widget s) in
          modify (λ s, set_next_widget (S (next_widget s))
                         (set_store (<[w := {| w_class := c; w_attrs := kwargs |}]>
                                       (store s)) s));;
          mret (w, c)
      end
  | _ => raise TypeError
  end.

(** The links of a widget that is not a toggle: the end of the [else]
    branch of [Param.widget]. Only the watchers on the object go to
    [self._callbacks]. *)
Definition link_up (p_name : string) (p_obj : descriptor) (v : value)
    (w : wid) (kw : gmap string value) : M Param unit :=
  watcher ← (if isinstance_p P_Action p_obj
             then watch (OnWidget w) "clicks" "value" (action_cb v)
             else watch (OnWidget w) "value" "value" (link_widget_cb p_name));
  let cell := uid watcher in
  modify (λ s, set_cells (<[cell := uid watcher]> (cells s)) s);;
  let watch_object (wh : string) : M Param unit :=
    x ← watch OnObject p_name wh (link_cb p_name w cell);
    modify (λ s, set__callbacks (_callbacks s ++ [x]) s) in
  watch_object "constant";;
  watch_object "precedence";;
  watch_object "label";;
  (if get_range p_obj is Some _ then watch_object "objects" else mret tt);;
  (if get_soft_bounds p_obj is Some _ then watch_object "bounds" else mret tt);;
  (if kw !! "step" is Some _ then watch_object "step" else mret tt);;
  watch_object "value".

(** [for o in options]: the values of a dictionary, the elements of a
    list, the characters of a string (none of which is parameterized). *)
Definition iter_values (options : value) : M Param (list value) :=
  match options with
  | VList l => mret l
  | VDict d => mret (snd <$> d)
  | VStr _ => mret []
  | _ => raise TypeError
  end.

(** An assignment to an attribute of a widget on which this module
    registers no watcher ([margin], [width]). *)
Definition widget_setattr (w : wid) (k : string) (v : value) : M Param unit :=
  s ← get;
  ws ← lift_opt AttributeError (store s !! w);
  modify (set_store (<[w := {| w_class := w_class ws;
                               w_attrs := <[k := v]> (w_attrs ws) |}]> (store s))).

Definition tuple4 (a b c d : Z) : value :=
  VList [VNum (inject_Z a); VNum (inject_Z b); VNum (inject_Z c); VNum (inject_Z d)].

(** The end of [Param.widget]: a parameterized value, or a parameterized
    option, gets an expand toggle beside its widget. *)
Definition with_toggle (v : value) (w : wid) (kwargs : gmap string value)
    : M Param control :=
  s ← get;
  some ← (if is_parameterized v then mret true
          else
            os ← iter_values (default (VList []) (kwargs !! "options"));
            mret (existsb is_parameterized os));
  if (some : bool) &&
     match expand_button s with
     | Some b => b
     | None => negb (expand s)
     end
  then
    widget_setattr w "margin" (tuple4 5 0 5 10);;
    let toggle : wid := inl (next_widget s) in
    modify (λ s, set_next_widget (S (next_widget s))
                   (set_store
                      (<[toggle := {| w_class := Toggle;
                                      w_attrs := list_to_map
                                        [("name", VStr "⋮");
                                         ("button_type", VStr "primary");
                                         ("disabled", VBool (negb (is_parameterized v)));
                                         ("max_height", VNum 30);
                                         ("max_width", VNum 20);
                                         ("height_policy", VStr "fit");
                                         ("align", VStr "center");
                                         ("margin", tuple4 0 0 0 10)] |}]>
                         (store s)) s));;
    widget_setattr w "width" (VNum (inject_Z (width s - 60)));;
    mret (CRow w toggle)
  else mret (CWidget w).

(** [Param.widget]. *)
Definition widget (p_name : string) : M Param control :=
  s ← get;
  obj ← lift_opt AttributeError (object s);
  p_obj ← lift_opt KeyError (param_lookup obj p_name);
  '(widget_class, kw_widget) ← choose_class p_name p_obj;
  v ← lift_opt AttributeError (values obj !! p_name);
  label ← choose_label widget_class p_obj;
  let kw : gmap string value :=
    kw_widget ∪ list_to_map [("value", v);
                             ("disabled", VBool (constant p_obj));
                             ("name", VStr label)] in
  let kw := with_options p_obj v kw in
  '(widget_class, kw) ← with_bounds p_obj widget_class kw;
  names ← param_names widget_class;
  let kwargs := filter (λ kv : string * value, kv.1 ∈ names) kw in
  '(w, c) ← construct widget_class kwargs;
  (if sub_Toggle c then mret tt else link_up p_name p_obj v w kw);;
  with_toggle v w kwargs.

(** ** Widget Tree Orchestrator *)

(** [self.expand_layout is Tabs]. *)
Definition expand_layout_is_Tabs (s : Param) : bool :=
  match expand_layout s with
  | LType c => bool_decide (tname c = "Tabs")
  | _ => false
  end.

(** [Param._get_widgets]. *)
Definition _get_widgets : M Param (list (string * control)) :=
  s ← get;
  widgets ←
    (if expand_layout_is_Tabs s then mret []
     else if show_name s then
       obj ← lift_opt AttributeError (object s);
       let name := param_name (obj_name obj) in
       '(w, _) ← construct (VWidgetClass StaticText)
                   {["value" := VStr ("<b>" +:+ name +:+ "</b>")]};
       mret [("name", CWidget w)]
     else mret []);
  names ← _ordered_params;
  built ← mapM (λ pname, c ← widget pname; mret (pname, c)) names;
  mret (OrderedDict (widgets ++ built)).

(** [for o in getattr(w, 'options', [])]: a dictionary yields its keys. *)
Definition iter_elements (options : value) : M Param (list value) :=
  match options with
  | VList l => mret l
  | VDict d => mret ((λ kv, VStr kv.1) <$> d)
  | VStr _ => mret []
  | _ => raise TypeError
  end.

(** The test of [_link_subobjects] on one widget of a control. *)
Definition has_parameterized (w : wid) : M Param bool :=
  s ← get;
  ws ← lift_opt AttributeError (store s !! w);
  if is_parameterized (default VNone (w_attrs ws !! "value")) then mret true
  else
    os ← iter_elements (default (VList []) (w_attrs ws !! "options"));
    mret (existsb is_parameterized os).

(** [any(test(w) for w in l)]. *)
Fixpoint anyM {A} (f : A → M Param bool) (l : list A) : M Param bool :=
  match l with
  | [] => mret false
  | a :: l' => b ← f a; if b : bool then mret true else anyM f l'
  end.

(** The body of the loop of [Param._link_subobjects]. A [Row] built by
    [Param.widget] holds the widget and a toggle. *)
Definition link_subobject (notify : notifier) (pname : string) (c : control)
    : M Param unit :=
  let widgets := match c with CWidget w => [w] | CRow w t => [w; t] end in
  some ← anyM has_parameterized widgets;
  if negb some then mret tt
  else
    let '(selector, toggle) :=
      match c with
      | CRow w t => (w, Some t)
      | CWidget w => (w, None)
      end in
    x ← watch (OnWidget selector) "value" "value" (update_pane_cb pname toggle);
    ys ← match toggle with
         | Some t =>
             y ← watch (OnWidget t) "value" "value" (toggle_pane_cb pname);
             mret [y]
         | None => mret []
         end;
    modify (λ s, set__callbacks (_callbacks s ++ x :: ys) s);;
    s ← get;
    if expand s then
      if expand_button s is Some true then
        match toggle with
        | Some t => widget_set_param notify t {["value" := VBool true]}
        | None => raise AttributeError
        end
      else
        toggle_pane pname
          {| ch_what := "value"; ch_old := VNone; ch_new := VBool true |}
    else mret tt.

(** [Param._link_subobjects]. *)
Definition _link_subobjects (notify : notifier) : M Param unit :=
  s ← get;
  iterM (λ kv : string * control, link_subobject notify kv.1 kv.2) (_widgets s).

(** An event of the pane's own parameters, as [_update_widgets] reads
    it: the new object, the new list of parameters, or the name alone. *)
Inductive object_new :=
| NewParameters
| NewNone
| NewObject (obj : Parameterized).

Inductive event :=
| EvObject (new : object_new)
| EvParameters (new : list string)
| EvOther (name : string).

Definition event_name (e : event) : string :=
  match e with
  | EvObject _ => "object"
  | EvParameters _ => "parameters"
  | EvOther name => name
  end.

(** The first loop of [_update_widgets]; the local [parameters] is
    [None] or a list. The assignment to [self.object] reads [object.self]
    on the built-in [object], which has no such attribute. *)
Fixpoint read_events (es : list event) (parameters : option (list string))
    : M Param (option (list string)) :=
  match es with
  | [] => mret parameters
  | EvObject NewParameters :: _ => raise AttributeError
  | EvObject NewNone :: es' => read_events es' None
  | EvObject (NewObject obj) :: es' =>
      read_events es'
        (Some (filter (λ p, p ≠ "name") (fst <$> params obj)))
  | EvParameters new :: es' =>
      read_events es' (if new is [] then None else Some new)
  | EvOther _ :: es' => read_events es' parameters
  end.

(** The loop of [_update_widgets] that unwatches the callbacks of the
    widgets of the box. *)
Definition teardown : M Param unit :=
  s ← get;
  let gone (cb : watcher) : bool :=
    match inst cb with
    | OnWidget w => bool_decide (IControl (CWidget w) ∈ _widget_box s)
    | OnObject => false
    end in
  let dead := filter (λ cb, gone cb) (_callbacks s) in
  modify (λ s, set_registry
                 (filter (λ w, uid w ∉ uid <$> dead) (registry s))
                 (set__callbacks (filter (λ cb, negb (gone cb)) (_callbacks s)) s)).

(** [Param._update_widgets]; [parameters_] is its local [parameters].
    Assigning [self.parameters] calls the watchers of the pane, that is
    [_update_widgets] again. *)
Fixpoint _update_widgets (fuel : nat) (events : list event) : M Param unit :=
  match fuel with
  | 0 => out_of_fuel
  | S fuel' =>
      parameters_ ← read_events
                     (sorted (λ a b, String.leb (event_name a) (event_name b)) events)
                     (Some []);
      s ← get;
      if bool_decide (parameters_ ≠ Some [] ∧ parameters_ ≠ Some (parameters s))
      then
        match parameters_ with
        | None => raise ValueError
        | Some ps =>
            modify (set_parameters ps);;
            _update_widgets fuel' [EvParameters ps]
        end
      else
        teardown;;
        (if object s is None then modify (set__widgets [])
         else ws ← _get_widgets; modify (set__widgets ws));;
        s ← get;
        widgets ← filterM (λ kv : string * control, shown kv.1) (_widgets s);
        modify (set__widget_box ((λ kv, IControl kv.2) <$> widgets));;
        if negb (bool_decide (expand_button s = Some false) && negb (expand s))
        then _link_subobjects (fire fuel')
        else mret tt
  end.

(** *** Construction *)

(** The first argument of [Param]: nothing, a Parameterized object, one
    parameter (its name and its owner, if it has one), or the [param]
    namespace of an object. *)
Inductive init_object :=
| InitNone
| InitObject (obj : Parameterized)
| InitParameter (name : string) (owner : option Parameterized)
| InitParameters (obj : Parameterized).

(** The keyword arguments of [Param]; [parameters] and [show_name] may
    be left out, the others stand with their defaults when they are. *)
Record init_params := {
  i_parameters : option (list string);
  i_show_name : option bool;
  i_display_threshold : Q;
  i_default_precedence : Q;
  i_expand : bool;
  i_expand_button : option bool;
  i_expand_layout : layout_value;
  i_default_layout : pytype;
  i_show_labels : bool;
  i_width : Z;
  i_widgets : option (gmap string override)
}.

(** The [if] of [__init__] on [self.expand_layout]. [isinstance(x, y)]
    raises a [TypeError] when [y] is neither a class nor a tuple of
    classes. *)
Definition resolve_expand_layout (box : pytype) (layout : layout_value)
    : outcome expand_target :=
  match layout with
  | LInstance c =>
      if is_subclass_of c "Panel" then Ret ExpandInstance
      else Raise TypeError
  | LType c =>
      if is_subclass_of box (tname c) then Ret ExpandBox
      else if is_subclass_of c "Panel" then Ret ExpandWrap
      else Raise ValueError
  | LTuple cs =>
      if existsb (λ c, is_subclass_of box (tname c)) cs then Ret ExpandBox
      else Raise ValueError
  | LOther => Raise TypeError
  end.

(** [Param.__init__]. *)
Definition __init__ (fuel : nat) (object0 : init_object) (cfg : init_params)
    : option (Param * outcome unit) :=
  let show_name :=
    match object0, i_show_name cfg with
    | InitParameter _ _, None => false
    | _, Some b => b
    | _, None => true
    end in
  let parameters :=
    match object0 with
    | InitParameter name _ => Some [name]
    | _ => i_parameters cfg
    end in
  let obj :=
    match object0 with
    | InitNone => None
    | InitObject obj | InitParameters obj => Some obj
    | InitParameter _ owner => owner
    end in
  let parameters :=
    match parameters, obj with
    | None, Some o => filter (λ p, p ≠ "name") (fst <$> params o)
    | None, None => []
    | Some ps, _ => ps
    end in
  let s0 (target : expand_target) : Param :=
    {| object := obj; parameters := parameters;
       display_threshold := i_display_threshold cfg;
       default_precedence := i_default_precedence cfg;
       expand := i_expand cfg; expand_button := i_expand_button cfg;
       expand_layout := i_expand_layout cfg;
       default_layout := i_default_layout cfg;
       show_labels := i_show_labels cfg; show_name := show_name;
       width := i_width cfg; widgets := i_widgets cfg;
       _updating := false; _widgets := []; _widget_box := [];
       _expand_layout := target; _expanded := []; _callbacks := [];
       registry := []; cells := ∅; next_watcher := 0;
       store := ∅; next_widget := 0; trace := [] |} in
  match resolve_expand_layout (i_default_layout cfg) (i_expand_layout cfg) with
  | Raise e => Some (s0 ExpandBox, Raise e)
  | Ret target => _update_widgets fuel [] (s0 target)
  end.

(** [n] rebuilds of the widgets in succession, with no event. *)
Fixpoint rebuilds (fuel n : nat) (s : Param) : option Param :=
  match n with
  | 0 => Some s
  | S n' =>
      match _update_widgets fuel [] s with
      | Some (s', _) => rebuilds fuel n' s'
      | None => None
      end
  end.

End Pane.

(** The controls among the items of a layout. *)
Definition controls_of (l : list item) : list control :=
  omap (λ it, match it with IControl c => Some c | IPane _ => None end) l.

(** [precedence is None or precedence >= display_threshold] for the
    parameter [p] of the object of the pane. *)
Definition is_shown (s : Param) (p : string) : bool :=
  match object s with
  | Some obj =>
      match param_lookup obj p with
      | Some p_obj => shown_precedence (display_threshold s) p_obj
      | None => false
      end
  | None => false
  end.

(** What an observer sees of a control: the class of its widget and the
    value the widget holds. *)
Definition observe_control (s : Param) (c : control) : option (wclass * value) :=
  let w := match c with CWidget w | CRow w _ => w end in
  (λ ws, (w_class ws, default VNone (w_attrs ws !! "value"))) <$> store s !! w.

(** The controls of the pane as an observer sees them: the names, the
    widget classes and the values, in order. *)
Definition observe (s : Param) : list (string * option (wclass * value)) :=
  (λ kv, (kv.1, observe_control s kv.2)) <$> _widgets s.

(** ** Dependency-Reactive Re-evaluator *)

Module ParamMethod.

(** What [Link.registry.get(new_object)] does: it raises a [TypeError]
    for an object that cannot be hashed, and returns [None] or the list
    of the links of the object. *)
Inductive registry_get :=
| Unhashable
| Absent
| Links (n : nat).

(** The object the function returned. Objects are compared by identity
    ([is]); [out_params] is [get_param_values()] when the object is a
    [Reactive], [out_pane_type] is what [get_pane_type] answers for it. *)
Record output := {
  out_ref : nat;
  out_pane_type : string;
  out_links : registry_get;
  out_params : option (list (string * nat))
}.

(** A pane: its class and the values of its parameters, by identity. *)
Record pane := {
  pane_type : string;
  pane_values : gmap string nat
}.

(** A call of [set_param] on a pane, or an assignment to its [object]. *)
Record pane_write := {
  written_pane : nat;
  written : gmap string nat
}.

Record state := {
  (** [self.get_param_values()] and [self._kwargs] *)
  own_values : gmap string nat;
  _kwargs : gmap string nat;
  (** [self._pane] and [self._inner_layout], by identity *)
  _pane : nat;
  _inner_layout : list nat;
  (** the panes, by identity *)
  panes : gmap nat pane;
  next_pane : nat;
  (** the writes made to panes so far, oldest first *)
  pane_trace : list pane_write
}.

(** [not links]. *)
Definition no_links (r : registry_get) : bool :=
  match r with
  | Unhashable | Absent => true
  | Links n => bool_decide (n = 0)
  end.

(** The dictionary comprehension of [_update_pane]: [pvals[k]] is read
    for every [k] other than ['name']. *)
Fixpoint new_params (pvals : gmap string nat) (l : list (string * nat))
    : outcome (gmap string nat) :=
  match l with
  | [] => Ret ∅
  | (k, v) :: l' =>
      if bool_decide (k = "name") then new_params pvals l'
      else
        match pvals !! k with
        | None => Raise KeyError
        | Some old =>
            match new_params pvals l' with
            | Ret m =>
                (* a later pair of the same key replaces an earlier one *)
                Ret (if bool_decide (v = old) then m
                     else if m !! k is Some _ then m else <[k := v]> m)
            | Raise e => Raise e
            end
        end
  end.

(** [pane.set_param] of the updates, and [pane.object = x]. *)
Definition pane_set (p : nat) (updates : gmap string nat) : M state unit :=
  s ← get;
  pn ← lift_opt AttributeError (panes s !! p);
  modify (λ s, {| own_values := own_values s; _kwargs := _kwargs s;
                  _pane := _pane s; _inner_layout := _inner_layout s;
                  panes := <[p := {| pane_type := pane_type pn;
                                     pane_values := updates ∪ pane_values pn |}]>
                             (panes s);
                  next_pane := next_pane s;
                  pane_trace := pane_trace s ++
                                  [{| written_pane := p; written := updates |}] |}).

(** Modelled from the spec: [Pane], defined in [panel/pane/base.py], is
    not part of this module; the spec has it construct a fresh wrapper
    for the output, and the class gives the wrapper it constructs. *)
Class PaneLib := {
  Pane : output → gmap string nat → pane
}.

Definition set_pane (p : nat) (pn : pane) (s : state) : state :=
  {| own_values := own_values s; _kwargs := _kwargs s;
     _pane := p; _inner_layout := _inner_layout s;
     panes := <[p := pn]> (panes s);
     next_pane := S (next_pane s);
     pane_trace := pane_trace s |}.

Definition set_inner_layout (l : list nat) (s : state) : state :=
  {| own_values := own_values s; _kwargs := _kwargs s;
     _pane := _pane s; _inner_layout := l;
     panes := panes s; next_pane := next_pane s;
     pane_trace := pane_trace s |}.

(** [ParamMethod._update_pane]; [new_object] is what
    [self._eval_function(self.object)] returned. *)
Definition _update_pane `{PaneLib} (new_object : output) : M state unit :=
  s ← get;
  let pane_type_new := out_pane_type new_object in
  let links := out_links new_object in
  cur ← lift_opt AttributeError (panes s !! _pane s);
  if bool_decide (pane_type cur = pane_type_new) && no_links links then
    match out_params new_object with
    | Some vals =>
        match new_params (pane_values cur) vals with
        | Ret m => pane_set (_pane s) m
        | Raise e => raise e
        end
    | None => pane_set (_pane s) {["object" := out_ref new_object]}
    end
  else
    let kwargs := _kwargs s ∪ own_values s in
    if kwargs !! "object" is Some _ then
      let kwargs := delete "object" kwargs in
      modify (set_pane (next_pane s) (Pane new_object kwargs));;
      s ← get;
      match _inner_layout s with
      | [] => raise IndexError
      | _ :: rest => modify (set_inner_layout (_pane s :: rest))
      end
    else raise KeyError.

End ParamMethod.

(** ** JSONInit

    [JSONInit.__call__] sets the parameters of an object, or of a class,
    from a JSON specification that it reads from a file or from an
    environment variable. *)

Module JSONInit.

(** [s.endswith(suffix)]. *)
Definition endswith (s suffix : string) : bool :=
  (String.length suffix <=? String.length s)%nat &&
  String.eqb (String.substring (String.length s - String.length suffix)
                               (String.length suffix) s)
             suffix.

(** The [json] module and the files, as [__call__] uses them: a JSON
    document is read as a Python value, an object as a dictionary. *)
Class JSONLib := {
  (** [json.load(open(os.path.abspath(fname), 'r'))]: [None] when the
      file cannot be opened or does not hold a JSON document *)
  load : string → option value;
  (** [json.loads(s)]: [None] when it raises its [ValueError] *)
  loads : string → option value
}.

(** The parameters of a [JSONInit]; [target] and [json_file] are
    strings whose default is [None]. *)
Record JSONInit := {
  varname : string;
  target : option string;
  json_file : option string
}.

(** The argument of the call: a Parameterized instance or class, the
    name of its class and its parameters. *)
Record subject := {
  is_type : bool;
  class_name : string;
  subject_object : Parameterized
}.

(** What the call raises: an exception of the pane model, or the
    [UnboundLocalError] of a local variable read before it is bound. *)
Inductive raised :=
| Exn (e : exn)
| UnboundLocalError.

(** [warnobj]: [param.main] for a class, the object itself otherwise. *)
Inductive warner := Main | Self.

(** The warnings of [__call__]. *)
Inductive warning :=
| NotADictionary (who : warner)
| Refused (who : warner) (name : string).

(** [parameterized.set_param(name=value)], as the [param] library does
    it: a name that is not a parameter is a [ValueError], a value the
    parameter refuses is what the parameter raises. *)
Definition set_param (obj : Parameterized) (name : string) (v : value)
    : Parameterized + exn :=
  match param_lookup obj name with
  | None => inr ValueError
  | Some p_obj =>
      match validate p_obj v with
      | Some e => inr e
      | None => inl {| obj_name := obj_name obj; params := params obj;
                       values := <[name := v]> (values obj) |}
      end
  end.

(** The loop on [params.items()]: a [ValueError] becomes a warning and
    the loop goes on; any other exception leaves the loop. *)
Fixpoint set_all (who : warner) (items : list (string * value))
    (obj : Parameterized) (warnings : list warning)
    : Parameterized * list warning * option raised :=
  match items with
  | [] => (obj, warnings, None)
  | (name, v) :: items' =>
      match set_param obj name v with
      | inl obj' => set_all who items' obj' warnings
      | inr ValueError =>
          set_all who items' obj (warnings ++ [Refused who name])
      | inr e => (obj, warnings, Some (Exn e))
      end
  end.

(** [d[k]] and [k in d] on a dictionary read from JSON. *)
Definition dict_get (d : list (string * value)) (k : string) : option value :=
  (λ ix, ix.2.2) <$> list_find (λ kv, kv.1 = k) d.

(** A string that is not empty: [self.json_file] as a condition. *)
Definition nonempty (o : option string) : option string :=
  match o with
  | Some f => if String.eqb f EmptyString then None else Some f
  | None => None
  end.

(** The part of [__call__] that reads the specification, once the
    environment variable or the file is there: from the file when
    [self.json_file] is not empty or the variable ends in [.json], from
    the variable itself otherwise. When the file cannot be loaded the
    handler formats its warning with [spec], which is not bound. *)
Definition read_spec `{JSONLib} (self : JSONInit) (env_var : option string)
    : value + raised :=
  let from_file : bool + raised :=
    match nonempty (json_file self), env_var with
    | Some _, _ => inl true
    | None, Some e => inl (endswith e ".json")
    | None, None => inr (Exn AttributeError)
    end in
  match from_file with
  | inr e => inr e
  | inl true =>
      let fname := default (default EmptyString env_var)
                           (nonempty (json_file self)) in
      match load fname with
      | Some spec => inl spec
      | None => inr UnboundLocalError
      end
  | inl false =>
      match loads (default EmptyString env_var) with
      | Some spec => inl spec
      | None => inr (Exn ValueError)
      end
  end.

(** [JSONInit.__call__]: the object, the warnings and what was raised,
    if anything. *)
Definition __call__ `{JSONLib} (self : JSONInit) (environ : gmap string string)
    (parameterized : subject)
    : Parameterized * list warning * option raised :=
  let obj := subject_object parameterized in
  let warnobj := if is_type parameterized then Main else Self in
  let target := default (class_name parameterized) (target self) in
  let env_var := environ !! varname self in
  if bool_decide (env_var = None ∧ json_file self = None) then (obj, [], None)
  else
    match read_spec self env_var with
    | inr e => (obj, [], Some e)
    | inl (VDict spec) =>
        let params := default (VDict spec) (dict_get spec target) in
        match params with
        | VDict items => set_all warnobj items obj []
        | _ => (obj, [], Some (Exn AttributeError))
        end
    | inl _ => (obj, [NotADictionary warnobj], None)
    end.

(** The parameter takes the value: [set_param] returns. *)
Definition accepted (obj : Parameterized) (kv : string * value) : bool :=
  if set_param obj kv.1 kv.2 is inl _ then true else false.

End JSONInit.

(** ** The vocabulary of the properties *)

(** What the watchers of value changes, and the parts of [Param.widget]
    after the choice of the class, leave as it is: they write to the
    history, the watchers, the widgets, the guard, the values of the
    object and the nested panes of the layouts. *)
Record frame (s s' : Param) : Prop := {
  frame_params : params <$> object s = params <$> object s';
  frame_obj_name : obj_name <$> object s = obj_name <$> object s';
  frame_parameters : parameters s = parameters s';
  frame_display_threshold : display_threshold s = display_threshold s';
  frame_default_precedence : default_precedence s = default_precedence s';
  frame_expand : expand s = expand s';
  frame_expand_button : expand_button s = expand_button s';
  frame_expand_layout : expand_layout s = expand_layout s';
  frame_default_layout : default_layout s = default_layout s';
  frame_show_labels : show_labels s = show_labels s';
  frame_show_name : show_name s = show_name s';
  frame_width : width s = width s';
  frame_widgets : widgets s = widgets s';
  frame__widgets : _widgets s = _widgets s';
  frame__expand_layout : _expand_layout s = _expand_layout s';
  frame_controls : controls_of (_widget_box s) = controls_of (_widget_box s')
}.

(** The part of the frame that a rebuild of the widgets keeps too. *)
Record config (s s' : Param) : Prop := {
  config_params : params <$> object s = params <$> object s';
  config_obj_name : obj_name <$> object s = obj_name <$> object s';
  config_parameters : parameters s = parameters s';
  config_display_threshold : display_threshold s = display_threshold s';
  config_default_precedence : default_precedence s = default_precedence s';
  config_expand : expand s = expand s';
  config_expand_button : expand_button s = expand_button s';
  config_expand_layout : expand_layout s = expand_layout s';
  config_default_layout : default_layout s = default_layout s';
  config_show_labels : show_labels s = show_labels s';
  config_show_name : show_name s = show_name s';
  config_width : width s = width s';
  config__expand_layout : _expand_layout s = _expand_layout s'
}.

(** [pres R m]: the state [m] ends in is related by [R] to the state it
    started in, whether [m] returns or raises. *)
Definition pres {A} (R : relation Param) (m : M Param A) : Prop :=
  ∀ s s' r, m s = Some (s', r) → R s s'.

Abbreviation preserves := (pres frame).

(** [ends P m]: from a pane that satisfies [P], [m] returns or raises,
    and leaves a pane that satisfies [P]. *)
Definition ends {A} (P : Param → Prop) (m : M Param A) : Prop :=
  ∀ s, P s → ∃ s' r, m s = Some (s', r) ∧ P s'.

(** A computation that ends, whatever the pane. *)
Definition total {A} (m : M Param A) : Prop := ∀ s, is_Some (m s).

Section Vocabulary.
Context `{WidgetLib} `{Runtime}.

(** A notifier that keeps the frame when it delivers a value change. *)
Definition framed (notify : notifier) : Prop :=
  ∀ t name ch, ch_what ch = "value" → preserves (notify t name ch).

(** Past the choice of the class, [Param.widget] keeps the frame. *)
Definition widget_rest (p_name : string) (p_obj : descriptor)
    (obj : Parameterized) (chosen : value * gmap string value)
    : M Param control :=
  let '(widget_class, kw_widget) := chosen in
  v ← lift_opt AttributeError (values obj !! p_name);
  label ← choose_label widget_class p_obj;
  let kw : gmap string value :=
    kw_widget ∪ list_to_map [("value", v);
                             ("disabled", VBool (constant p_obj));
                             ("name", VStr label)] in
  let kw := with_options p_obj v kw in
  '(widget_class, kw) ← with_bounds p_obj widget_class kw;
  names ← param_names widget_class;
  let kwargs := filter (λ kv : string * value, kv.1 ∈ names) kw in
  '(w, c) ← construct widget_class kwargs;
  (if sub_Toggle c then mret tt else link_up p_name p_obj v w kw);;
  with_toggle v w kwargs.

(** The whitelisted parameters other than ['name'], as the object
    declares them. *)
Definition listed (obj : Parameterized) (whitelist : list string)
    : list (string * descriptor) :=
  filter (λ x : string * descriptor, x.1 ∈ whitelist ∧ x.1 ≠ "name") (params obj).

(** What [_ordered_params] lists, before the names are taken. *)
Definition ordered_pairs (obj : Parameterized) (whitelist : list string)
    (dp : Q) : list (string * descriptor) :=
  filter (λ el : string * descriptor, el.1 ≠ "name")
    (sorted (λ x y, Qle_bool (key_fn dp x) (key_fn dp y))
       (filter (λ x : string * descriptor,
                  x.1 ∈ whitelist ∨ x.1 = "name") (params obj))).

(** The state after [object.set_param(p_name=v)] was recorded and took
    effect. *)
Definition object_written (p_name : string) (v : value) (s : Param) : Param :=
  store_value p_name v (set_trace (trace s ++ [WObject p_name v]) s).

(** The state after [widget.set_param(k=v)] was recorded and took
    effect. *)
Definition attr_written (w : wid) (ws : widget_state) (k : string) (v : value)
    (s : Param) : Param :=
  set_store (<[w := {| w_class := w_class ws;
                       w_attrs := <[k := v]> (w_attrs ws) |}]> (store s))
    (set_trace (trace s ++ [WWidget w {[k := v]}]) s).

(** The state after [widget.set_param(value=v)] was recorded and took
    effect. *)
Definition widget_written (w : wid) (ws : widget_state) (v : value)
    (s : Param) : Param :=
  attr_written w ws "value" v s.

(** The widget [w] has the parameter [k] and takes the value [v] for
    it: [w.set_param(k=v)] raises nothing. *)
Definition takes (s : Param) (w : wid) (k : string) (v : value) : bool :=
  match store s !! w with
  | Some ws =>
      bool_decide (k ∈ wparams (w_class ws)) &&
      (if w_validate (w_class ws) k v is None then true else false)
  | None => false
  end.

(** A watcher that [_link_subobjects] registers on the value of a
    selector: the closure [update_pane], whose toggle, when it has one,
    takes what [update_pane] sets its [disabled] to for the value [V]
    and has no watcher on [disabled]. *)
Definition subobject_closure (s : Param) (V : value) (x : watcher) : bool :=
  match fn x with
  | update_pane_cb _ None => true
  | update_pane_cb _ (Some t) =>
      takes s t "disabled" (VBool (negb (is_parameterized V))) &&
      (if watchers_of (OnWidget t) "disabled" "value" (registry s) is []
       then true else false)
  | _ => false
  end.

(** A watcher of the value of a widget, as the builds of the pane leave
    them: a closure [link_widget] or a closure of [_link_subobjects]. *)
Definition widget_closure (s : Param) (V : value) (x : watcher) : bool :=
  match fn x with
  | link_widget_cb _ => true
  | _ => subobject_closure s V x
  end.

(** A closure [link_widget] of some build. *)
Definition is_link_widget (x : watcher) : bool :=
  match fn x with
  | link_widget_cb _ => true
  | _ => false
  end.

(** A watcher of the value of the widget of the parameter [p_name], as
    the builds of the pane leave them: a closure [link_widget] of the
    parameter, of this build or of an earlier one, or a closure of
    [_link_subobjects]. *)
Definition value_closure (s : Param) (p_name : string) (V : value)
    (x : watcher) : bool :=
  match fn x with
  | link_widget_cb p => bool_decide (p = p_name)
  | _ => subobject_closure s V x
  end.

(** A closure [link] of some build. *)
Definition is_link (x : watcher) : bool :=
  match fn x with
  | link_cb _ _ _ => true
  | _ => false
  end.

(** The widget a closure [link] writes to. *)
Definition linked_widget (x : watcher) : option wid :=
  match fn x with
  | link_cb _ w _ => Some w
  | _ => None
  end.

(** A closure [link] of the parameter [p_name], of this build or of an
    earlier one, whose widget takes the value [V] and is watched by
    the closures of [Param.widget] and [_link_subobjects] alone. *)
Definition link_closure (s : Param) (p_name : string) (V : value) (x : watcher)
    : bool :=
  match fn x with
  | link_cb p w _ =>
      bool_decide (p = p_name) && takes s w "value" V &&
      forallb (widget_closure s V)
              (watchers_of (OnWidget w) "value" "value" (registry s))
  | _ => false
  end.

(** The calls of [object.set_param] in a history, oldest first. *)
Definition object_writes (l : list write) : list (string * value) :=
  omap (λ e, match e with WObject p v => Some (p, v) | _ => None end) l.

(** The values set on widgets in a history, oldest first. *)
Definition value_writes (l : list write) : list (wid * value) :=
  omap (λ e, match e with
             | WWidget w updates => (λ v, (w, v)) <$> updates !! "value"
             | _ => None
             end) l.

(** [effect V written s s']: what the delivery of a change of value to
    [V] leaves of a pane: the widgets [written], in this order, had
    their value set to [V], and nothing else was set on the object or
    as the value of a widget; the watchers, the guard, the object and
    the classes of the widgets are as they were. *)
Record effect (V : value) (written : list wid) (s s' : Param) : Prop := {
  effect_registry : registry s' = registry s;
  effect_updating : _updating s' = _updating s;
  effect_object : object s' = object s;
  effect_store : ∀ w ws, store s !! w = Some ws →
    ∃ ws', store s' !! w = Some ws' ∧ w_class ws' = w_class ws ∧
           w_attrs ws' !! "value"
           = if bool_decide (w ∈ written) then Some V
             else w_attrs ws !! "value";
  effect_trace : ∃ new, trace s' = trace s ++ new ∧
                        object_writes new = [] ∧
                        value_writes new = (λ w, (w, V)) <$> written
}.

End Vocabulary.

(** [keeps P R m]: from a pane that satisfies [P], [m] ends in a pane
    that [R] relates to the one it started in and that satisfies [P]
    again, whether [m] returns or raises. *)
Definition keeps {A} (P : Param → Prop) (R : relation Param) (m : M Param A)
    : Prop :=
  ∀ s s' r, P s → m s = Some (s', r) → R s s' ∧ P s'.

(** The watchers registered on the object. *)
Definition on_object (reg : list watcher) : list watcher :=
  filter (λ w, inst w = OnObject) reg.

(** [s'] has the watchers of [s] and new ones after them, and records
    in [self._callbacks] those of the new ones that are on the object. *)
Definition records_object_watchers (s s' : Param) : Prop :=
  ∃ new, registry s' = registry s ++ new ∧
         _callbacks s' = _callbacks s ++ on_object new.

(** Every watcher that [s] has on the object, [s'] has too. *)
Definition keeps_object_watchers (s s' : Param) : Prop :=
  ∀ w, w ∈ registry s → inst w = OnObject → w ∈ registry s'.

(** What [_link_subobjects] does to a pane whose [expand] is off: it
    registers watchers, and leaves the box and the layouts alone. *)
Record registers (s s' : Param) : Prop := {
  registers_config : config s s';
  registers_box : _widget_box s = _widget_box s';
  registers_expanded : _expanded s = _expanded s';
  registers_watchers : ∀ w, w ∈ registry s → w ∈ registry s'
}.

(** No watcher recorded in [self._callbacks] shares its identity with a
    registered watcher on another instance. *)
Definition distinct_watchers (s : Param) : Prop :=
  ∀ w d, w ∈ registry s → d ∈ _callbacks s → uid d = uid w → inst d = inst w.

(** ** A concrete setting

    A widget library after [panel.widgets], Python 3.7, and the object of
    the scenario of the specification: a number [a] with bounds (0, 10)
    and a boolean [b], to which an action [go] is added. *)

Module Example.

Definition common : gset string :=
  list_to_set ["name"; "disabled"; "margin"; "width"].

#[export] Instance widgets_lib : WidgetLib := {|
  wparams c :=
    common ∪
    match c with
    | FloatSlider | IntSlider | RangeSlider | DateRangeSlider =>
        list_to_set ["value"; "start"; "end"; "step"]
    | Select | MultiSelect => list_to_set ["value"; "options"]
    | Button => list_to_set ["clicks"; "button_type"]
    | DatetimeInput => list_to_set ["value"; "start"; "end"]
    | _ => list_to_set ["value"]
    end;
  has_step c :=
    match c with
    | FloatSlider | IntSlider | RangeSlider | DateRangeSlider => true
    | _ => false
    end;
  sub_LiteralInput c :=
    match c with LiteralInput | DatetimeInput => true | _ => false end;
  sub_ButtonBase c := match c with Button | Toggle => true | _ => false end;
  sub_Toggle c := match c with Toggle => true | _ => false end;
  w_validate c k v :=
    match c, v with
    | (FloatSlider | IntSlider), VNum _ => None
    | (FloatSlider | IntSlider), _ =>
        if bool_decide (k = "value") then Some ValueError else None
    | TextInput, VStr _ => None
    | TextInput, _ =>
        if bool_decide (k = "value") then Some ValueError else None
    | _, _ => None
    end
|}.

#[export] Instance python37 : Runtime := {|
  major := 3;
  minor := 7;
  is_equal a b :=
    match a, b with
    | VNone, VNone => true
    | VBool x, VBool y => bool_decide (x = y)
    | VNum x, VNum y => Qeq_bool x y
    | VStr x, VStr y => bool_decide (x = y)
    | _, _ => false
    end;
  param_name n := n
|}.

Definition python27 : Runtime := {|
  major := 2;
  minor := 7;
  is_equal := @is_equal python37;
  param_name n := n
|}.

Definition Number (lo hi : value) (prec : option Q) : descriptor :=
  {| mro := [P_Number; POther 0; P_Parameter; P_object];
     precedence := prec; constant := false; label := "A";
     get_range := None; get_soft_bounds := Some (lo, hi);
     step := VNone; path := VNone;
     validate v :=
       match v with
       | VNum q =>
           if match lo with VNum l => Qle_bool l q | _ => true end &&
              match hi with VNum h => Qle_bool q h | _ => true end
           then None else Some ValueError
       | _ => Some ValueError
       end |}.

Definition Boolean (prec : option Q) : descriptor :=
  {| mro := [P_Boolean; P_Parameter; P_object];
     precedence := prec; constant := false; label := "B";
     get_range := None; get_soft_bounds := None;
     step := VNone; path := VNone;
     validate v := match v with VBool _ => None | _ => Some ValueError end |}.

Definition String_ (prec : option Q) : descriptor :=
  {| mro := [P_String; P_Parameter; P_object];
     precedence := prec; constant := true; label := "Name";
     get_range := None; get_soft_bounds := None;
     step := VNone; path := VNone;
     validate v := Some TypeError |}.

Definition Action (prec : option Q) : descriptor :=
  {| mro := [P_Action; POther 1; P_Parameter; P_object];
     precedence := prec; constant := false; label := "Go";
     get_range := None; get_soft_bounds := None;
     step := VNone; path := VNone;
     validate v := match v with VCallable _ => None | _ => Some ValueError end |}.

(** The object of the scenario, with the given descriptors for [a] and
    [b]. *)
Definition object_of (a b : descriptor) : Parameterized :=
  {| obj_name := "Test";
     params := [("name", String_ None); ("a", a); ("b", b); ("go", Action None)];
     values := list_to_map [("name", VStr "Test"); ("a", VNum 0);
                            ("b", VBool false); ("go", VCallable 7)] |}.

Definition obj : Parameterized :=
  object_of (Number (VNum 0) (VNum 10) None) (Boolean None).

Definition Column : pytype :=
  {| tname := "Column";
     ancestors := ["ListPanel"; "Panel"; "Reactive"; "Viewable";
                   "Layoutable"; "Parameterized"; "object"] |}.

(** The object of the scenario with [b] declared before [a]. *)
Definition obj_ba : Parameterized :=
  {| obj_name := "Test";
     params := [("name", String_ None); ("b", Boolean None);
                ("a", Number (VNum 0) (VNum 10) None)];
     values := list_to_map [("name", VStr "Test"); ("a", VNum 0);
                            ("b", VBool false)] |}.

(** The built-in class [object]. *)
Definition object_t : pytype := {| tname := "object"; ancestors := [] |}.

(** The keyword arguments of [Param(obj)], all at their defaults but
    for the expand layout. *)
Definition defaults (layout : layout_value) : init_params :=
  {| i_parameters := None; i_show_name := None;
     i_display_threshold := 0; i_default_precedence := 1 # 100000000;
     i_expand := false; i_expand_button := None;
     i_expand_layout := layout; i_default_layout := Column;
     i_show_labels := true; i_width := 300; i_widgets := None |}.

(** The pane of an object as [__init__] has it before it builds the
    widgets, with the given overrides. *)
Definition pane_of (o : Parameterized) (ws : option (gmap string override))
    : Param :=
  {| object := Some o; parameters := ["a"; "b"; "go"];
     display_threshold := 0; default_precedence := 1 # 100000000;
     expand := false; expand_button := None;
     expand_layout := LType Column; default_layout := Column;
     show_labels := true; show_name := true; width := 300;
     widgets := ws; _updating := false; _widgets := [];
     _widget_box := []; _expand_layout := ExpandBox; _expanded := [];
     _callbacks := []; registry := []; cells := ∅; next_watcher := 0;
     store := ∅; next_widget := 0; trace := [] |}.

(** The state a rebuild of the widgets leaves. *)
Definition rebuilt (s : Param) : Param :=
  from_option fst s (_update_widgets 3 [] s).

Definition blank : Param := pane_of obj None.

(** The pane [Param(obj)], built. *)
Definition built : Param := rebuilt blank.

(** [Param(obj)] when [b] has precedence -1, below the threshold 0. *)
Definition hidden : Param :=
  pane_of (object_of (Number (VNum 0) (VNum 10) None) (Boolean (Some (-1)%Q))) None.

(** [Param(obj, widgets={'a': {'type': TextInput}})]. *)
Definition typed : Param :=
  pane_of obj (Some {["a" := ODict {["type" := VWidgetClass TextInput]}]}).

(** [Param(obj, widgets={'a': {'type': LiteralInput}})]. *)
Definition typed_literal : Param :=
  pane_of obj (Some {["a" := ODict {["type" := VWidgetClass LiteralInput]}]}).

(** [Param(obj, widgets={'a': slider})] for a ready-made slider, the
    widget [inr 0]. *)
Definition ready_made : Param :=
  set_store {[(inr 0 : wid) :=
                {| w_class := FloatSlider;
                   w_attrs := list_to_map [("value", VNum 0); ("start", VNum 0);
                                           ("end", VNum 10)] |}]}
    (pane_of obj (Some {["a" := OVal (VWidgetInst FloatSlider 0)]})).

(** An object whose parameter [sub] holds a Parameterized object. *)
Definition Parameter_ : descriptor :=
  {| mro := [P_Parameter; P_object];
     precedence := None; constant := false; label := "Sub";
     get_range := None; get_soft_bounds := None;
     step := VNone; path := VNone;
     validate v := None |}.

Definition obj_sub : Parameterized :=
  {| obj_name := "Outer";
     params := [("name", String_ None); ("sub", Parameter_)];
     values := list_to_map [("name", VStr "Outer"); ("sub", VParameterized 5)] |}.

(** [Param(obj_sub)], as [__init__] has it before it builds the
    widgets. *)
Definition nested : Param :=
  set_parameters ["sub"] (pane_of obj_sub None).

(** [Param(obj, widgets={'a': {'start': 0, 'end': 10}})] when [a] has
    no soft bounds. *)
Definition open_bounds : Param :=
  pane_of (object_of (Number VNone VNone None) (Boolean None))
    (Some {["a" := ODict (<["start" := VNum 0]> {["end" := VNum 10]})]}).

(** A pane of a method: a pane of type [Markdown] that holds the
    object 1, and a new output of the same type and no links. *)
#[export] Instance panes_lib : ParamMethod.PaneLib := {|
  ParamMethod.Pane o kwargs :=
    {| ParamMethod.pane_type := ParamMethod.out_pane_type o;
       ParamMethod.pane_values := <["object" := ParamMethod.out_ref o]> kwargs |}
|}.

Definition method_pane : ParamMethod.state :=
  {| ParamMethod.own_values := {["object" := 0]};
     ParamMethod._kwargs := ∅;
     ParamMethod._pane := 0;
     ParamMethod._inner_layout := [0];
     ParamMethod.panes :=
       {[0 := {| ParamMethod.pane_type := "Markdown";
                 ParamMethod.pane_values :=
                   <["object" := 1]> (<["width" := 2]> {["name" := 3]}) |}]};
     ParamMethod.next_pane := 1;
     ParamMethod.pane_trace := [] |}.

Definition reactive_output : ParamMethod.output :=
  {| ParamMethod.out_ref := 9;
     ParamMethod.out_pane_type := "Markdown";
     ParamMethod.out_links := ParamMethod.Absent;
     ParamMethod.out_params := Some [("name", 5); ("object", 6); ("width", 2)] |}.

(** The slider of [a] in the built pane. *)
Definition slider_a : widget_state :=
  default {| w_class := FloatSlider; w_attrs := ∅ |} (store built !! (inl 1 : wid)).

End Example.

(** ** More panes of the scenario *)

Module Cases.
Import Example.

(** A pane without an object. *)
Definition no_object : Param := set_object None blank.

(** The built pane after [pane.object = obj_ba] was assigned and the
    watchers of the pane were called with the event. *)
Definition object_event : option (Param * outcome unit) :=
  _update_widgets 3 [EvObject (NewObject obj_ba)]
    (set_object (Some obj_ba) built).

(** [Param(obj.param.a)]. *)
Definition single : option (Param * outcome unit) :=
  __init__ 3 (InitParameter "a" (Some obj)) (defaults (LType Column)).

(** The widget of [a], built on the pane as [__init__] has it. *)
Definition widget_a : option (Param * outcome control) := widget "a" blank.

(** The built pane with the pane of the object 5 open after the name
    label. *)
Definition opened : Param :=
  set__widget_box [IControl (CWidget (inl 0)); IPane (IdObject 5);
                   IControl (CWidget (inl 1))] built.

(** An output of the type of the pane of [method_pane] with a parameter
    the pane has not. *)
Definition tall_output : ParamMethod.output :=
  {| ParamMethod.out_ref := 9;
     ParamMethod.out_pane_type := "Markdown";
     ParamMethod.out_links := ParamMethod.Absent;
     ParamMethod.out_params := Some [("object", 6); ("height", 4)] |}.

(** Files and JSON documents: one file that loads, one document that
    parses. *)
#[export] Instance json_lib : JSONInit.JSONLib := {|
  JSONInit.load f :=
    if String.eqb f "good.json" then Some (VDict [("a", VNum 5)]) else None;
  JSONInit.loads s :=
    if String.eqb s "spec"
    then Some (VDict [("a", VNum 5); ("b", VNum 3); ("zz", VNum 1)])
    else None
|}.

Definition from_env : JSONInit.JSONInit :=
  {| JSONInit.varname := "PARAM_JSON_INIT"; JSONInit.target := None;
     JSONInit.json_file := None |}.

Definition from_file (f : string) : JSONInit.JSONInit :=
  {| JSONInit.varname := "PARAM_JSON_INIT"; JSONInit.target := None;
     JSONInit.json_file := Some f |}.

Definition instance_of (o : Parameterized) : JSONInit.subject :=
  {| JSONInit.is_type := false; JSONInit.class_name := "Test";
     JSONInit.subject_object := o |}.

End Cases.

(** * Properties *)

(** ** The widget type resolver *)

Section ResolverFacts.
Import Resolver.

Lemma widget_type_loop_first mapping pobj pre t post e :
  Forall (λ u, mapping u = None) pre →
  mapping t = Some e →
  widget_type_loop mapping (pre ++ t :: post) pobj = Some (apply_entry e pobj).
Proof.
  intros Hpre Ht. induction Hpre as [|u pre Hu _ IH]; simpl.
  - by rewrite Ht.
  - by rewrite Hu.
Qed.

(** A list that holds a registered class splits at the first one. *)
Lemma first_registered (mapping : pclass → option entry) (ts : list pclass) t :
  t ∈ ts → is_Some (mapping t) →
  ∃ pre u post e, ts = pre ++ u :: post ∧
    Forall (λ v, mapping v = None) pre ∧ mapping u = Some e.
Proof.
  intros Hin [e He]. induction ts as [|v ts IH]; [by apply elem_of_nil in Hin|].
  destruct (mapping v) as [e'|] eqn:Hv.
  - exists [], v, ts, e'. by repeat split.
  - apply elem_of_cons in Hin as [->|Hin]; [congruence|].
    destruct (IH Hin) as (pre & u & post & e' & -> & Hpre & Hu).
    exists (v :: pre), u, post, e'. repeat split; [|done]. by constructor.
Qed.

(** C4. For a descriptor whose class descends from [param.Parameter],
    [widget_type] walks the classes of the descriptor from the most
    specific one, stops at the first class registered in [_mapping],
    returns the widget class registered for it, or what the registered
    function answers for the descriptor, and so never returns [None]. *)
Theorem widget_type_first_registered (pobj : descriptor) :
  P_Parameter ∈ mro pobj →
  ∃ pre t post e,
    mro pobj = pre ++ t :: post ∧
    Forall (λ u, _mapping u = None) pre ∧
    _mapping t = Some e ∧
    widget_type pobj = Some match e with
                            | Cls c => c
                            | Fn f => f pobj
                            end.
Proof.
  intros Hin.
  destruct (first_registered _mapping (mro pobj) P_Parameter Hin)
    as (pre & t & post & e & Hsplit & Hpre & Ht); [by eexists|].
  exists pre, t, post, e. repeat split; try done.
  unfold widget_type, widget_type_with. rewrite Hsplit.
  by rewrite (widget_type_loop_first _ _ _ _ _ e Hpre Ht); destruct e.
Qed.

Lemma widget_type_first_registered_witness :
  P_Parameter ∈ mro (Example.Number (VNum 0) (VNum 10) None) ∧
  ∃ pre t post e,
    mro (Example.Number (VNum 0) (VNum 10) None) = pre ++ t :: post ∧
    Forall (λ u, _mapping u = None) pre ∧
    _mapping t = Some e ∧
    widget_type (Example.Number (VNum 0) (VNum 10) None)
    = Some match e with
           | Cls c => c
           | Fn f => f (Example.Number (VNum 0) (VNum 10) None)
           end.
Proof.
  assert (Hin : P_Parameter ∈ mro (Example.Number (VNum 0) (VNum 10) None))
    by (apply (bool_decide_unpack _); vm_compute; exact I).
  split; [exact Hin|].
  exact (widget_type_first_registered _ Hin).
Defined.

(** The file selector is resolved by its function: a choice list when a
    path is configured, a text box otherwise. *)
Lemma widget_type_FileSelector pobj post :
  mro pobj = P_FileSelector :: post →
  widget_type pobj = Some (if truthy (path pobj) then Select else TextInput).
Proof. intros Hm. unfold widget_type, widget_type_with. by rewrite Hm. Qed.

End ResolverFacts.

(** ** Sorting and grouping *)

Section SortFacts.
Context {A : Type} (key : A → Q).

Let le (x y : A) : bool := Qle_bool (key x) (key y).
Let same (q : Q) (x : A) : Prop := Is_true (Qeq_bool (key x) q).

Lemma insert_sorted_perm x l : insert_sorted le x l ≡ₚ x :: l.
Proof.
  induction l as [|y l IH]; simpl; [done|].
  destruct (le x y); [done|]. rewrite IH. apply Permutation_swap.
Qed.

Lemma sorted_perm l : sorted le l ≡ₚ l.
Proof.
  induction l as [|x l IH]; simpl; [done|].
  by rewrite insert_sorted_perm, IH.
Qed.

Lemma insert_sorted_StronglySorted x l :
  StronglySorted (λ a b, (key a <= key b)%Q) l →
  StronglySorted (λ a b, (key a <= key b)%Q) (insert_sorted le x l).
Proof.
  induction 1 as [|y l Hl IH Hy]; simpl.
  - repeat constructor.
  - destruct (le x y) eqn:Hxy.
    + apply Qle_bool_iff in Hxy. constructor; [by constructor|].
      constructor; [done|].
      eapply Forall_impl; [exact Hy|]. intros z Hz. simpl in Hz.
      by eapply Qle_trans.
    + assert (key y <= key x)%Q as Hyx.
      { destruct (Qlt_le_dec (key y) (key x)) as [?|Hle]; [by apply Qlt_le_weak|].
        apply Qle_bool_iff in Hle. unfold le in Hxy. congruence. }
      constructor; [done|].
      rewrite insert_sorted_perm. by constructor.
Qed.

Lemma sorted_StronglySorted l :
  StronglySorted (λ a b, (key a <= key b)%Q) (sorted le l).
Proof.
  induction l as [|x l IH]; simpl; [constructor|].
  by apply insert_sorted_StronglySorted.
Qed.

(** Stability: an element goes before the elements of its own key. *)
Lemma insert_sorted_filter q x l :
  filter (same q) (insert_sorted le x l) = filter (same q) (x :: l).
Proof.
  induction l as [|y l IH]; simpl; [done|].
  destruct (le x y) eqn:Hxy; [done|].
  rewrite !filter_cons in *. rewrite IH.
  destruct (decide (same q x)) as [Hx|Hx]; [|done].
  destruct (decide (same q y)) as [Hy|Hy]; [|done].
  exfalso. unfold same in *.
  apply Is_true_true, Qeq_bool_iff in Hx. apply Is_true_true, Qeq_bool_iff in Hy.
  assert (Qle_bool (key x) (key y) = true) as Hle.
  { apply Qle_bool_iff. rewrite Hx, Hy. apply Qle_refl. }
  unfold le in Hxy. congruence.
Qed.

Lemma sorted_filter q l :
  filter (same q) (sorted le l) = filter (same q) l.
Proof.
  induction l as [|x l IH]; simpl; [done|].
  by rewrite insert_sorted_filter, !filter_cons, IH.
Qed.

Lemma groupby_from_concat tgt grp l :
  concat (groupby_from Qeq_bool key tgt grp l) = rev grp ++ l.
Proof.
  revert tgt grp. induction l as [|x l IH]; intros tgt grp; simpl.
  - by rewrite !app_nil_r.
  - destruct (Qeq_bool (key x) tgt); simpl; rewrite IH; simpl;
      by rewrite <- ?app_assoc.
Qed.

(** The groups of [groupby], put end to end, are the list. *)
Lemma groupby_concat l : concat (groupby Qeq_bool key l) = l.
Proof. destruct l as [|x l]; [done|]. simpl. by rewrite groupby_from_concat. Qed.

End SortFacts.

Section OrderFacts.
Context `{WidgetLib} `{Runtime}.


Lemma filter_filter_and {A} (P Q : A → Prop) `{∀ x, Decision (P x)}
    `{∀ x, Decision (Q x)} (l : list A) :
  filter P (filter Q l) = filter (λ x, P x ∧ Q x) l.
Proof.
  induction l as [|x l IH]; [done|].
  rewrite (filter_cons Q), (filter_cons (λ x, P x ∧ Q x)).
  destruct (decide (Q x)); [rewrite filter_cons|];
    destruct (decide (P x)); destruct (decide (P x ∧ Q x)); rewrite IH;
    naive_solver.
Qed.

Lemma filter_comm {A} (P Q : A → Prop) `{∀ x, Decision (P x)}
    `{∀ x, Decision (Q x)} (l : list A) :
  filter P (filter Q l) = filter Q (filter P l).
Proof.
  rewrite !filter_filter_and. apply list_filter_iff. naive_solver.
Qed.

(** With an ordered dictionary of parameters, [_ordered_params] is the
    stably sorted list without ['name']. *)
Lemma ordered_params_of_sorted obj whitelist dp :
  dict_ordered = true →
  ordered_params_of obj whitelist dp =
  fst <$> filter (λ el : string * descriptor, el.1 ≠ "name")
            (sorted (λ x y, Qle_bool (key_fn dp x) (key_fn dp y))
               (filter (λ x : string * descriptor,
                          x.1 ∈ whitelist ∨ x.1 = "name") (params obj))).
Proof.
  intros Hord. unfold ordered_params_of. rewrite Hord.
  by rewrite list_fmap_id, groupby_concat.
Qed.

End OrderFacts.

(** ** What the callbacks leave alone

    The watchers of value changes, and the parts of [Param.widget] after
    the choice of the class, write to the history, the watchers, the
    widgets, the guard, the values of the object and the nested panes of
    the layouts. They leave the rest of the pane as it is. *)



#[local] Instance frame_preorder : PreOrder frame.
Proof.
  split; [by constructor|]. intros s1 s2 s3 [] []. constructor; congruence.
Qed.

#[local] Instance config_preorder : PreOrder config.
Proof.
  split; [by constructor|]. intros s1 s2 s3 [] []. constructor; congruence.
Qed.

Lemma frame_config s s' : frame s s' → config s s'.
Proof. intros []. by constructor. Qed.


Lemma pres_weaken {A} (R R' : relation Param) (m : M Param A) :
  (∀ s s', R s s' → R' s s') → pres R m → pres R' m.
Proof. intros HR Hm s s' r Hs. eapply HR, Hm, Hs. Qed.

Section Rules.
Context (R : relation Param) `{!PreOrder R}.

Lemma pres_ret {A} (a : A) : pres R (mret a).
Proof. by intros s s' r [= <- _]. Qed.

Lemma pres_raise {A} (e : exn) : pres R (raise e : M Param A).
Proof. by intros s s' r [= <- _]. Qed.

Lemma pres_lift_opt {A} (e : exn) (o : option A) : pres R (lift_opt e o).
Proof. destruct o; [apply pres_ret | apply pres_raise]. Qed.

Lemma pres_get : pres R (get : M Param Param).
Proof. by intros s s' r [= <- _]. Qed.

Lemma pres_modify (f : Param → Param) :
  (∀ s, R s (f s)) → pres R (modify f).
Proof. intros Hf s s' r [= <- _]. apply Hf. Qed.

Lemma pres_bind {A B} (m : M Param A) (k : A → M Param B) :
  pres R m → (∀ a, pres R (k a)) → pres R (m ≫= k).
Proof.
  intros Hm Hk s s' r. unfold mbind, M_bind, bind.
  destruct (m s) as [[s1 [a|e]]|] eqn:Hms; [|intros [= <- _]; eauto|done].
  intros Hka. by etrans; [eapply Hm | eapply Hk].
Qed.

Lemma pres_bind_ret {A B} (a : A) (k : A → M Param B) :
  pres R (k a) → pres R (mret a ≫= k).
Proof. done. Qed.

Lemma pres_try_finally {A} (m : M Param A) (f : Param → Param) :
  pres R m → (∀ s, R s (f s)) → pres R (try_finally m f).
Proof.
  intros Hm Hf s s' r. unfold try_finally.
  destruct (m s) as [[s1 r1]|] eqn:Hms; [|done].
  intros [= <- _]. by etrans; [eapply Hm | apply Hf].
Qed.

Lemma pres_iterM {A} (f : A → M Param unit) (l : list A) :
  (∀ a, pres R (f a)) → pres R (iterM f l).
Proof.
  intros Hf. induction l as [|a l IH]; simpl; [apply pres_ret|].
  apply pres_bind; [apply Hf | by intros _].
Qed.

Lemma pres_mapM {A B} (f : A → M Param B) (l : list A) :
  (∀ a, pres R (f a)) → pres R (mapM f l).
Proof.
  intros Hf. induction l as [|a l IH]; simpl; [apply pres_ret|].
  apply pres_bind; [apply Hf | intros b].
  apply pres_bind; [apply IH | intros bs; apply pres_ret].
Qed.

Lemma pres_filterM {A} (f : A → M Param bool) (l : list A) :
  (∀ a, pres R (f a)) → pres R (filterM f l).
Proof.
  intros Hf. induction l as [|a l IH]; simpl; [apply pres_ret|].
  apply pres_bind; [apply Hf | intros b].
  apply pres_bind; [apply IH | intros bs; apply pres_ret].
Qed.

Lemma pres_anyM {A} (f : A → M Param bool) (l : list A) :
  (∀ a, pres R (f a)) → pres R (anyM f l).
Proof.
  intros Hf. induction l as [|a l IH]; simpl; [apply pres_ret|].
  apply pres_bind; [apply Hf | intros []; [apply pres_ret | apply IH]].
Qed.

End Rules.

(** The rules, applied as far as they go. *)
Ltac frame_step :=
  lazymatch goal with
  | |- pres _ (mret _) => apply pres_ret; tc_solve
  | |- pres _ (raise _) => apply pres_raise; tc_solve
  | |- pres _ (lift_opt _ _) => apply pres_lift_opt; tc_solve
  | |- pres _ get => apply pres_get; tc_solve
  | |- pres _ (modify _) =>
      apply pres_modify; intros ?; try by constructor
  | |- pres _ (try_finally _ _) =>
      apply pres_try_finally; [tc_solve| |intros ?; try by constructor]
  | |- pres _ (mret _ ≫= _) => apply pres_bind_ret
  | |- pres _ (_ ≫= _) => apply pres_bind; [tc_solve| |intros ?]
  | |- pres _ (iterM _ _) => apply pres_iterM; [tc_solve|intros ?]
  | |- pres _ (mapM _ _) => apply pres_mapM; [tc_solve|intros ?]
  | |- pres _ (filterM _ _) => apply pres_filterM; [tc_solve|intros ?]
  | |- pres _ (anyM _ _) => apply pres_anyM; [tc_solve|intros ?]
  | |- pres _ (if _ then _ else _) => case_match
  | |- pres _ (match _ with _ => _ end) => case_match
  | |- pres _ (let '(_, _) := ?x in _) => destruct x
  end.

Create HintDb frame.

Ltac frame_solve := repeat (frame_step; simpl); eauto with frame.

Section FrameFacts.
Context `{WidgetLib} `{Runtime}.


Lemma preserves_log w : preserves (log w).
Proof. unfold log. frame_solve. Qed.
#[local] Hint Resolve preserves_log : frame.

Lemma preserves_watch t name wh cb : preserves (watch t name wh cb).
Proof. unfold watch. frame_solve. Qed.
#[local] Hint Resolve preserves_watch : frame.

Lemma preserves_unwatch u : preserves (unwatch u).
Proof. unfold unwatch. frame_solve. Qed.
#[local] Hint Resolve preserves_unwatch : frame.

Lemma frame_store_value p v s : frame s (store_value p v s).
Proof.
  unfold store_value. destruct (object s) eqn:Ho; constructor; simpl;
    by rewrite ?Ho.
Qed.
#[local] Hint Resolve frame_store_value : frame.

Lemma preserves_object_set_param notify p v :
  framed notify → preserves (object_set_param notify p v).
Proof.
  intros Hn. unfold object_set_param.
  apply pres_bind; [tc_solve|apply preserves_log|intros _].
  frame_solve.
Qed.
#[local] Hint Resolve preserves_object_set_param : frame.

Lemma preserves_widget_store w kv : preserves (widget_store w kv).
Proof. unfold widget_store. frame_solve. Qed.
#[local] Hint Resolve preserves_widget_store : frame.

Lemma preserves_widget_set_param notify w updates :
  framed notify → preserves (widget_set_param notify w updates).
Proof.
  intros Hn. unfold widget_set_param.
  apply pres_bind; [tc_solve|apply preserves_log|intros _].
  frame_solve.
Qed.
#[local] Hint Resolve preserves_widget_set_param : frame.

Lemma preserves_link_widget notify p_name ch :
  framed notify → preserves (link_widget notify p_name ch).
Proof.
  intros Hn. unfold link_widget. frame_solve.
Qed.
#[local] Hint Resolve preserves_link_widget : frame.

Lemma preserves_action v : preserves (action v).
Proof. unfold action. frame_solve. Qed.
#[local] Hint Resolve preserves_action : frame.

Lemma preserves_the_descriptor p : preserves (the_descriptor p).
Proof. unfold the_descriptor. frame_solve. Qed.
#[local] Hint Resolve preserves_the_descriptor : frame.

Lemma preserves_link notify p_name w cell ch :
  framed notify → ch_what ch = "value" →
  preserves (link notify p_name w cell ch).
Proof.
  intros Hn Hch. unfold link. rewrite Hch. simpl.
  frame_solve.
Qed.
#[local] Hint Resolve preserves_link : frame.

Lemma controls_of_app l1 l2 :
  controls_of (l1 ++ l2) = controls_of l1 ++ controls_of l2.
Proof. apply omap_app. Qed.

Lemma controls_of_remove_pane id l :
  controls_of (remove_first (IPane id) l) = controls_of l.
Proof.
  induction l as [|it l IH]; [done|]. cbn [remove_first].
  destruct (decide (it = IPane id)) as [->|Hne]; [done|].
  unfold controls_of in *. destruct it; cbn; by rewrite IH.
Qed.

Lemma controls_of_replace_pane id id' l :
  controls_of (replace_first (IPane id) (IPane id') l) = controls_of l.
Proof.
  induction l as [|it l IH]; [done|]. cbn [replace_first].
  destruct (decide (it = IPane id)) as [->|Hne]; [done|].
  unfold controls_of in *. destruct it; cbn; by rewrite IH.
Qed.

Lemma frame_set_layout_objects (f : list item → list item) s :
  (∀ l, controls_of (f l) = controls_of l) →
  frame s (set_layout_objects (f (layout_objects s)) s).
Proof.
  intros Hf. unfold set_layout_objects, layout_objects.
  destruct (_expand_layout s) eqn:He; constructor; simpl; by rewrite ?He, ?Hf.
Qed.

Lemma panes_of_head v l it rest :
  panes_of v l = it :: rest → ∃ id, it = IPane id.
Proof.
  intros Hp. assert (it ∈ panes_of v l) as Hin by (rewrite Hp; left).
  apply list_elem_of_filter in Hin as [Hs _]. destruct it; [done|by eexists].
Qed.

Lemma preserves_toggle_pane p ch : preserves (toggle_pane p ch).
Proof.
  unfold toggle_pane. frame_solve.
  - apply (frame_set_layout_objects (λ l, l ++ [IPane _])).
    intros l. by rewrite controls_of_app, app_nil_r.
  - match goal with Hp : panes_of _ _ = _ |- _ =>
      apply panes_of_head in Hp as [id ->] end.
    apply (frame_set_layout_objects (remove_first (IPane id))).
    apply controls_of_remove_pane.
Qed.
#[local] Hint Resolve preserves_toggle_pane : frame.

Lemma preserves_update_pane notify p toggle ch :
  framed notify → preserves (update_pane notify p toggle ch).
Proof.
  intros Hn. unfold update_pane.
  apply pres_bind; [tc_solve|apply pres_get; tc_solve|intros s].
  apply pres_bind; [tc_solve| |].
  { destruct toggle; [by apply preserves_widget_set_param|apply pres_ret; tc_solve]. }
  intros _. destruct (panes_of _ _) as [|old rest] eqn:Hp; [apply pres_ret; tc_solve|].
  apply panes_of_head in Hp as [id ->].
  destruct (identity _); apply pres_modify; intros s0.
  - apply (frame_set_layout_objects (replace_first (IPane id) (IPane _))).
    apply controls_of_replace_pane.
  - apply (frame_set_layout_objects (remove_first (IPane id))).
    apply controls_of_remove_pane.
Qed.
#[local] Hint Resolve preserves_update_pane : frame.

Lemma preserves_run_callback notify cb ch :
  framed notify → ch_what ch = "value" →
  preserves (run_callback notify cb ch).
Proof.
  intros Hn Hch. destruct cb; simpl.
  - by apply preserves_link_widget.
  - apply preserves_action.
  - by apply preserves_link.
  - by apply preserves_update_pane.
  - apply preserves_toggle_pane.
Qed.
#[local] Hint Resolve preserves_run_callback : frame.

(** The delivery of a value change keeps the frame. *)
Lemma framed_fire fuel : framed (fire fuel).
Proof.
  induction fuel as [|fuel IH]; intros t name ch Hch; simpl; [done|].
  frame_solve.
Qed.
#[local] Hint Resolve framed_fire : frame.

(** *** The builder *)

Lemma preserves_issubclass sub c : preserves (issubclass sub c).
Proof. unfold issubclass. frame_solve. Qed.
#[local] Hint Resolve preserves_issubclass : frame.

Lemma preserves_param_names c : preserves (param_names c).
Proof. unfold param_names. frame_solve. Qed.
#[local] Hint Resolve preserves_param_names : frame.

Lemma preserves_choose_label c p_obj : preserves (choose_label c p_obj).
Proof. unfold choose_label. frame_solve. Qed.
#[local] Hint Resolve preserves_choose_label : frame.

Lemma preserves_with_bounds p_obj c kw : preserves (with_bounds p_obj c kw).
Proof. unfold with_bounds. frame_solve. Qed.
#[local] Hint Resolve preserves_with_bounds : frame.

Lemma preserves_construct c kwargs : preserves (construct c kwargs).
Proof. unfold construct. frame_solve. Qed.
#[local] Hint Resolve preserves_construct : frame.

Lemma preserves_link_up p_name p_obj v w kw :
  preserves (link_up p_name p_obj v w kw).
Proof. unfold link_up. frame_solve. Qed.
#[local] Hint Resolve preserves_link_up : frame.

Lemma preserves_iter_values v : preserves (iter_values v).
Proof. unfold iter_values. frame_solve. Qed.
#[local] Hint Resolve preserves_iter_values : frame.

Lemma preserves_widget_setattr w k v : preserves (widget_setattr w k v).
Proof. unfold widget_setattr. frame_solve. Qed.
#[local] Hint Resolve preserves_widget_setattr : frame.

Lemma preserves_with_toggle v w kwargs : preserves (with_toggle v w kwargs).
Proof. unfold with_toggle. frame_solve. Qed.
#[local] Hint Resolve preserves_with_toggle : frame.


Lemma widget_unfold p_name :
  widget p_name =
  (s ← get;
   obj ← lift_opt AttributeError (object s);
   p_obj ← lift_opt KeyError (param_lookup obj p_name);
   chosen ← choose_class p_name p_obj;
   widget_rest p_name p_obj obj chosen).
Proof. done. Qed.

Lemma preserves_widget_rest p_name p_obj obj chosen :
  preserves (widget_rest p_name p_obj obj chosen).
Proof. unfold widget_rest. destruct chosen. frame_solve. Qed.
#[local] Hint Resolve preserves_widget_rest : frame.

Lemma config_choose_class p_name p_obj : pres config (choose_class p_name p_obj).
Proof. unfold choose_class. frame_solve. Qed.

Lemma pres_config_of_frame {A} (m : M Param A) : preserves m → pres config m.
Proof. apply pres_weaken, frame_config. Qed.

Lemma config_widget p_name : pres config (widget p_name).
Proof.
  rewrite widget_unfold. frame_solve.
  - apply config_choose_class.
  - apply pres_config_of_frame. eauto with frame.
Qed.

(** *** The orchestrator *)

Lemma preserves__ordered_params : preserves _ordered_params.
Proof. unfold _ordered_params. frame_solve. Qed.
#[local] Hint Resolve preserves__ordered_params : frame.

Lemma preserves_shown p : preserves (shown p).
Proof. unfold shown. frame_solve. Qed.
#[local] Hint Resolve preserves_shown : frame.

Lemma config__get_widgets : pres config _get_widgets.
Proof.
  unfold _get_widgets. frame_solve;
    first [apply config_widget | apply pres_config_of_frame; eauto with frame].
Qed.

Lemma preserves_iter_elements v : preserves (iter_elements v).
Proof. unfold iter_elements. frame_solve. Qed.
#[local] Hint Resolve preserves_iter_elements : frame.

Lemma preserves_has_parameterized w : preserves (has_parameterized w).
Proof. unfold has_parameterized. frame_solve. Qed.
#[local] Hint Resolve preserves_has_parameterized : frame.

Lemma preserves_link_subobject notify pname c :
  framed notify → preserves (link_subobject notify pname c).
Proof. intros Hn. unfold link_subobject. frame_solve. Qed.
#[local] Hint Resolve preserves_link_subobject : frame.

Lemma preserves__link_subobjects notify :
  framed notify → preserves (_link_subobjects notify).
Proof. intros Hn. unfold _link_subobjects. frame_solve. Qed.
#[local] Hint Resolve preserves__link_subobjects : frame.

Lemma preserves_read_events es ps : preserves (read_events es ps).
Proof.
  revert ps. induction es as [|[[| |obj]|new|name] es IH]; intros ps; simpl;
    frame_solve.
Qed.
#[local] Hint Resolve preserves_read_events : frame.

Lemma preserves_teardown : preserves teardown.
Proof. unfold teardown. frame_solve. Qed.
#[local] Hint Resolve preserves_teardown : frame.

(** A rebuild with no event keeps the configuration of the pane. *)
Lemma config__update_widgets fuel : pres config (_update_widgets fuel []).
Proof.
  destruct fuel as [|fuel]; simpl; [done|].
  frame_solve;
    try match goal with
        | Hb : bool_decide _ = true |- _ =>
            by apply bool_decide_eq_true in Hb as [? _]
        end;
    first [apply config__get_widgets
          | apply pres_config_of_frame; eauto with frame].
Qed.

End FrameFacts.

(** ** The order of the parameters *)

Section OrderTheorems.
Context `{WidgetLib} `{Runtime}.

Lemma odict_set_fresh {V} k (v : V) d :
  k ∉ d.*1 → odict_set k v d = d ++ [(k, v)].
Proof.
  induction d as [|[k' v'] d IH]; simpl; [done|].
  intros Hk. apply not_elem_of_cons in Hk as [Hne Hk].
  rewrite bool_decide_false by done. by rewrite IH.
Qed.

Lemma OrderedDict_from {V} (acc l : list (string * V)) :
  NoDup ((acc ++ l).*1) →
  foldl (λ d kv, odict_set kv.1 kv.2 d) acc l = acc ++ l.
Proof.
  revert acc. induction l as [|[k v] l IH]; intros acc Hnd; simpl.
  - by rewrite app_nil_r.
  - rewrite odict_set_fresh.
    + rewrite IH; rewrite <- app_assoc; done.
    + rewrite fmap_app in Hnd. apply NoDup_app in Hnd as (_ & Hd & _).
      intros Hin. apply (Hd k Hin). simpl. left.
Qed.

(** An ordered dictionary made from pairs of distinct keys lists the
    pairs as they came. *)
Lemma OrderedDict_NoDup {V} (l : list (string * V)) :
  NoDup (l.*1) → OrderedDict l = l.
Proof. intros. unfold OrderedDict. by rewrite OrderedDict_from. Qed.

(** The keys of an ordered dictionary are distinct. *)
Lemma odict_set_keys {V} k (v : V) d :
  NoDup (d.*1) → NoDup ((odict_set k v d).*1) ∧
  ∀ k', k' ∈ (odict_set k v d).*1 ↔ k' = k ∨ k' ∈ d.*1.
Proof.
  induction d as [|[k0 v0] d IH]; simpl.
  - intros _. split; [repeat constructor; set_solver|]. set_solver.
  - intros Hnd. apply NoDup_cons in Hnd as [Hk0 Hnd].
    case_bool_decide as Hk; simpl.
    + subst k0. split; [by constructor|]. set_solver.
    + destruct (IH Hnd) as [Hnd' Hin]. split.
      * constructor; [|done]. rewrite Hin. naive_solver.
      * intros k'. rewrite !elem_of_cons, Hin. naive_solver.
Qed.

Lemma OrderedDict_keys_NoDup {V} (l : list (string * V)) :
  NoDup ((OrderedDict l).*1).
Proof.
  unfold OrderedDict.
  assert (NoDup (([] : list (string * V)).*1)) as Hacc by constructor.
  revert Hacc. generalize ([] : list (string * V)) as acc.
  induction l as [|[k v] l IH]; intros acc Hacc; simpl; [done|].
  apply IH. by apply odict_set_keys.
Qed.

Lemma mapM_names {B} (f : string → M Param B) names s s' built :
  mapM (λ pname, c ← f pname; mret (pname, c)) names s = Some (s', Ret built) →
  built.*1 = names.
Proof.
  revert s built. induction names as [|n names IH]; intros s built; simpl.
  - by intros [= _ <-].
  - unfold mbind, M_bind, bind, mret, M_ret, ret.
    destruct (f n s) as [[s1 [c|e]]|]; [|done..].
    match goal with
    | |- context [mapM ?g names s1] =>
        destruct (mapM g names s1) as [[s2 [bs|e]]|] eqn:Hm
    end; simpl; [|done..].
    intros [= <- <-]. simpl. f_equal. exact (IH _ _ Hm).
Qed.

Lemma listed_alt obj whitelist :
  filter (λ el : string * descriptor, el.1 ≠ "name")
    (filter (λ x : string * descriptor, x.1 ∈ whitelist ∨ x.1 = "name")
       (params obj))
  = listed obj whitelist.
Proof.
  unfold listed. rewrite filter_filter_and. apply list_filter_iff.
  naive_solver.
Qed.

Lemma filter_StronglySorted {A} (R : relation A) (P : A → Prop)
    `{∀ x, Decision (P x)} l :
  StronglySorted R l → StronglySorted R (filter P l).
Proof.
  induction 1 as [|x l Hl IH Hx]; [constructor|].
  rewrite filter_cons. destruct (decide (P x)); [|done].
  constructor; [done|]. rewrite Forall_forall in *.
  intros y Hy. apply Hx. by apply list_elem_of_filter in Hy as [_ ?].
Qed.


Lemma ordered_pairs_perm obj whitelist dp :
  ordered_pairs obj whitelist dp ≡ₚ listed obj whitelist.
Proof.
  unfold ordered_pairs. rewrite <- listed_alt.
  apply filter_Permutation, sorted_perm.
Qed.

Lemma ordered_pairs_sorted obj whitelist dp :
  StronglySorted (λ x y, (key_fn dp x <= key_fn dp y)%Q)
    (ordered_pairs obj whitelist dp).
Proof. apply filter_StronglySorted, (sorted_StronglySorted (key_fn dp)). Qed.

Lemma ordered_pairs_stable obj whitelist dp q :
  filter (λ x, Qeq_bool (key_fn dp x) q) (ordered_pairs obj whitelist dp)
  = filter (λ x, Qeq_bool (key_fn dp x) q) (listed obj whitelist).
Proof.
  unfold ordered_pairs. rewrite filter_comm.
  rewrite (sorted_filter (key_fn dp)). by rewrite filter_comm, listed_alt.
Qed.

Lemma listed_keys_NoDup obj whitelist :
  NoDup ((params obj).*1) → NoDup ((listed obj whitelist).*1).
Proof.
  intros Hnd. eapply sublist_NoDup; [exact Hnd|].
  apply fmap_sublist, sublist_filter.
Qed.

Lemma ordered_names_NoDup obj whitelist dp :
  NoDup ((params obj).*1) →
  NoDup ("name" :: (ordered_pairs obj whitelist dp).*1).
Proof.
  intros Hnd. constructor.
  - intros Hin. apply list_elem_of_fmap in Hin as ([k d] & Hk & Hin).
    apply list_elem_of_filter in Hin as [Hne _]. simpl in *. congruence.
  - rewrite ordered_pairs_perm. by apply listed_keys_NoDup.
Qed.

Lemma config_rebuilds fuel n s s' :
  rebuilds fuel n s = Some s' → config s s'.
Proof.
  revert s. induction n as [|n IH]; intros s; simpl.
  - by intros [= <-].
  - destruct (_update_widgets fuel [] s) as [[s1 r]|] eqn:Hu; [|done].
    intros Hr. etrans; [by eapply config__update_widgets | by apply IH].
Qed.

Lemma _ordered_params_config s s' :
  config s s' →
  ∀ names, _ordered_params s = Some (s, Ret names) →
           _ordered_params s' = Some (s', Ret names).
Proof.
  intros [Hp _ Hw _ Hd] names. unfold _ordered_params.
  unfold mbind, M_bind, bind, get, lift_opt, mret, M_ret, ret.
  destruct (object s) as [obj|], (object s') as [obj'|]; simplify_eq/=; try done.
  intros [= <-]. unfold ordered_params_of. by rewrite Hp, Hw, Hd.
Qed.

(** Inversion of a computation that returned. *)
Lemma bind_Ret_inv {S A B} (m : M S A) (k : A → M S B) s s' b :
  (m ≫= k) s = Some (s', Ret b) →
  ∃ s1 a, m s = Some (s1, Ret a) ∧ k a s1 = Some (s', Ret b).
Proof.
  unfold mbind, M_bind, bind.
  destruct (m s) as [[s1 [a|e]]|]; [|done..]. intros Hk. by exists s1, a.
Qed.

Lemma ordered_params_of_params obj obj' whitelist dp :
  params obj = params obj' →
  ordered_params_of obj whitelist dp = ordered_params_of obj' whitelist dp.
Proof. intros Hp. unfold ordered_params_of. by rewrite Hp. Qed.

(** The keys of the dictionary [_get_widgets] returns: the name label,
    when there is one, then the ordered parameters. *)
Lemma _get_widgets_keys s s' ws obj :
  object s = Some obj →
  NoDup ((params obj).*1) →
  dict_ordered = true →
  _get_widgets s = Some (s', Ret ws) →
  ws.*1 = (if negb (expand_layout_is_Tabs s) && show_name s
           then ["name"] else [])
          ++ ordered_params_of obj (parameters s) (default_precedence s).
Proof.
  intros Hobj Hnd Hord. unfold _get_widgets.
  intros (s0 & a & [= <- <-] & Hrest)%bind_Ret_inv.
  apply bind_Ret_inv in Hrest as (s1 & widgets & Hw & Hrest).
  apply bind_Ret_inv in Hrest as (s2 & names & Hn & Hrest).
  apply bind_Ret_inv in Hrest as (s3 & built & Hb & [= <- <-]).
  assert (config s s1 ∧
          widgets.*1 = if negb (expand_layout_is_Tabs s) && show_name s
                       then ["name"] else []) as [Hc Hkeys].
  { destruct (expand_layout_is_Tabs s); simpl in *.
    { by injection Hw as <- <-. }
    destruct (show_name s); simpl in *; [|by injection Hw as <- <-].
    split.
    - eapply (pres_config_of_frame
                (obj ← lift_opt AttributeError (object s);
                 let name := param_name (obj_name obj) in
                 '(w, _) ← construct (VWidgetClass StaticText)
                             {["value" := VStr ("<b>" +:+ name +:+ "</b>")]};
                 mret [("name", CWidget w)])); [|exact Hw].
      frame_solve.
    - apply bind_Ret_inv in Hw as (? & ? & _ & Hw).
      apply bind_Ret_inv in Hw as (? & [w c] & _ & [= _ <-]). done. }
  assert (names = ordered_params_of obj (parameters s) (default_precedence s)
          ∧ s2 = s1) as [-> ->].
  { destruct Hc as [Hp _ Hwl _ Hd]. unfold _ordered_params in Hn.
    apply bind_Ret_inv in Hn as (? & ? & [= <- <-] & Hn).
    rewrite Hobj in Hp. destruct (object s1) as [obj1|]; [|done].
    simpl in Hn. injection Hn as <- <-. injection Hp as Hp.
    by rewrite Hwl, Hd, (ordered_params_of_params _ _ _ _ Hp). }
  apply mapM_names in Hb.
  rewrite OrderedDict_NoDup; rewrite fmap_app, Hkeys, Hb; [done|].
  rewrite ordered_params_of_sorted by done.
  pose proof (ordered_names_NoDup obj (parameters s) (default_precedence s) Hnd)
    as Hnd'.
  destruct (negb _ && _); [done|]. by apply NoDup_cons in Hnd' as [_ ?].
Qed.

(** The order of [_ordered_params]: a permutation of the whitelisted
    parameters, sorted by precedence, stable within a precedence, kept
    by any rebuild that ends, and followed by [_get_widgets]. *)
Lemma ordered_params_order (s : Param) (obj : Parameterized) :
  dict_ordered = true →
  object s = Some obj →
  NoDup ((params obj).*1) →
  let key := key_fn (default_precedence s) in
  let declared := listed obj (parameters s) in
  ∃ out : list (string * descriptor),
    _ordered_params s = Some (s, Ret (out.*1)) ∧
    out ≡ₚ declared ∧
    StronglySorted (λ x y, (key x <= key y)%Q) out ∧
    (∀ q, filter (λ x, Qeq_bool (key x) q) out
          = filter (λ x, Qeq_bool (key x) q) declared) ∧
    (∀ fuel n s', rebuilds fuel n s = Some s' →
                  _ordered_params s' = Some (s', Ret (out.*1))) ∧
    (∀ s' ws, _get_widgets s = Some (s', Ret ws) →
              ws.*1 = (if negb (expand_layout_is_Tabs s) && show_name s
                       then ["name"] else []) ++ out.*1).
Proof.
  intros Hord Hobj Hnd key declared.
  exists (ordered_pairs obj (parameters s) (default_precedence s)).
  assert (_ordered_params s
          = Some (s, Ret ((ordered_pairs obj (parameters s)
                             (default_precedence s)).*1))) as Hop.
  { unfold _ordered_params, mbind, M_bind, bind, get. rewrite Hobj. simpl.
    by rewrite ordered_params_of_sorted. }
  split_and!.
  - done.
  - apply ordered_pairs_perm.
  - apply ordered_pairs_sorted.
  - apply ordered_pairs_stable.
  - intros fuel n s' Hr. eapply _ordered_params_config; [|done].
    by eapply config_rebuilds.
  - intros s' ws Hg. rewrite (_get_widgets_keys _ _ _ _ Hobj Hnd Hord Hg).
    by rewrite ordered_params_of_sorted.
Qed.

End OrderTheorems.

(** ** The visible controls *)

Section VisibleControls.
Context `{WidgetLib} `{Runtime}.

#[local] Hint Resolve framed_fire preserves__link_subobjects : frame.

Lemma is_shown_frame s s' p : frame s s' → is_shown s p = is_shown s' p.
Proof.
  intros [Hp _ _ Ht]. unfold is_shown, param_lookup. rewrite Ht.
  destruct (object s), (object s'); simplify_eq/=; try done.
  by match goal with Heq : params _ = params _ |- _ => rewrite Heq end.
Qed.

Lemma shown_is_shown p s s' b :
  shown p s = Some (s', Ret b) → s' = s ∧ b = is_shown s p.
Proof.
  unfold shown, is_shown.
  intros (? & ? & [= <- <-] & Hr)%bind_Ret_inv.
  apply bind_Ret_inv in Hr as (? & obj & Ho & Hr).
  apply bind_Ret_inv in Hr as (? & p_obj & Hl & Hr).
  destruct (object s); [|done]. injection Ho as <- <-.
  destruct (param_lookup _ p); [|done]. injection Hl as <- <-.
  by injection Hr as <- <-.
Qed.

Lemma filterM_shown (l : list (string * control)) s s' r :
  filterM (λ kv, shown kv.1) l s = Some (s', Ret r) →
  s' = s ∧ r = filter (λ kv, is_shown s kv.1) l.
Proof.
  revert s' r. induction l as [|kv l IH]; intros s' r; simpl.
  - by intros [= <- <-].
  - intros (s1 & b & [-> ->]%shown_is_shown & Hr)%bind_Ret_inv.
    apply bind_Ret_inv in Hr as (s2 & r' & [-> ->]%IH & [= <- <-]).
    split; [done|]. rewrite filter_cons.
    destruct (is_shown s kv.1); by rewrite decide_bool_decide.
Qed.

Lemma _get_widgets_NoDup s s' ws :
  _get_widgets s = Some (s', Ret ws) → NoDup (ws.*1).
Proof.
  unfold _get_widgets.
  intros (? & ? & _ & Hr)%bind_Ret_inv.
  apply bind_Ret_inv in Hr as (? & ? & _ & Hr).
  apply bind_Ret_inv in Hr as (? & ? & _ & Hr).
  apply bind_Ret_inv in Hr as (? & ? & _ & [= _ <-]).
  apply OrderedDict_keys_NoDup.
Qed.

Lemma controls_of_IControl (l : list (string * control)) :
  controls_of ((λ kv, IControl kv.2) <$> l) = l.*2.
Proof. induction l as [|kv l IH]; [done|]. unfold controls_of in *. cbn. by rewrite IH. Qed.

(** When [_update_widgets] returns, the controls of the widget box are
    the built widgets of the shown parameters, in the order of
    [self._widgets], whose keys are distinct. *)
Lemma update_widgets_box fuel events s s' :
  _update_widgets fuel events s = Some (s', Ret tt) →
  controls_of (_widget_box s')
  = (filter (λ kv, is_shown s' kv.1) (_widgets s')).*2 ∧
  NoDup ((_widgets s').*1).
Proof.
  revert events s. induction fuel as [|fuel IH]; intros events s; [done|].
  cbn [_update_widgets].
  intros (s1 & ps & _ & Hr)%bind_Ret_inv.
  apply bind_Ret_inv in Hr as (? & ? & [= <- <-] & Hr).
  case_bool_decide.
  { destruct ps as [ps|]; [|done].
    apply bind_Ret_inv in Hr as (s2 & [] & _ & Hr). by eapply IH. }
  apply bind_Ret_inv in Hr as (s2 & [] & _ & Hr).
  apply bind_Ret_inv in Hr as (s3 & [] & Hw & Hr).
  apply bind_Ret_inv in Hr as (? & ? & [= <- <-] & Hr).
  apply bind_Ret_inv in Hr as (? & shown_ & [-> ->]%filterM_shown & Hr).
  apply bind_Ret_inv in Hr as (s5 & [] & [= <-] & Hr).
  assert (NoDup ((_widgets s3).*1)) as Hnd.
  { destruct (object s1).
    - apply bind_Ret_inv in Hw as (? & ws & Hg & [= <-]). simpl.
      by eapply _get_widgets_NoDup.
    - injection Hw as <-. constructor. }
  set (s5 := set__widget_box _ s3) in Hr.
  assert (frame s5 s') as Hfr.
  { destruct (negb _); [|by injection Hr as <-].
    eapply preserves__link_subobjects, Hr. apply framed_fire. }
  rewrite <- (frame_controls _ _ Hfr), <- (frame__widgets _ _ Hfr).
  split; [|done].
  subst s5. cbn [_widget_box _widgets set__widget_box].
  rewrite controls_of_IControl. f_equal. apply list_filter_iff.
  intros kv. by rewrite <- (is_shown_frame _ _ _ Hfr).
Qed.

End VisibleControls.

(** ** The builder always ends

    [Param.widget] delivers no change to a watcher: it returns or
    raises, whatever the pane. *)


Lemma total_ret {A} (a : A) : total (mret a).
Proof. by eexists. Qed.

Lemma total_raise {A} (e : exn) : total (raise e : M Param A).
Proof. by eexists. Qed.

Lemma total_lift_opt {A} (e : exn) (o : option A) : total (lift_opt e o).
Proof. destruct o; [apply total_ret | apply total_raise]. Qed.

Lemma total_get : total (get : M Param Param).
Proof. by eexists. Qed.

Lemma total_modify (f : Param → Param) : total (modify f).
Proof. by eexists. Qed.

Lemma total_bind {A B} (m : M Param A) (k : A → M Param B) :
  total m → (∀ a, total (k a)) → total (m ≫= k).
Proof.
  intros Hm Hk s. unfold mbind, M_bind, bind.
  destruct (Hm s) as [[s1 [a|e]] ->]; [apply Hk | by eexists].
Qed.

Lemma total_mapM {A B} (f : A → M Param B) (l : list A) :
  (∀ a, total (f a)) → total (mapM f l).
Proof.
  intros Hf. induction l as [|a l IH]; simpl; [apply total_ret|].
  apply total_bind; [apply Hf | intros b].
  apply total_bind; [apply IH | intros bs; apply total_ret].
Qed.

Ltac total_step :=
  lazymatch goal with
  | |- total (mret _) => apply total_ret
  | |- total (raise _) => apply total_raise
  | |- total (lift_opt _ _) => apply total_lift_opt
  | |- total get => apply total_get
  | |- total (modify _) => apply total_modify
  | |- total (_ ≫= _) => apply total_bind; [|intros ?]
  | |- total (mapM _ _) => apply total_mapM; intros ?
  | |- total (if _ then _ else _) => case_match
  | |- total (match _ with _ => _ end) => case_match
  | |- total (let '(_, _) := ?x in _) => destruct x
  end.

Create HintDb total.

Ltac total_solve := repeat (total_step; simpl); eauto with total.

Section BuilderFacts.
Context `{WidgetLib} `{Runtime}.

Lemma total_watch t name wh cb : total (watch t name wh cb).
Proof. unfold watch. total_solve. Qed.
#[local] Hint Resolve total_watch : total.

Lemma total_issubclass sub c : total (issubclass sub c).
Proof. unfold issubclass. total_solve. Qed.
#[local] Hint Resolve total_issubclass : total.

Lemma total_widget_setattr w k v : total (widget_setattr w k v).
Proof. unfold widget_setattr. total_solve. Qed.
#[local] Hint Resolve total_widget_setattr : total.

Lemma total_widget_rest p_name p_obj obj chosen :
  total (widget_rest p_name p_obj obj chosen).
Proof.
  unfold widget_rest, choose_label, with_bounds, param_names, construct,
    link_up, with_toggle, iter_values.
  destruct chosen. total_solve.
Qed.

Lemma total_choose_class p_name p_obj : total (choose_class p_name p_obj).
Proof. unfold choose_class. total_solve. Qed.

Lemma total_widget p_name : total (widget p_name).
Proof.
  rewrite widget_unfold. total_solve;
    [apply total_choose_class | apply total_widget_rest].
Qed.

(** C10. When the override of a parameter in [self.widgets] is a
    dictionary with a ['type'], [Param.widget] takes the type as the
    widget class and leaves [self.widgets] with that dictionary less its
    ['type'], every other key and every other parameter as before; a
    later build of the parameter finds no ['type'] and takes the class
    the resolver gives. *)
Theorem widget_pops_type (p_name : string) (s : Param) (obj : Parameterized)
    (p_obj : descriptor) (ws : gmap string override)
    (d : gmap string value) (t : value) :
  object s = Some obj →
  param_lookup obj p_name = Some p_obj →
  widgets s = Some ws →
  ws !! p_name = Some (ODict d) →
  d !! "type" = Some t →
  choose_class p_name p_obj s
  = Some (set_widgets (Some (<[p_name := ODict (delete "type" d)]> ws)) s,
          Ret (t, delete "type" d)) ∧
  ∃ s' r,
    widget p_name s = Some (s', r) ∧
    widgets s' = Some (<[p_name := ODict (delete "type" d)]> ws) ∧
    choose_class p_name p_obj s'
    = Some (s', Ret (of_resolved (Resolver.widget_type p_obj),
                     delete "type" d)).
Proof.
  intros Hobj Hp Hws Hd Ht.
  assert (choose_class p_name p_obj s
          = Some (set_widgets (Some (<[p_name := ODict (delete "type" d)]> ws)) s,
                  Ret (t, delete "type" d))) as Hc.
  { unfold choose_class, mbind, M_bind, bind, get. by rewrite Hws, Hd, Ht. }
  split; [done|].
  set (s1 := set_widgets _ s) in Hc.
  destruct (total_widget_rest p_name p_obj obj (t, delete "type" d) s1)
    as [[s' r] Hr].
  exists s', r.
  assert (widgets s' = Some (<[p_name := ODict (delete "type" d)]> ws)) as Hw'.
  { by rewrite <- (frame_widgets _ _ (preserves_widget_rest _ _ _ _ _ _ _ Hr)). }
  split_and!.
  - rewrite widget_unfold. unfold mbind, M_bind, bind, get.
    rewrite Hobj. simpl. rewrite Hp. simpl. by rewrite Hc.
  - done.
  - unfold choose_class, mbind, M_bind, bind, get. rewrite Hw'.
    by rewrite lookup_insert_eq, lookup_delete_eq.
Qed.

End BuilderFacts.

(** ** Soft bounds *)

Section SoftBounds.
Context `{WidgetLib} `{Runtime}.

Ltac lookup_simpl :=
  repeat first [ rewrite lookup_insert_eq
               | rewrite lookup_insert_ne by congruence ].

(** C7, as the code has it. For a descriptor with soft bounds and a
    widget class [c], the block of [Param.widget] on the bounds returns,
    and: a bound that is not [None] becomes the keyword [start] or
    [end], a bound that is [None] leaves the keyword as the overrides
    of the caller had it; the class becomes [LiteralInput] when [start]
    or [end] is then missing from the keywords and [c] is not a subclass
    of [LiteralInput], and stays [c] otherwise; the step of the
    descriptor becomes the keyword [step] when the class so chosen has a
    [step] attribute and the step is not empty; no other keyword
    changes. *)
Theorem with_bounds_keywords (p_obj : descriptor) (c : wclass)
    (kw : gmap string value) (lo hi : value) (s : Param) :
  get_soft_bounds p_obj = Some (lo, hi) →
  ∃ c' kw',
    with_bounds p_obj (VWidgetClass c) kw s
    = Some (s, Ret (VWidgetClass c', kw')) ∧
    kw' !! "start" = (if is_None lo then kw !! "start" else Some lo) ∧
    kw' !! "end" = (if is_None hi then kw !! "end" else Some hi) ∧
    c' = (if bool_decide (kw' !! "start" = None ∨ kw' !! "end" = None)
             && negb (sub_LiteralInput c)
          then LiteralInput else c) ∧
    kw' !! "step" = (if has_step c' && truthy (step p_obj)
                     then Some (step p_obj) else kw !! "step") ∧
    ∀ k, k ≠ "start" → k ≠ "end" → k ≠ "step" → kw' !! k = kw !! k.
Proof.
  intros Hb. unfold with_bounds. rewrite Hb. cbn [fst snd].
  set (kw1 := if is_None lo then kw else <["start" := lo]> kw).
  set (kw2 := if is_None hi then kw1 else <["end" := hi]> kw1).
  set (c' := if bool_decide (kw2 !! "start" = None ∨ kw2 !! "end" = None)
                && negb (sub_LiteralInput c)
             then LiteralInput else c).
  set (kw3 := if has_step c' && truthy (step p_obj)
              then <["step" := step p_obj]> kw2 else kw2).
  assert (kw2 !! "start" = if is_None lo then kw !! "start" else Some lo) as H1.
  { subst kw2 kw1. destruct (is_None lo), (is_None hi);
      by lookup_simpl. }
  assert (kw2 !! "end" = if is_None hi then kw !! "end" else Some hi) as H2.
  { subst kw2 kw1. destruct (is_None lo), (is_None hi);
      by lookup_simpl. }
  assert (kw3 !! "start" = kw2 !! "start" ∧ kw3 !! "end" = kw2 !! "end")
    as [H3 H4].
  { subst kw3. destruct (has_step c' && truthy (step p_obj)); split;
      by lookup_simpl. }
  exists c', kw3. split_and!.
  - unfold mbind, M_bind, bind. subst c'.
    destruct (bool_decide (kw2 !! "start" = None ∨ kw2 !! "end" = None));
      simpl; [destruct (sub_LiteralInput c)|]; done.
  - by rewrite H3.
  - by rewrite H4.
  - by rewrite H3, H4.
  - subst kw3. destruct (has_step c' && truthy (step p_obj)); [by lookup_simpl|].
    subst kw2 kw1. destruct (is_None lo), (is_None hi); by lookup_simpl.
  - intros k ? ? ?. subst kw3 kw2 kw1.
    destruct (has_step c' && truthy (step p_obj)), (is_None lo), (is_None hi);
      by lookup_simpl.
Qed.

End SoftBounds.

(** ** Value propagation *)

Section Propagation.
Context `{WidgetLib} `{Runtime}.


Lemma bind_Ret {S A B} (m : M S A) (k : A → M S B) s s1 a :
  m s = Some (s1, Ret a) → (m ≫= k) s = k a s1.
Proof. intros Hm. unfold mbind, M_bind, bind. by rewrite Hm. Qed.

Lemma bind_Raise {S A B} (m : M S A) (k : A → M S B) s s1 e :
  m s = Some (s1, Raise e) → (m ≫= k) s = Some (s1, Raise e).
Proof. intros Hm. unfold mbind, M_bind, bind. by rewrite Hm. Qed.

Lemma the_descriptor_eq p_name s obj p_obj :
  object s = Some obj → param_lookup obj p_name = Some p_obj →
  the_descriptor p_name s = Some (s, Ret p_obj).
Proof.
  intros Ho Hp. unfold the_descriptor, mbind, M_bind, bind, get.
  rewrite Ho. cbn. by rewrite Hp.
Qed.

Lemma bind_ret_tt {S} (m : M S unit) s : (m ≫= λ _, mret tt) s = m s.
Proof.
  unfold mbind, M_bind, bind. by destruct (m s) as [[s' [[]|e]]|].
Qed.

Lemma fire_single fuel t name ch s wh wt :
  ch_what ch = wh →
  watchers_of t name wh (registry s) = [wt] →
  fire (S fuel) t name ch s = run_callback (fire fuel) (fn wt) ch s.
Proof.
  intros <- Hw. cbn [fire]. unfold mbind at 1, M_bind, bind, get.
  rewrite Hw. cbn [iterM]. apply bind_ret_tt.
Qed.

Lemma fire_S n t name ch s :
  fire (S n) t name ch s
  = iterM (λ w, run_callback (fire n) (fn w) ch)
          (watchers_of t name (ch_what ch) (registry s)) s.
Proof. done. Qed.

Lemma store_value_registry p v s : registry (store_value p v s) = registry s.
Proof. unfold store_value. by destruct (object s). Qed.

Lemma store_value__updating p v s : _updating (store_value p v s) = _updating s.
Proof. unfold store_value. by destruct (object s). Qed.

(** A value change that arrives while the guard is set is dropped. *)
Lemma link_guarded notify p_name w cell ch s :
  ch_what ch = "value" → _updating s = true →
  link notify p_name w cell ch s = Some (s, Ret tt).
Proof.
  intros Hch Hu. unfold link. rewrite Hch. simpl.
  unfold mbind, M_bind, bind, get. by rewrite Hu.
Qed.

Lemma link_widget_guarded notify p_name ch s :
  _updating s = true → link_widget notify p_name ch s = Some (s, Ret tt).
Proof.
  intros Hu. unfold link_widget, mbind, M_bind, bind, get. by rewrite Hu.
Qed.


Lemma object_set_param_accepted notify p_name v s obj p_obj :
  object s = Some obj →
  param_lookup obj p_name = Some p_obj →
  validate p_obj v = None →
  object_set_param notify p_name v s
  = (if is_equal (default VNone (values obj !! p_name)) v then mret tt
     else notify OnObject p_name
            {| ch_what := "value";
               ch_old := default VNone (values obj !! p_name);
               ch_new := v |})
      (object_written p_name v s).
Proof.
  intros Ho Hp Hv. unfold object_set_param, log, modify, get.
  unfold mbind, M_bind, bind. cbn. rewrite Ho. cbn. rewrite Hp. cbn.
  by rewrite Hv.
Qed.

Lemma object_set_param_refused notify p_name v s obj p_obj e :
  object s = Some obj →
  param_lookup obj p_name = Some p_obj →
  validate p_obj v = Some e →
  object_set_param notify p_name v s
  = Some (set_trace (trace s ++ [WObject p_name v]) s, Raise e).
Proof.
  intros Ho Hp Hv. unfold object_set_param, log, modify, get.
  unfold mbind, M_bind, bind. cbn. rewrite Ho. cbn. rewrite Hp. cbn.
  by rewrite Hv.
Qed.


(** [widget.set_param(k=v)] on a widget that has the parameter and
    takes the value. *)
Lemma widget_set_param_single notify w k v s ws :
  store s !! w = Some ws →
  k ∈ wparams (w_class ws) →
  w_validate (w_class ws) k v = None →
  widget_set_param notify w {[k := v]} s
  = (if is_equal (default VNone (w_attrs ws !! k)) v then mret tt
     else notify (OnWidget w) k
            {| ch_what := "value";
               ch_old := default VNone (w_attrs ws !! k);
               ch_new := v |})
      (attr_written w ws k v s).
Proof.
  intros Hs Hin Hv. unfold widget_set_param, log, modify, get.
  rewrite map_to_list_singleton. cbn [iterM].
  unfold widget_store, mbind, M_bind, bind, get, modify. cbn.
  rewrite Hs. cbn [lift_opt]. unfold ret, mret, M_ret, ret.
  cbn beta iota. cbn [store set_trace]. rewrite Hs.
  cbn [lift_opt]. unfold ret. cbn beta iota.
  rewrite bool_decide_true by done. rewrite Hv.
  unfold attr_written.
  destruct (is_equal _ v); [done|].
  by destruct (notify _ _ _ _) as [[? [[]|?]]|].
Qed.

Lemma takes_inv s w k v :
  takes s w k v = true →
  ∃ ws, store s !! w = Some ws ∧ k ∈ wparams (w_class ws) ∧
        w_validate (w_class ws) k v = None.
Proof.
  unfold takes. destruct (store s !! w) as [ws|]; [|done].
  intros [Hin Hv]%andb_true_iff. exists ws. split; [done|].
  split; [by apply bool_decide_eq_true in Hin|].
  by destruct (w_validate _ k v).
Qed.

(** [link_widget] when the descriptor refuses the value: the guard is
    released and the exception goes on. *)
Lemma link_widget_refused notify p_name ch s obj p_obj e :
  _updating s = false →
  object s = Some obj →
  param_lookup obj p_name = Some p_obj →
  validate p_obj (ch_new ch) = Some e →
  link_widget notify p_name ch s
  = Some (set__updating false
            (set_trace (trace s ++ [WObject p_name (ch_new ch)])
               (set__updating true s)),
          Raise e).
Proof.
  intros Hu Ho Hp Hv.
  unfold link_widget, mbind at 1, M_bind, bind, get. rewrite Hu.
  unfold try_finally, mbind, M_bind, bind, modify.
  by rewrite (object_set_param_refused _ _ _ (set__updating true s) obj p_obj e
                Ho Hp Hv).
Qed.

Lemma store_value_trace p v s : trace (store_value p v s) = trace s.
Proof. unfold store_value. by destruct (object s). Qed.

Lemma store_value_store p v s : store (store_value p v s) = store s.
Proof. unfold store_value. by destruct (object s). Qed.

Lemma store_value_object p v s obj :
  object s = Some obj →
  ∃ obj', object (store_value p v s) = Some obj' ∧ values obj' !! p = Some v
          ∧ params obj' = params obj.
Proof.
  intros Ho. unfold store_value. rewrite Ho. eexists. split; [done|].
  split; [apply lookup_insert_eq|done].
Qed.

(** *** What a delivery leaves *)

Lemma object_writes_app l1 l2 :
  object_writes (l1 ++ l2) = object_writes l1 ++ object_writes l2.
Proof. apply omap_app. Qed.

Lemma value_writes_app l1 l2 :
  value_writes (l1 ++ l2) = value_writes l1 ++ value_writes l2.
Proof. apply omap_app. Qed.

Lemma effect_refl V s : effect V [] s s.
Proof.
  constructor; try done.
  - intros w ws Hw. exists ws. by rewrite bool_decide_false by apply not_elem_of_nil.
  - exists []. by rewrite app_nil_r.
Qed.

Lemma effect_trans V l1 l2 s1 s2 s3 :
  effect V l1 s1 s2 → effect V l2 s2 s3 → effect V (l1 ++ l2) s1 s3.
Proof.
  intros [Hr1 Hu1 Ho1 Hs1 (n1 & Ht1 & Hw1 & Hv1)]
         [Hr2 Hu2 Ho2 Hs2 (n2 & Ht2 & Hw2 & Hv2)].
  constructor; try congruence.
  - intros w ws Hw.
    destruct (Hs1 w ws Hw) as (ws1 & Hw' & Hc1 & Ha1).
    destruct (Hs2 w ws1 Hw') as (ws2 & Hw'' & Hc2 & Ha2).
    exists ws2. split; [done|]. split; [congruence|].
    rewrite Ha2, Ha1.
    repeat case_bool_decide; try done; set_solver.
  - exists (n1 ++ n2). rewrite Ht2, Ht1, app_assoc.
    rewrite object_writes_app, value_writes_app, Hw1, Hw2, Hv1, Hv2.
    by rewrite fmap_app.
Qed.

(** A change of the layouts is no write. *)
Lemma effect_layout V l s : effect V [] s (set_layout_objects l s).
Proof.
  unfold set_layout_objects.
  destruct (_expand_layout s); apply effect_refl || (constructor; try done).
  all: first [ by intros w ws Hw; exists ws;
                 rewrite bool_decide_false by apply not_elem_of_nil
             | by exists []; rewrite app_nil_r ].
Qed.

(** A write of another parameter than the value. *)
Lemma effect_attr V w ws k v s :
  store s !! w = Some ws → k ≠ "value" →
  effect V [] s (attr_written w ws k v s).
Proof.
  intros Hw Hk. constructor; try done.
  - intros w' ws' Hw'. cbn.
    rewrite bool_decide_false by apply not_elem_of_nil.
    destruct (decide (w' = w)) as [->|Hne].
    + rewrite lookup_insert_eq. eexists. split; [done|].
      simplify_eq. split; [done|]. cbn. by rewrite lookup_insert_ne.
    + rewrite lookup_insert_ne by done. by exists ws'.
  - eexists [_]. split; [done|]. split; [done|]. cbn.
    by rewrite lookup_singleton_ne.
Qed.

(** The write of the value. *)
Lemma effect_value V w ws s :
  store s !! w = Some ws →
  effect V [w] s (attr_written w ws "value" V s).
Proof.
  intros Hw. constructor; try done.
  - intros w' ws' Hw'. cbn.
    destruct (decide (w' = w)) as [->|Hne].
    + rewrite lookup_insert_eq. eexists. split; [done|].
      simplify_eq. split; [done|]. cbn.
      rewrite bool_decide_true by apply list_elem_of_singleton, eq_refl.
      by rewrite lookup_insert_eq.
    + rewrite lookup_insert_ne by done. exists ws'.
      rewrite bool_decide_false; [done|].
      by intros ?%list_elem_of_singleton.
  - eexists [_]. split; [done|]. split; [done|]. cbn.
    by rewrite lookup_singleton_eq.
Qed.

(** A delivery under the guard, seen from the pane whose guard is
    free. *)
Lemma effect_guarded V l s s' :
  _updating s = false →
  effect V l (set__updating true s) s' →
  effect V l s (set__updating false s').
Proof.
  intros Hu [Hr _ Ho Hs Ht]. by constructor.
Qed.

(** What the closures are allowed rests on the watchers and on the
    classes of the widgets, which a delivery keeps. *)
Lemma takes_effect V l s s' w k v :
  effect V l s s' → takes s w k v = true → takes s' w k v = true.
Proof.
  intros He Ht. unfold takes in *.
  destruct (store s !! w) as [ws|] eqn:Hw; [|done].
  destruct (effect_store _ _ _ _ He w ws Hw) as (ws' & -> & -> & _). done.
Qed.

Lemma subobject_closure_effect V l s s' x :
  effect V l s s' →
  subobject_closure s V x = true → subobject_closure s' V x = true.
Proof.
  intros He. unfold subobject_closure.
  destruct (fn x) as [| | |p [t|]|]; try done.
  rewrite (effect_registry _ _ _ _ He).
  intros [Ht ->]%andb_true_iff. by rewrite (takes_effect _ _ _ _ _ _ _ He Ht).
Qed.

Lemma widget_closure_effect V l s s' x :
  effect V l s s' →
  widget_closure s V x = true → widget_closure s' V x = true.
Proof.
  intros He. unfold widget_closure.
  destruct (fn x) eqn:Hfn; try done;
    apply (subobject_closure_effect _ _ _ _ _ He).
Qed.

Lemma forallb_impl {A} (f g : A → bool) (l : list A) :
  (∀ x, f x = true → g x = true) → forallb f l = true → forallb g l = true.
Proof.
  intros Hfg. induction l as [|x l IH]; [done|]. cbn.
  intros [Hx Hl]%andb_true_iff. by rewrite (Hfg x Hx), IH.
Qed.

Lemma link_closure_effect V l s s' p x :
  effect V l s s' →
  link_closure s p V x = true → link_closure s' p V x = true.
Proof.
  intros He. unfold link_closure.
  destruct (fn x) as [| |p' w c| |]; try done.
  rewrite (effect_registry _ _ _ _ He).
  intros [[-> Ht]%andb_true_iff Hall]%andb_true_iff.
  rewrite (takes_effect _ _ _ _ _ _ _ He Ht). cbn.
  eapply forallb_impl; [|exact Hall].
  intros y. apply (widget_closure_effect _ _ _ _ _ He).
Qed.

(** *** The closures, one by one *)

(** [update_pane], the closure of [_link_subobjects]: it sets
    [disabled] on its toggle and moves the nested panes. *)
Lemma update_pane_effect n p tg ch s x :
  fn x = update_pane_cb p tg →
  subobject_closure s (ch_new ch) x = true →
  ∃ s', update_pane (fire (S n)) p tg ch s = Some (s', Ret tt) ∧
        effect (ch_new ch) [] s s'.
Proof.
  intros Hfn Hc. unfold subobject_closure in Hc. rewrite Hfn in Hc.
  unfold update_pane. rewrite (bind_Ret get _ s s s) by done.
  assert (∃ s1, (match tg with
                 | Some t =>
                     widget_set_param (fire (S n)) t
                       {["disabled" :=
                           VBool (negb (is_parameterized (ch_new ch)))]}
                 | None => mret tt
                 end) s = Some (s1, Ret tt)
                ∧ effect (ch_new ch) [] s s1) as (s1 & Hw & He1).
  { destruct tg as [t|]; [|exists s; split; [done|apply effect_refl]].
    apply andb_true_iff in Hc as [Ht Hnone].
    apply takes_inv in Ht as (ts & Hts & Hin & Hv).
    rewrite (widget_set_param_single _ _ _ _ _ ts Hts Hin Hv).
    exists (attr_written t ts "disabled"
              (VBool (negb (is_parameterized (ch_new ch)))) s).
    split; [|by apply effect_attr].
    destruct (is_equal _ _); [done|].
    cbn [fire]. rewrite (bind_Ret get _ _ _ _) by done. cbn [ch_what].
    change (registry (attr_written _ _ _ _ s)) with (registry s).
    by destruct (watchers_of _ _ _ _). }
  rewrite (bind_Ret _ _ _ _ _ Hw).
  destruct (panes_of _ _) as [|old_panel rest]; [by exists s1|].
  destruct (identity (ch_new ch)); eexists; (split; [reflexivity|]);
    (eapply (effect_trans _ [] []); [exact He1|apply effect_layout]).
Qed.

(** The closures of [_link_subobjects] on a widget, called in turn. *)
Lemma subobject_closures_effect n ch rest s :
  forallb (subobject_closure s (ch_new ch)) rest = true →
  ∃ s', iterM (λ x, run_callback (fire (S n)) (fn x) ch) rest s
        = Some (s', Ret tt) ∧
        effect (ch_new ch) [] s s'.
Proof.
  revert s. induction rest as [|x rest IH]; intros s Hall.
  { exists s. split; [done|apply effect_refl]. }
  cbn in Hall. apply andb_true_iff in Hall as [Hx Hall].
  assert (∃ p tg, fn x = update_pane_cb p tg) as (p & tg & Hfn).
  { unfold subobject_closure in Hx. destruct (fn x); try done. by eexists _, _. }
  destruct (update_pane_effect n p tg ch s x Hfn Hx) as (s1 & Hr & He1).
  destruct (IH s1) as (s' & Hr' & He').
  { eapply forallb_impl; [|exact Hall].
    intros y. apply (subobject_closure_effect _ _ _ _ _ He1). }
  exists s'. split; [|by apply (effect_trans _ [] [] s s1 s')].
  cbn [iterM]. rewrite Hfn. cbn [run_callback].
  by rewrite (bind_Ret _ _ _ _ _ Hr).
Qed.

(** Under the guard the watchers of the value of a widget write
    nothing back: [link_widget] returns at once. *)
Lemma widget_closures_guarded n ch l s :
  _updating s = true →
  forallb (widget_closure s (ch_new ch)) l = true →
  ∃ s', iterM (λ x, run_callback (fire (S n)) (fn x) ch) l s
        = Some (s', Ret tt) ∧
        effect (ch_new ch) [] s s'.
Proof.
  revert s. induction l as [|x l IH]; intros s Hu Hall.
  { exists s. split; [done|apply effect_refl]. }
  cbn in Hall. apply andb_true_iff in Hall as [Hx Hall].
  assert (∃ s1, run_callback (fire (S n)) (fn x) ch s = Some (s1, Ret tt)
                ∧ effect (ch_new ch) [] s s1) as (s1 & Hr & He1).
  { unfold widget_closure in Hx. destruct (fn x) as [p| | |p tg|] eqn:Hfn.
    - exists s. split; [by apply link_widget_guarded|apply effect_refl].
    - by unfold subobject_closure in Hx; rewrite Hfn in Hx.
    - by unfold subobject_closure in Hx; rewrite Hfn in Hx.
    - by apply (update_pane_effect n p tg ch s x).
    - by unfold subobject_closure in Hx; rewrite Hfn in Hx. }
  destruct (IH s1) as (s' & Hr' & He').
  { by rewrite (effect_updating _ _ _ _ He1). }
  { eapply forallb_impl; [|exact Hall].
    intros y. apply (widget_closure_effect _ _ _ _ _ He1). }
  exists s'. split; [|by apply (effect_trans _ [] [] s s1 s')].
  cbn [iterM]. by rewrite (bind_Ret _ _ _ _ _ Hr).
Qed.

(** Under the guard the closures [link] of the object write nothing:
    a change of value of the parameter goes to no widget. *)
Lemma links_guarded n t name ch s :
  ch_what ch = "value" →
  _updating s = true →
  forallb is_link (watchers_of t name "value" (registry s)) = true →
  fire (S n) t name ch s = Some (s, Ret tt).
Proof.
  intros Hch Hu Hall. cbn [fire]. rewrite (bind_Ret get _ s s s) by done.
  rewrite Hch.
  induction (watchers_of t name "value" (registry s)) as [|x l IH]; [done|].
  cbn in Hall. apply andb_true_iff in Hall as [Hx Hall].
  cbn [iterM]. unfold is_link in Hx. destruct (fn x) as [| |p w c| |]; try done.
  cbn [run_callback]. rewrite (bind_Ret _ _ s s tt); [by apply IH|].
  by apply link_guarded.
Qed.

(** A closure [link] on a change of value, the guard free: it sets the
    value of its widget, once, under the guard, and the watchers of the
    widget write nothing back. *)
Lemma link_effect n p w cell ch s obj p_obj x :
  fn x = link_cb p w cell →
  ch_what ch = "value" →
  _updating s = false →
  object s = Some obj →
  param_lookup obj p = Some p_obj →
  isinstance_p P_Action p_obj = false →
  link_closure s p (ch_new ch) x = true →
  ∃ s', link (fire (S (S n))) p w cell ch s = Some (s', Ret tt) ∧
        effect (ch_new ch) [w] s s'.
Proof.
  intros Hfn Hch Hu Ho Hp Ha Hc.
  unfold link_closure in Hc. rewrite Hfn in Hc.
  apply andb_true_iff in Hc as [[_ Ht]%andb_true_iff Hall].
  apply takes_inv in Ht as (ws & Hws & Hin & Hv).
  set (s1 := attr_written w ws "value" (ch_new ch) (set__updating true s)).
  assert (effect (ch_new ch) [w] (set__updating true s) s1) as He1
    by by apply effect_value.
  assert (∃ s2, widget_set_param (fire (S (S n))) w {["value" := ch_new ch]}
                  (set__updating true s) = Some (s2, Ret tt)
                ∧ effect (ch_new ch) [w] (set__updating true s) s2)
    as (s2 & Hw & He2).
  { rewrite (widget_set_param_single _ w "value" (ch_new ch)
               (set__updating true s) ws Hws Hin Hv). fold s1.
    destruct (is_equal _ _); [by exists s1|].
    cbn [fire]. rewrite (bind_Ret get _ s1 s1 s1) by done. cbn [ch_what].
    destruct (widget_closures_guarded n
                {| ch_what := "value";
                   ch_old := default VNone (w_attrs ws !! "value");
                   ch_new := ch_new ch |}
                (watchers_of (OnWidget w) "value" "value" (registry s1)) s1)
      as (s2 & Hr & He).
    - done.
    - cbn [ch_new]. eapply forallb_impl; [|exact Hall].
      intros y Hy.
      apply (widget_closure_effect _ _ (set__updating true s) s1 _ He1).
      revert Hy. unfold widget_closure, subobject_closure, takes. done.
    - exists s2. split; [done|].
      by apply (effect_trans _ [w] [] _ s1 s2). }
  exists (set__updating false s2). split; [|by apply effect_guarded].
  unfold link. rewrite Hch. cbn [bool_decide decide_rel].
  repeat (rewrite bool_decide_false by done).
  rewrite (bind_Ret get _ s s s) by done. rewrite Hu.
  rewrite (bind_Ret _ _ _ _ _ (the_descriptor_eq _ _ _ _ Ho Hp)). rewrite Ha.
  unfold try_finally.
  rewrite (bind_Ret (modify _) _ s (set__updating true s) tt) by done.
  by rewrite Hw.
Qed.

(** The closures [link] of a parameter, those of earlier builds with
    them, called in turn: each sets the value of its widget, once. *)
Lemma links_effect n p ch l s obj p_obj :
  ch_what ch = "value" →
  _updating s = false →
  object s = Some obj →
  param_lookup obj p = Some p_obj →
  isinstance_p P_Action p_obj = false →
  forallb (link_closure s p (ch_new ch)) l = true →
  ∃ s', iterM (λ x, run_callback (fire (S (S n))) (fn x) ch) l s
        = Some (s', Ret tt) ∧
        effect (ch_new ch) (omap linked_widget l) s s'.
Proof.
  intros Hch. revert s. induction l as [|x l IH]; intros s Hu Ho Hp Ha Hall.
  { exists s. split; [done|apply effect_refl]. }
  cbn in Hall. apply andb_true_iff in Hall as [Hx Hall].
  assert (∃ w cell, fn x = link_cb p w cell) as (w & cell & Hfn).
  { unfold link_closure in Hx. destruct (fn x) as [| |p' w c| |]; try done.
    apply andb_true_iff in Hx as [[->%bool_decide_eq_true _]%andb_true_iff _].
    by eexists _, _. }
  destruct (link_effect n p w cell ch s obj p_obj x Hfn Hch Hu Ho Hp Ha Hx)
    as (s1 & Hr & He1).
  destruct (IH s1) as (s' & Hr' & He').
  { by rewrite (effect_updating _ _ _ _ He1). }
  { by rewrite (effect_object _ _ _ _ He1). }
  { done. }
  { done. }
  { eapply forallb_impl; [|exact Hall].
    intros y. apply (link_closure_effect _ _ _ _ _ _ He1). }
  exists s'. split.
  - cbn [iterM]. rewrite Hfn. cbn [run_callback].
    by rewrite (bind_Ret _ _ _ _ _ Hr).
  - assert (omap linked_widget (x :: l) = w :: omap linked_widget l) as ->.
    { cbn. unfold linked_widget at 1. by rewrite Hfn. }
    by apply (effect_trans _ [w] _ s s1 s').
Qed.

(** The closure [link_widget], the guard free and the value taken:
    one write to the object, under the guard, and the closures [link]
    of the object write nothing. *)
Lemma link_widget_accepted n p ch s obj p_obj :
  _updating s = false →
  object s = Some obj →
  param_lookup obj p = Some p_obj →
  validate p_obj (ch_new ch) = None →
  forallb is_link (watchers_of OnObject p "value" (registry s)) = true →
  link_widget (fire (S (S n))) p ch s
  = Some (set__updating false
            (object_written p (ch_new ch) (set__updating true s)), Ret tt).
Proof.
  intros Hu Ho Hp Hv Hlinks.
  unfold link_widget. rewrite (bind_Ret get _ s s s) by done. rewrite Hu.
  unfold try_finally.
  rewrite (bind_Ret (modify _) _ s (set__updating true s) tt) by done.
  rewrite (object_set_param_accepted _ _ _ (set__updating true s) obj p_obj
             Ho Hp Hv).
  destruct (is_equal (default VNone (values obj !! p)) (ch_new ch)); [done|].
  rewrite links_guarded; [done|done| |].
  - unfold object_written. by rewrite store_value__updating.
  - unfold object_written. by rewrite store_value_registry.
Qed.

(** The watchers of the value of a widget, called in turn with the
    guard free: each closure [link_widget] sets the parameter, once,
    and nothing is written to a widget. *)
Lemma value_closures_run n p ch l s obj p_obj :
  ch_what ch = "value" →
  _updating s = false →
  object s = Some obj →
  param_lookup obj p = Some p_obj →
  validate p_obj (ch_new ch) = None →
  forallb is_link (watchers_of OnObject p "value" (registry s)) = true →
  forallb (value_closure s p (ch_new ch)) l = true →
  ∃ s' new obj',
    iterM (λ x, run_callback (fire (S (S n))) (fn x) ch) l s
    = Some (s', Ret tt) ∧
    registry s' = registry s ∧ _updating s' = false ∧
    object s' = Some obj' ∧ params obj' = params obj ∧
    values obj' = (if existsb is_link_widget l
                   then <[p := ch_new ch]> (values obj) else values obj) ∧
    (∀ w ws, store s !! w = Some ws →
       ∃ ws', store s' !! w = Some ws' ∧ w_class ws' = w_class ws ∧
              w_attrs ws' !! "value" = w_attrs ws !! "value") ∧
    trace s' = trace s ++ new ∧
    object_writes new = (λ _, (p, ch_new ch)) <$> filter is_link_widget l ∧
    value_writes new = [].
Proof.
  intros Hch. revert s obj.
  induction l as [|x l IH]; intros s obj Hu Ho Hp Hv Hlinks Hall.
  { exists s, [], obj. rewrite app_nil_r. split_and!; try done.
    intros w ws Hw. by exists ws. }
  cbn in Hall. apply andb_true_iff in Hall as [Hx Hall].
  unfold value_closure in Hx.
  destruct (fn x) as [p'| | |p' tg|] eqn:Hfn;
    try (by unfold subobject_closure in Hx; rewrite Hfn in Hx).
  - (* a closure [link_widget] *)
    apply bool_decide_eq_true in Hx as ->.
    set (s1 := set__updating false
                 (object_written p (ch_new ch) (set__updating true s))).
    destruct (store_value_object p (ch_new ch)
                (set_trace (trace (set__updating true s)
                              ++ [WObject p (ch_new ch)])
                   (set__updating true s)) obj Ho)
      as (obj1 & Ho1 & Hval1 & Hpar1).
    assert (values obj1 = <[p := ch_new ch]> (values obj)) as Hvals1.
    { unfold store_value in Ho1. cbn [object set_trace set__updating] in Ho1.
      rewrite Ho in Ho1. by injection Ho1 as <-. }
    assert (registry s1 = registry s) as Hr1
      by (unfold s1, object_written; cbn [registry set__updating];
          by rewrite store_value_registry).
    assert (store s1 = store s) as Hst1
      by (unfold s1, object_written; cbn [store set__updating];
          by rewrite store_value_store).
    destruct (IH s1 obj1) as (s' & new & obj' & Hrun & Hr & Hu' & Ho' & Hpar'
                              & Hvals' & Hstore & Htr & How & Hvw).
    { done. }
    { exact Ho1. }
    { unfold param_lookup. rewrite Hpar1. exact Hp. }
    { done. }
    { by rewrite Hr1. }
    { eapply forallb_impl; [|exact Hall]. intros y.
      unfold value_closure, subobject_closure, takes. by rewrite Hr1, Hst1. }
    exists s', ([WObject p (ch_new ch)] ++ new), obj'.
    split_and!.
    + cbn [iterM]. rewrite Hfn. cbn [run_callback].
      by rewrite (bind_Ret _ _ _ _ _
                    (link_widget_accepted n p ch s obj p_obj Hu Ho Hp Hv Hlinks)).
    + by rewrite Hr.
    + done.
    + done.
    + by rewrite Hpar'.
    + assert (is_link_widget x = true) as Hlw
        by (unfold is_link_widget; by rewrite Hfn).
      rewrite Hvals', Hvals1. cbn [existsb]. rewrite Hlw. cbn [orb].
      destruct (existsb _ l); [|done]. by rewrite insert_insert_eq.
    + intros w ws Hw. apply Hstore. by rewrite Hst1.
    + rewrite Htr. unfold s1, object_written. cbn [trace set__updating].
      rewrite store_value_trace. cbn. by rewrite <- !app_assoc.
    + assert (is_link_widget x = true) as Hlw
        by (unfold is_link_widget; by rewrite Hfn).
      rewrite object_writes_app, How, filter_cons, Hlw.
      by rewrite decide_True.
    + by rewrite value_writes_app, Hvw.
  - (* a closure of [_link_subobjects] *)
    destruct (update_pane_effect (S n) p' tg ch s x Hfn Hx) as (s1 & Hr1 & He1).
    destruct (IH s1 obj) as (s' & new & obj' & Hrun & Hr & Hu' & Ho' & Hpar'
                             & Hvals' & Hstore & Htr & How & Hvw).
    { by rewrite (effect_updating _ _ _ _ He1). }
    { by rewrite (effect_object _ _ _ _ He1). }
    { done. }
    { done. }
    { by rewrite (effect_registry _ _ _ _ He1). }
    { eapply forallb_impl; [|exact Hall]. intros y.
      unfold value_closure. destruct (fn y); try done;
        apply (subobject_closure_effect _ _ _ _ _ He1). }
    destruct (effect_trace _ _ _ _ He1) as (new1 & Htr1 & Hnw1 & Hnv1).
    exists s', (new1 ++ new), obj'.
    split_and!.
    + cbn [iterM]. rewrite Hfn. cbn [run_callback].
      by rewrite (bind_Ret _ _ _ _ _ Hr1).
    + by rewrite Hr, (effect_registry _ _ _ _ He1).
    + done.
    + done.
    + done.
    + assert (is_link_widget x = false) as Hlw
        by (unfold is_link_widget; by rewrite Hfn).
      rewrite Hvals'. cbn [existsb]. by rewrite Hlw.
    + intros w ws Hw.
      destruct (effect_store _ _ _ _ He1 w ws Hw) as (ws1 & Hw1 & Hc1 & Ha1).
      destruct (Hstore w ws1 Hw1) as (ws' & Hw' & Hc' & Ha').
      exists ws'. split; [done|]. split; [congruence|].
      rewrite Ha', Ha1. by rewrite bool_decide_false by apply not_elem_of_nil.
    + by rewrite Htr, Htr1, app_assoc.
    + assert (is_link_widget x = false) as Hlw
        by (unfold is_link_widget; by rewrite Hfn).
      rewrite object_writes_app, Hnw1, How, filter_cons, Hlw.
      by rewrite decide_False by (by intros []).
    + by rewrite value_writes_app, Hnv1, Hvw.
Qed.

(** C1, as the code has it. For a parameter that is not an action and
    takes the value [V], with the guard free.

    A change of the value of a widget to [V], when the watchers of that
    value are closures [link_widget] of the parameter and closures of
    [_link_subobjects], and the watchers of the value of the parameter
    are closures [link]: [set_param] is called on the object with [V]
    once for each closure [link_widget] (one for a widget that
    [Param.widget] constructed, whether the pane was rebuilt or not),
    and no value is written to a widget but the one that started it.

    A change of the value of the parameter to [V], when the watchers of
    that value are closures [link] of the parameter whose widgets take
    [V]: each closure sets the value of its widget to [V], once, in
    the order of registration (the closures of earlier builds, which a
    rebuild leaves registered, with them), and [set_param] is not
    called on the object again.

    Either way the call returns with the guard free, and the parameter
    and the widgets written hold [V]. *)
Theorem value_propagation_once (fuel : nat) (s : Param) (p_name : string)
    (w : wid) (obj : Parameterized) (p_obj : descriptor) (V : value) :
  _updating s = false →
  object s = Some obj →
  param_lookup obj p_name = Some p_obj →
  isinstance_p P_Action p_obj = false →
  validate p_obj V = None →
  let links := watchers_of OnObject p_name "value" (registry s) in
  let closures := watchers_of (OnWidget w) "value" "value" (registry s) in
  (∀ ws,
     store s !! w = Some ws →
     takes s w "value" V = true →
     is_equal (default VNone (w_attrs ws !! "value")) V = false →
     forallb (value_closure s p_name V) closures = true →
     forallb is_link links = true →
     ∃ s' new,
       widget_set_param (fire (3 + fuel)) w {["value" := V]} s
       = Some (s', Ret tt) ∧
       trace s' = trace s ++ new ∧
       object_writes new
       = (λ _, (p_name, V)) <$> filter is_link_widget closures ∧
       value_writes new = [(w, V)] ∧
       _updating s' = false ∧
       (existsb is_link_widget closures = true →
        ∃ obj', object s' = Some obj' ∧ values obj' !! p_name = Some V) ∧
       (∃ ws', store s' !! w = Some ws' ∧ w_attrs ws' !! "value" = Some V)) ∧
  (is_equal (default VNone (values obj !! p_name)) V = false →
   forallb (link_closure s p_name V) links = true →
   ∃ s' new,
     object_set_param (fire (3 + fuel)) p_name V s = Some (s', Ret tt) ∧
     trace s' = trace s ++ new ∧
     object_writes new = [(p_name, V)] ∧
     value_writes new = (λ w', (w', V)) <$> omap linked_widget links ∧
     _updating s' = false ∧
     (∃ obj', object s' = Some obj' ∧ values obj' !! p_name = Some V) ∧
     (∀ w', w' ∈ omap linked_widget links →
            ∃ ws', store s' !! w' = Some ws' ∧
                   w_attrs ws' !! "value" = Some V)).
Proof.
  intros Hu Ho Hp Ha Hv links closures.
  change (3 + fuel) with (S (S (S fuel))).
  split.
  - intros ws Hws Ht Hne Hcl Hlinks.
    apply takes_inv in Ht as (ws0 & Hws0 & Hin & Hwv).
    rewrite Hws in Hws0. injection Hws0 as <-.
    rewrite (widget_set_param_single _ _ _ _ _ ws Hws Hin Hwv), Hne.
    set (s1 := attr_written w ws "value" V s).
    set (ch := {| ch_what := "value";
                  ch_old := default VNone (w_attrs ws !! "value");
                  ch_new := V |}).
    assert (effect V [w] s s1) as He1 by by apply effect_value.
    assert (forallb (value_closure s1 p_name V) closures = true) as Hcl1.
    { eapply forallb_impl; [|exact Hcl]. intros y.
      unfold value_closure. destruct (fn y); try done;
        apply (subobject_closure_effect _ _ _ _ _ He1). }
    destruct (value_closures_run fuel p_name ch closures s1 obj p_obj)
      as (s' & new & obj' & Hrun & Hr & Hu' & Ho' & Hpar' & Hvals' & Hstore
          & Htr & How & Hvw); try done.
    exists s', ([WWidget w {["value" := V]}] ++ new).
    split_and!.
    + rewrite fire_S. cbn [ch_what ch]. exact Hrun.
    + rewrite Htr. cbn. by rewrite <- !app_assoc.
    + by rewrite object_writes_app, How.
    + rewrite value_writes_app, Hvw. cbn. by rewrite lookup_singleton_eq.
    + done.
    + intros Hex. exists obj'. split; [done|]. rewrite Hvals', Hex.
      apply lookup_insert_eq.
    + destruct (Hstore w {| w_class := w_class ws;
                            w_attrs := <["value" := V]> (w_attrs ws) |})
        as (ws' & Hws' & _ & Hval'); [cbn; by rewrite lookup_insert_eq|].
      exists ws'. split; [done|]. rewrite Hval'. cbn.
      by rewrite lookup_insert_eq.
  - intros Hne Hall.
    rewrite (object_set_param_accepted _ _ _ _ obj p_obj Ho Hp Hv), Hne.
    set (s1 := object_written p_name V s).
    set (ch := {| ch_what := "value";
                  ch_old := default VNone (values obj !! p_name);
                  ch_new := V |}).
    destruct (store_value_object p_name V
                (set_trace (trace s ++ [WObject p_name V]) s) obj Ho)
      as (obj' & Ho' & Hval & Hpar).
    assert (registry s1 = registry s) as Hr1
      by (unfold s1, object_written; by rewrite store_value_registry).
    assert (store s1 = store s) as Hst1
      by (unfold s1, object_written; by rewrite store_value_store).
    assert (forallb (link_closure s1 p_name V) links = true) as Hall1.
    { eapply forallb_impl; [|exact Hall]. intros y.
      unfold link_closure, widget_closure, subobject_closure, takes.
      by rewrite Hr1, Hst1. }
    destruct (links_effect fuel p_name ch links s1 obj' p_obj) as (s' & Hrun & He);
      [done| |done| |done|done|].
    { unfold s1, object_written. by rewrite store_value__updating. }
    { unfold param_lookup. rewrite Hpar. exact Hp. }
    exists s'.
    destruct (effect_trace _ _ _ _ He) as (new & Htr & Hnw & Hnv).
    exists ([WObject p_name V] ++ new).
    split_and!.
    + rewrite fire_S. cbn [ch_what ch]. rewrite Hr1. exact Hrun.
    + rewrite Htr. unfold s1, object_written. rewrite store_value_trace.
      cbn. by rewrite <- !app_assoc.
    + rewrite object_writes_app, Hnw. done.
    + rewrite value_writes_app, Hnv. done.
    + rewrite (effect_updating _ _ _ _ He). unfold s1, object_written.
      by rewrite store_value__updating.
    + rewrite (effect_object _ _ _ _ He). by exists obj'.
    + intros w' Hin.
      assert (∃ x, x ∈ links ∧ linked_widget x = Some w') as (x & Hx & Hlx).
      { apply list_elem_of_omap in Hin. destruct Hin as (x & ? & ?). by exists x. }
      assert (link_closure s p_name V x = true) as Hcx.
      { apply forallb_forall with (x := x) in Hall; [done|].
        by apply list_elem_of_In. }
      unfold link_closure, linked_widget in *.
      destruct (fn x) as [| |p' w0 c| |]; try done. injection Hlx as ->.
      apply andb_true_iff in Hcx as [[_ Ht]%andb_true_iff _].
      apply takes_inv in Ht as (ws & Hws & _).
      rewrite <- Hst1 in Hws.
      destruct (effect_store _ _ _ _ He w' ws Hws) as (ws' & Hws' & _ & Hval').
      exists ws'. split; [done|]. rewrite Hval'.
      by rewrite bool_decide_true.
Qed.

(** C6, as the code has it. When the descriptor refuses the value a
    change of the widget brings, the closure [link_widget] catches
    nothing, whatever else watches the widget: it releases the guard and
    raises the exception of [set_param]; the object, the widgets and the
    watchers stay as they were. Hence, where [link_widget] is the first
    watcher of the value of a widget, a write of that value to the
    widget raises the same exception to the one who wrote, and no later
    watcher of the widget is called. *)
Theorem link_widget_failure_propagates (s : Param) (p_name : string)
    (obj : Parameterized) (p_obj : descriptor) (V : value) (e : exn) :
  object s = Some obj →
  param_lookup obj p_name = Some p_obj →
  validate p_obj V = Some e →
  (∀ (notify : notifier) (ch : change),
     ch_new ch = V →
     _updating s = false →
     ∃ s', link_widget notify p_name ch s = Some (s', Raise e) ∧
           _updating s' = false ∧
           object s' = object s ∧
           store s' = store s ∧
           registry s' = registry s ∧
           trace s' = trace s ++ [WObject p_name V]) ∧
  (∀ (fuel : nat) (w : wid) (ws : widget_state) (wt : watcher)
     (rest : list watcher),
     _updating s = false →
     store s !! w = Some ws →
     "value" ∈ wparams (w_class ws) →
     watchers_of (OnWidget w) "value" "value" (registry s) = wt :: rest →
     fn wt = link_widget_cb p_name →
     w_validate (w_class ws) "value" V = None →
     is_equal (default VNone (w_attrs ws !! "value")) V = false →
     ∃ s', widget_set_param (fire (2 + fuel)) w {["value" := V]} s
           = Some (s', Raise e) ∧
           _updating s' = false ∧
           object s' = object s ∧
           trace s' = trace s ++ [WWidget w {["value" := V]}; WObject p_name V]).
Proof.
  intros Ho Hp Hv. split.
  - intros notify ch <- Hu. eexists. split_and!.
    + by apply (link_widget_refused _ p_name _ s obj p_obj e).
    + done.
    + done.
    + done.
    + done.
    + done.
  - intros fuel w ws wt rest Hu Hs Hin Hw Hf Hwv Hne.
    change (2 + fuel) with (S (S fuel)).
    eexists. split_and!.
    + rewrite (widget_set_param_single _ _ _ _ _ ws Hs Hin Hwv), Hne.
      rewrite fire_S. cbn [ch_what].
      change (registry (attr_written w ws "value" V s)) with (registry s).
      rewrite Hw. cbn [iterM]. rewrite Hf. cbn [run_callback].
      erewrite bind_Raise; [reflexivity|].
      by apply (link_widget_refused _ p_name _ (attr_written w ws "value" V s)
                  obj p_obj e).
    + done.
    + done.
    + cbn. by rewrite <- app_assoc.
Qed.

End Propagation.

(** ** The re-evaluator *)

Section Reevaluator.
Import ParamMethod.
Context `{PaneLib}.

(** The comprehension of [_update_pane] keeps the parameters, ['name']
    apart, whose new value is not the value the pane holds. *)
Lemma new_params_differing (pvals : gmap string nat) (vals : list (string * nat)) :
  NoDup (vals.*1) →
  (∀ k v, (k, v) ∈ vals → k ≠ "name" → is_Some (pvals !! k)) →
  ∃ m, new_params pvals vals = Ret m ∧
       ∀ k v, m !! k = Some v ↔
              (k, v) ∈ vals ∧ k ≠ "name" ∧ pvals !! k ≠ Some v.
Proof.
  induction vals as [|[k0 v0] vals IH]; intros Hnd Hin.
  { exists ∅. split; [done|]. intros k v. rewrite lookup_empty.
    split; [done|]. by intros [?%elem_of_nil _]. }
  apply NoDup_cons in Hnd as [Hk0 Hnd].
  destruct IH as (m & Hm & Hspec); [done|by intros; eapply Hin; [right|]|].
  assert (m !! k0 = None) as Hm0.
  { destruct (m !! k0) as [v|] eqn:Hl; [|done].
    apply Hspec in Hl as [Hl _]. destruct Hk0.
    apply list_elem_of_fmap. by exists (k0, v). }
  cbn [new_params]. case_bool_decide as Hname.
  { exists m. split; [done|]. intros k v. rewrite Hspec, elem_of_cons.
    naive_solver. }
  destruct (Hin k0 v0) as [old Hold]; [left|done|]. rewrite Hold, Hm.
  case_bool_decide as Hsame.
  - exists m. split; [done|]. intros k v. rewrite Hspec, elem_of_cons.
    naive_solver.
  - rewrite Hm0. exists (<[k0 := v0]> m). split; [done|]. intros k v.
    rewrite elem_of_cons. destruct (decide (k = k0)) as [->|Hne].
    + rewrite lookup_insert_eq. split.
      * intros [= <-]. split_and!; [by left|done|]. rewrite Hold. congruence.
      * intros [[[= ->]|Hin'] _]; [done|]. destruct Hk0.
        apply list_elem_of_fmap. by exists (k0, v).
    + rewrite lookup_insert_ne by done. rewrite Hspec. naive_solver.
Qed.

(** C5. [_update_pane] updates the pane it has when the pane type of
    the new output is the type of that pane and the output has no
    links, and replaces it by a newly constructed one otherwise. The
    update in place keeps the pane and the layout; for a reactive
    output it sets on the pane exactly the parameters, ['name'] apart,
    whose new value is not, by identity, the value the pane holds, and
    for any other output it sets the output as the object of the pane.
    The replacement puts the pane constructed for the output in
    [self._pane] and at the head of the layout, and writes to no pane. *)
Theorem update_pane_in_place_or_replace (o : output) (s : state) (cur : pane) :
  panes s !! _pane s = Some cur →
  next_pane s ≠ _pane s →
  let same := bool_decide (pane_type cur = out_pane_type o)
              && no_links (out_links o) in
  (same = true → ∀ vals,
     out_params o = Some vals →
     NoDup (vals.*1) →
     (∀ k v, (k, v) ∈ vals → k ≠ "name" → is_Some (pane_values cur !! k)) →
     ∃ s' m,
       _update_pane o s = Some (s', Ret tt) ∧
       (∀ k v, m !! k = Some v ↔
               (k, v) ∈ vals ∧ k ≠ "name" ∧ pane_values cur !! k ≠ Some v) ∧
       _pane s' = _pane s ∧ _inner_layout s' = _inner_layout s ∧
       panes s' !! _pane s
       = Some {| pane_type := pane_type cur;
                 pane_values := m ∪ pane_values cur |} ∧
       pane_trace s'
       = pane_trace s ++ [{| written_pane := _pane s; written := m |}]) ∧
  (same = true → out_params o = None →
     ∃ s',
       _update_pane o s = Some (s', Ret tt) ∧
       _pane s' = _pane s ∧ _inner_layout s' = _inner_layout s ∧
       panes s' !! _pane s
       = Some {| pane_type := pane_type cur;
                 pane_values := <["object" := out_ref o]> (pane_values cur) |} ∧
       pane_trace s'
       = pane_trace s ++ [{| written_pane := _pane s;
                             written := {["object" := out_ref o]} |}]) ∧
  (same = false → ∀ first rest,
     _inner_layout s = first :: rest →
     is_Some ((_kwargs s ∪ own_values s) !! "object") →
     ∃ s',
       _update_pane o s = Some (s', Ret tt) ∧
       _pane s' = next_pane s ∧
       panes s' !! _pane s'
       = Some (Pane o (delete "object" (_kwargs s ∪ own_values s))) ∧
       panes s' !! _pane s = Some cur ∧
       _inner_layout s' = _pane s' :: rest ∧
       pane_trace s' = pane_trace s).
Proof.
  intros Hcur Hfresh same. subst same.
  unfold _update_pane.
  rewrite (bind_Ret get _ s s s) by done. rewrite Hcur.
  cbn [lift_opt]. rewrite (bind_Ret _ _ s s cur) by done.
  split_and!.
  - intros -> vals -> Hnd Hin.
    destruct (new_params_differing (pane_values cur) vals Hnd Hin)
      as (m & -> & Hspec).
    eexists _, m. split_and!; [|exact Hspec|..].
    + unfold pane_set. rewrite (bind_Ret get _ s s s) by done. rewrite Hcur.
      cbn [lift_opt]. by rewrite (bind_Ret _ _ s s cur).
    + done.
    + done.
    + cbn. by rewrite lookup_insert_eq.
    + done.
  - intros -> ->. eexists. split_and!.
    + unfold pane_set. rewrite (bind_Ret get _ s s s) by done. rewrite Hcur.
      cbn [lift_opt]. by rewrite (bind_Ret _ _ s s cur).
    + done.
    + done.
    + cbn. rewrite lookup_insert_eq. do 2 f_equal.
      by rewrite insert_union_singleton_l.
    + done.
  - intros -> first rest Hl [x Hx]. rewrite Hx.
    eexists. split_and!.
    + rewrite (bind_Ret (modify _) _ s _ tt) by done.
      rewrite (bind_Ret get _ _ _ _) by done.
      cbn [_inner_layout set_pane]. by rewrite Hl.
    + done.
    + cbn. by rewrite lookup_insert_eq.
    + cbn. by rewrite lookup_insert_ne.
    + done.
    + done.
Qed.

End Reevaluator.

(** ** A rebuild ends

    With [expand] off, [_link_subobjects] registers watchers and
    delivers no change, and a rebuild of the widgets returns or raises
    whatever the watchers registered on the pane. *)

Lemma ends_of_total {A} (P : Param → Prop) (m : M Param A) :
  total m → (∀ s s' r, m s = Some (s', r) → P s → P s') → ends P m.
Proof.
  intros Ht Hp s Hs. destruct (Ht s) as [[s' r] Hm].
  exists s', r. split; [done|]. by eapply Hp.
Qed.

Lemma ends_ret {A} (P : Param → Prop) (a : A) : ends P (mret a).
Proof. intros s Hs. by exists s, (Ret a). Qed.

Lemma ends_get (P : Param → Prop) : ends P (get : M Param Param).
Proof. intros s Hs. by exists s, (Ret s). Qed.

Lemma ends_bind {A B} (P : Param → Prop) (m : M Param A) (k : A → M Param B) :
  ends P m → (∀ a, ends P (k a)) → ends P (m ≫= k).
Proof.
  intros Hm Hk s Hs. unfold mbind, M_bind, bind.
  destruct (Hm s Hs) as (s1 & [a|e] & -> & Hs1); [by apply Hk|by eexists _, _].
Qed.

Lemma ends_iterM {A} (P : Param → Prop) (f : A → M Param unit) (l : list A) :
  (∀ a, ends P (f a)) → ends P (iterM f l).
Proof.
  intros Hf. induction l as [|a l IH]; simpl; [apply ends_ret|].
  apply ends_bind; [apply Hf | by intros _].
Qed.

Section RebuildEnds.
Context `{WidgetLib} `{Runtime}.

(** [expand] is off. *)
Let quiet (s : Param) : Prop := expand s = false.

Lemma quiet_config s s' : config s s' → quiet s → quiet s'.
Proof. intros Hc. unfold quiet. by rewrite (config_expand _ _ Hc). Qed.

Lemma ends_config {A} (m : M Param A) :
  total m → pres config m → ends quiet m.
Proof.
  intros Ht Hc. apply ends_of_total; [done|].
  intros s s' r Hm. eapply quiet_config, Hc, Hm.
Qed.

#[local] Hint Resolve total_watch total_issubclass total_widget_setattr
  total_widget : total.

Lemma total__ordered_params : total _ordered_params.
Proof. unfold _ordered_params. total_solve. Qed.
#[local] Hint Resolve total__ordered_params : total.

Lemma total_construct c kwargs : total (construct c kwargs).
Proof. unfold construct. total_solve. Qed.
#[local] Hint Resolve total_construct : total.

Lemma total__get_widgets : total _get_widgets.
Proof. unfold _get_widgets. total_solve. Qed.

Lemma total_shown p : total (shown p).
Proof. unfold shown. total_solve. Qed.

Lemma total_filterM {A} (f : A → M Param bool) (l : list A) :
  (∀ a, total (f a)) → total (filterM f l).
Proof.
  intros Hf. induction l as [|a l IH]; simpl; [apply total_ret|].
  apply total_bind; [apply Hf | intros b].
  apply total_bind; [apply IH | intros bs; apply total_ret].
Qed.

Lemma total_anyM {A} (f : A → M Param bool) (l : list A) :
  (∀ a, total (f a)) → total (anyM f l).
Proof.
  intros Hf. induction l as [|a l IH]; simpl; [apply total_ret|].
  apply total_bind; [apply Hf | intros []; [apply total_ret | apply IH]].
Qed.

Lemma total_has_parameterized w : total (has_parameterized w).
Proof. unfold has_parameterized, iter_elements. total_solve. Qed.

Lemma total_read_events es ps : total (read_events es ps).
Proof.
  revert ps. induction es as [|[[| |obj]|new|name] es IH]; intros ps; simpl;
    total_solve.
Qed.

Lemma total_teardown : total teardown.
Proof. unfold teardown. total_solve. Qed.

(** With [expand] off the loop of [_link_subobjects] calls no watcher. *)
Lemma ends_link_subobject notify pname c :
  ends quiet (link_subobject notify pname c).
Proof.
  unfold link_subobject.
  apply ends_bind.
  { apply ends_config.
    - apply total_anyM, total_has_parameterized.
    - apply pres_config_of_frame, pres_anyM; [tc_solve|].
      apply preserves_has_parameterized. }
  intros some. destruct (negb some); [apply ends_ret|].
  destruct c as [w|w t].
  - apply ends_bind.
    { apply ends_config; [apply total_watch|].
      apply pres_config_of_frame, preserves_watch. }
    intros x. apply ends_bind; [apply ends_ret|]. intros ys.
    apply ends_bind.
    { apply ends_config; [apply total_modify|].
      apply pres_modify. intros ?. by constructor. }
    intros _ s Hq. unfold mbind, M_bind, bind, get. rewrite Hq. by eexists _, _.
  - apply ends_bind.
    { apply ends_config; [apply total_watch|].
      apply pres_config_of_frame, preserves_watch. }
    intros x. apply ends_bind.
    { apply ends_config.
      - apply total_bind; [apply total_watch|intros ?; apply total_ret].
      - apply pres_config_of_frame, pres_bind; [tc_solve|apply preserves_watch|].
        intros ?. apply pres_ret. tc_solve. }
    intros ys. apply ends_bind.
    { apply ends_config; [apply total_modify|].
      apply pres_modify. intros ?. by constructor. }
    intros _ s Hq. unfold mbind, M_bind, bind, get. rewrite Hq. by eexists _, _.
Qed.

Lemma ends__link_subobjects notify : ends quiet (_link_subobjects notify).
Proof.
  unfold _link_subobjects. apply ends_bind; [apply ends_get|].
  intros s. apply ends_iterM. intros kv. apply ends_link_subobject.
Qed.

(** The part of [_update_widgets] that builds the widgets. *)
Lemma ends_build notify (s0 : Param) :
  ends quiet
    (teardown;;
     (if object s0 is None then modify (set__widgets [])
      else ws ← _get_widgets; modify (set__widgets ws));;
     s ← get;
     widgets ← filterM (λ kv : string * control, shown kv.1) (_widgets s);
     modify (set__widget_box ((λ kv, IControl kv.2) <$> widgets));;
     if negb (bool_decide (expand_button s = Some false) && negb (expand s))
     then _link_subobjects notify
     else mret tt).
Proof.
  apply ends_bind.
  { apply ends_config; [apply total_teardown|].
    apply pres_config_of_frame, preserves_teardown. }
  intros _. apply ends_bind.
  { destruct (object s0).
    - apply ends_bind.
      + apply ends_config; [apply total__get_widgets|apply config__get_widgets].
      + intros ws. apply ends_config; [apply total_modify|].
        apply pres_modify. intros ?. by constructor.
    - apply ends_config; [apply total_modify|].
      apply pres_modify. intros ?. by constructor. }
  intros _. apply ends_bind; [apply ends_get|]. intros s.
  apply ends_bind.
  { apply ends_config.
    - apply total_filterM. intros ?. apply total_shown.
    - apply pres_config_of_frame, pres_filterM; [tc_solve|].
      intros ?. apply preserves_shown. }
  intros widgets. apply ends_bind.
  { apply ends_config; [apply total_modify|].
    apply pres_modify. intros ?. by constructor. }
  intros _. destruct (negb _); [apply ends__link_subobjects|apply ends_ret].
Qed.

(** With [expand] off, [_update_widgets] ends for any events, from any
    pane, once it is allowed the one nested call that an assignment to
    [self.parameters] makes. *)
Lemma update_widgets_ends fuel events s :
  expand s = false →
  ∃ s' r, _update_widgets (2 + fuel) events s = Some (s', r) ∧
          expand s' = false.
Proof.
  intros Hq. change (2 + fuel) with (S (S fuel)).
  cbn [_update_widgets].
  destruct (total_read_events
              (sorted (λ a b, String.leb (event_name a) (event_name b)) events)
              (Some []) s) as [[s1 [ps|e]] Hre].
  all: assert (quiet s1) as Hq1
    by (eapply quiet_config; [|exact Hq];
        eapply (pres_config_of_frame _ (preserves_read_events _ _)), Hre).
  2: { rewrite (bind_Raise _ _ _ _ _ Hre). by eexists _, _. }
  rewrite (bind_Ret _ _ _ _ _ Hre).
  rewrite (bind_Ret get _ s1 s1 s1) by done.
  case_bool_decide as Hcond.
  - destruct ps as [ps|]; [|by eexists _, _].
    rewrite (bind_Ret (modify _) _ s1 _ tt) by done.
    cbn [read_events sorted insert_sorted].
    assert (ps ≠ []) as Hne by (destruct Hcond as [Hc _]; congruence).
    destruct ps as [|p ps]; [done|].
    rewrite (bind_Ret (mret _) _ _ _ _) by done.
    rewrite (bind_Ret get _ _ _ _) by done.
    cbn [parameters set_parameters].
    rewrite bool_decide_false by naive_solver.
    destruct (ends_build (fire fuel) (set_parameters (p :: ps) s1)
                (set_parameters (p :: ps) s1) Hq1) as (s' & r & Hb & Hq').
    eexists _, _. split; [exact Hb|exact Hq'].
  - destruct (ends_build (fire (S fuel)) s1 s1 Hq1) as (s' & r & Hb & Hq').
    eexists _, _. split; [exact Hb|exact Hq'].
Qed.

(** And so does any number of rebuilds in succession. *)
Lemma rebuilds_ends fuel n s :
  expand s = false → ∃ s', rebuilds (2 + fuel) n s = Some s'.
Proof.
  revert s. induction n as [|n IH]; intros s Hq; [by eexists|].
  destruct (update_widgets_ends fuel [] s Hq) as (s1 & r & Hu & Hq1).
  cbn [rebuilds]. rewrite Hu. by apply IH.
Qed.

(** C2. [_update_widgets] leaves in the widget box the built widgets
    of the parameters whose precedence is [None] or at least the
    display threshold, one for each such parameter and in the order of
    [self._widgets], whose keys are distinct: this holds whenever the
    call returns, whatever the events and the watchers; and with
    [expand] off the call ends, given the fuel of the one nested call
    an assignment to [self.parameters] makes. *)
Theorem update_widgets_box_shown fuel events s :
  (∀ s', _update_widgets fuel events s = Some (s', Ret tt) →
         controls_of (_widget_box s')
         = (filter (λ kv, is_shown s' kv.1) (_widgets s')).*2 ∧
         NoDup ((_widgets s').*1)) ∧
  (expand s = false →
   ∃ s' r, _update_widgets (2 + fuel) events s = Some (s', r)).
Proof.
  split.
  - intros s'. apply update_widgets_box.
  - intros Hq.
    destruct (update_widgets_ends fuel events s Hq) as (s' & r & Hu & _).
    by exists s', r.
Qed.

(** C3, as the code has it. On an interpreter whose dictionaries are
    ordered (Python 3.6 or later), and for an object whose parameters
    have distinct names: [_ordered_params] lists the whitelisted
    parameters of the object (['name'] apart, which it never lists)
    sorted by ascending precedence, the default precedence standing for
    a missing one, and keeps the parameters of equal precedence in the
    order of their declaration; any number of rebuilds of the widgets
    leaves the list as it is, and with [expand] off the rebuilds end;
    and the widgets [_get_widgets] returns come in that order, after
    the name label when there is one. *)
Theorem ordered_params_sorted_stable (s : Param) (obj : Parameterized) :
  dict_ordered = true →
  object s = Some obj →
  NoDup ((params obj).*1) →
  let key := key_fn (default_precedence s) in
  let declared := listed obj (parameters s) in
  ∃ out : list (string * descriptor),
    _ordered_params s = Some (s, Ret (out.*1)) ∧
    out ≡ₚ declared ∧
    StronglySorted (λ x y, (key x <= key y)%Q) out ∧
    (∀ q, filter (λ x, Qeq_bool (key x) q) out
          = filter (λ x, Qeq_bool (key x) q) declared) ∧
    (∀ fuel n s', rebuilds fuel n s = Some s' →
                  _ordered_params s' = Some (s', Ret (out.*1))) ∧
    (expand s = false →
     ∀ fuel n, ∃ s', rebuilds (2 + fuel) n s = Some s') ∧
    (∀ s' ws, _get_widgets s = Some (s', Ret ws) →
              ws.*1 = (if negb (expand_layout_is_Tabs s) && show_name s
                       then ["name"] else []) ++ out.*1).
Proof.
  intros Hord Hobj Hnd key declared.
  destruct (ordered_params_order s obj Hord Hobj Hnd)
    as (out & Hop & Hperm & Hsort & Hstable & Hreb & Hget).
  exists out. split_and!; try done.
  intros Hq fuel n. by apply rebuilds_ends.
Qed.

End RebuildEnds.

(** * Further properties of the pane *)

(** ** The events of a rebuild *)

(** The sort only rearranges, whatever the order. *)
Lemma insert_sorted_Permutation {A} (le : A → A → bool) x l :
  insert_sorted le x l ≡ₚ x :: l.
Proof.
  induction l as [|y l IH]; simpl; [done|].
  destruct (le x y); [done|]. rewrite IH. apply Permutation_swap.
Qed.

Lemma sorted_Permutation {A} (le : A → A → bool) l : sorted le l ≡ₚ l.
Proof.
  induction l as [|x l IH]; simpl; [done|].
  by rewrite insert_sorted_Permutation, IH.
Qed.

Section Events.
Context `{WidgetLib} `{Runtime}.

#[local] Hint Resolve framed_fire preserves__link_subobjects
  preserves_teardown preserves_shown : frame.

(** The loop on the events stops at an object event whose new value is
    a [param] namespace: it reads [object.self] on the built-in. *)
Lemma read_events_namespace es ps s :
  EvObject NewParameters ∈ es →
  read_events es ps s = Some (s, Raise AttributeError).
Proof.
  revert ps. induction es as [|e es IH]; intros ps Hin;
    [by apply elem_of_nil in Hin|].
  apply elem_of_cons in Hin as [<-|Hin]; [done|].
  destruct e as [[| |obj]|new|name]; simpl; auto.
Qed.

(** An object event that carries the [param] namespace of an object
    makes [_update_widgets] raise an [AttributeError] before it touches
    the pane, whatever the other events. *)
Theorem update_widgets_namespace_event_raises fuel events s :
  EvObject NewParameters ∈ events →
  _update_widgets (S fuel) events s = Some (s, Raise AttributeError).
Proof.
  intros Hin. cbn [_update_widgets].
  rewrite (bind_Raise _ _ s s AttributeError); [done|].
  apply read_events_namespace. by rewrite sorted_Permutation.
Qed.

(** The part of [_update_widgets] that builds the widgets keeps the
    configuration of the pane. *)
Lemma config_build notify (s0 : Param) :
  framed notify →
  pres config
    (teardown;;
     (if object s0 is None then modify (set__widgets [])
      else ws ← _get_widgets; modify (set__widgets ws));;
     s ← get;
     widgets ← filterM (λ kv : string * control, shown kv.1) (_widgets s);
     modify (set__widget_box ((λ kv, IControl kv.2) <$> widgets));;
     if negb (bool_decide (expand_button s = Some false) && negb (expand s))
     then _link_subobjects notify
     else mret tt).
Proof.
  intros Hn. frame_solve;
    first [apply config__get_widgets
          | apply pres_config_of_frame; eauto with frame].
Qed.

(** After an object event with a new object that has a parameter other
    than ['name'], the whitelist of the pane is the parameters of the
    new object other than ['name'], whatever it was. *)
Theorem object_event_resets_parameters fuel o s s' r :
  filter (λ p, p ≠ "name") (params o).*1 ≠ [] →
  _update_widgets (2 + fuel) [EvObject (NewObject o)] s = Some (s', r) →
  parameters s' = filter (λ p, p ≠ "name") (params o).*1.
Proof.
  set (ps := filter (λ p, p ≠ "name") (params o).*1).
  intros Hne. change (2 + fuel) with (S (S fuel)).
  cbn [_update_widgets sorted insert_sorted read_events].
  fold ps.
  rewrite (bind_Ret (mret (Some ps)) _ s s (Some ps)) by done.
  rewrite (bind_Ret get _ s s s) by done.
  case_bool_decide as Hcond.
  - rewrite (bind_Ret (modify _) _ s (set_parameters ps s) tt) by done.
    destruct ps as [|p ps'] eqn:Hps; [done|].
    rewrite (bind_Ret (mret _) _ _ _ _) by done.
    rewrite (bind_Ret get _ _ _ _) by done.
    cbn [parameters set_parameters].
    rewrite bool_decide_false by naive_solver.
    intros Hb. apply (config_build _ _ (framed_fire fuel)) in Hb.
    by rewrite <- (config_parameters _ _ Hb).
  - intros Hb. apply (config_build _ _ (framed_fire (S fuel))) in Hb.
    rewrite <- (config_parameters _ _ Hb).
    destruct (decide (Some ps = Some (parameters s))) as [[= ->]|Hd]; [done|].
    destruct Hcond. split; [|done]. intros [= Hps]. by rewrite Hps in Hne.
Qed.

(** A pane with no object rebuilds to no widget and an empty box, and
    the rebuild returns. *)
Theorem update_widgets_without_object fuel s :
  object s = None →
  ∃ s', _update_widgets (S fuel) [] s = Some (s', Ret tt) ∧
        _widgets s' = [] ∧ _widget_box s' = [] ∧
        store s' = store s ∧ trace s' = trace s.
Proof.
  intros Ho. cbn [_update_widgets sorted read_events].
  rewrite (bind_Ret (mret (Some [])) _ s s (Some [])) by done.
  rewrite (bind_Ret get _ s s s) by done.
  rewrite bool_decide_false by naive_solver.
  rewrite Ho. unfold teardown, _link_subobjects.
  unfold mbind, M_bind, bind, modify, get. cbn.
  destruct (negb _); eexists; (split; [reflexivity|done]).
Qed.

(** [Param.__init__] on a single parameter shows that parameter alone,
    whatever whitelist was given, on the owner of the parameter, and
    leaves the name label out unless [show_name] was given. *)
Theorem init_single_parameter fuel name owner cfg s' r :
  __init__ fuel (InitParameter name owner) cfg = Some (s', r) →
  parameters s' = [name] ∧
  show_name s' = default false (i_show_name cfg) ∧
  params <$> object s' = params <$> owner.
Proof.
  unfold __init__.
  destruct (resolve_expand_layout _ _) as [target|e].
  - intros Hu. apply config__update_widgets in Hu.
    destruct Hu as [Hp _ Hps _ _ _ _ _ _ _ Hsn _ _].
    cbn in Hp, Hps, Hsn |- *. rewrite <- Hp, <- Hps, <- Hsn.
    by destruct (i_show_name cfg).
  - intros [= <- _]. cbn. by destruct (i_show_name cfg).
Qed.

End Events.

(** ** The link of a parameter, beyond its value *)

Section Metadata.
Context `{WidgetLib} `{Runtime}.

(** A parameter of a widget that nobody watches is set with no further
    effect. *)
Lemma widget_set_param_unwatched fuel w k v s ws :
  store s !! w = Some ws →
  k ∈ wparams (w_class ws) →
  w_validate (w_class ws) k v = None →
  watchers_of (OnWidget w) k "value" (registry s) = [] →
  widget_set_param (fire (S fuel)) w {[k := v]} s
  = Some (attr_written w ws k v s, Ret tt).
Proof.
  intros Hs Hin Hv Hw.
  rewrite (widget_set_param_single _ _ _ _ _ ws) by done.
  destruct (is_equal _ v); [done|].
  rewrite fire_S. cbn [ch_what].
  change (registry (attr_written w ws k v s)) with (registry s).
  by rewrite Hw.
Qed.

(** A change of [constant] of the parameter is written to [disabled] of
    the widget, once, whether the guard is held or not, and leaves the
    guard free. *)
Theorem link_constant_ignores_guard fuel p_name w cell ch s ws :
  ch_what ch = "constant" →
  store s !! w = Some ws →
  "disabled" ∈ wparams (w_class ws) →
  w_validate (w_class ws) "disabled" (ch_new ch) = None →
  watchers_of (OnWidget w) "disabled" "value" (registry s) = [] →
  link (fire (S fuel)) p_name w cell ch s
  = Some (set__updating false
            (attr_written w ws "disabled" (ch_new ch) s), Ret tt).
Proof.
  intros Hch Hs Hin Hv Hw. unfold link. rewrite Hch.
  rewrite bool_decide_true by done.
  unfold try_finally.
  rewrite (bind_Ret (modify _) _ s (set__updating true s) tt) by done.
  by rewrite (widget_set_param_unwatched _ _ _ _ _ ws).
Qed.

(** *** A change of precedence *)

Lemma widgets_lookup_NoDup (d : list (string * control)) k c :
  NoDup (d.*1) → (k, c) ∈ d → widgets_lookup d k = Some c.
Proof.
  unfold widgets_lookup. induction d as [|[k' c'] d IH]; intros Hnd Hin;
    [by apply elem_of_nil in Hin|].
  apply NoDup_cons in Hnd as [Hk' Hnd]. cbn.
  apply elem_of_cons in Hin as [[= -> ->]|Hin].
  - by rewrite decide_True.
  - rewrite decide_False.
    + specialize (IH Hnd Hin).
      destruct (list_find _ d) as [[i kv]|]; by simplify_eq/=.
    + cbn. intros ->. apply Hk'. apply list_elem_of_fmap. by exists (k, c).
Qed.

Lemma collect_shown_spec (d : list (string * control)) s obj :
  object s = Some obj →
  Forall (λ k, is_Some (param_lookup obj k)) (d.*1) →
  (∀ k c, (k, c) ∈ d → widgets_lookup (_widgets s) k = Some c) →
  collect_shown (d.*1) s
  = Some (s, Ret ((filter (λ kv, is_shown s kv.1) d).*2)).
Proof.
  intros Ho. induction d as [|[k c] d IH]; intros Hp Hl; [done|].
  apply Forall_cons in Hp as [[p_obj Hk] Hp]. cbn [fst] in Hk.
  cbn [fmap list_fmap collect_shown fst].
  assert (shown k s = Some (s, Ret (is_shown s k))) as Hs.
  { unfold shown, is_shown, mbind, M_bind, bind, get. rewrite Ho. cbn.
    by rewrite Hk. }
  rewrite (bind_Ret _ _ _ _ _ Hs).
  rewrite filter_cons. cbn [fst].
  specialize (IH Hp (λ k' c' Hin, Hl k' c' (list_elem_of_further _ _ _ Hin))).
  destruct (is_shown s k) eqn:Hsk.
  - rewrite decide_True by done.
    assert ((s0 ← get;
             c0 ← lift_opt KeyError (widgets_lookup (_widgets s0) k);
             mret [c0]) s = Some (s, Ret [c])) as Hhere.
    { unfold mbind, M_bind, bind, get. rewrite (Hl k c) by left. done. }
    rewrite (bind_Ret _ _ _ _ _ Hhere).
    change (list_fmap _ _ fst d) with (d.*1).
    by rewrite (bind_Ret _ _ _ _ _ IH).
  - rewrite decide_False by (by intros []).
    rewrite (bind_Ret (mret []) _ s s []) by done.
    change (list_fmap _ _ fst d) with (d.*1).
    by rewrite (bind_Ret _ _ _ _ _ IH).
Qed.

(** A change of precedence to a value at or above the threshold sets
    the box to the widgets of the shown parameters, in the order of
    [self._widgets], as a rebuild does, when [self._widgets] holds the
    name label (if it is shown) and the ordered parameters. *)
Theorem link_precedence_shows notify p_name w cell ch s obj q :
  ch_what ch = "precedence" →
  ch_new ch = VNum q →
  Qle_bool (display_threshold s) q = true →
  object s = Some obj →
  (_widgets s).*1
  = (if show_name s then ["name"] else [])
    ++ ordered_params_of obj (parameters s) (default_precedence s) →
  NoDup ((_widgets s).*1) →
  Forall (λ k, is_Some (param_lookup obj k)) ((_widgets s).*1) →
  link notify p_name w cell ch s
  = Some (set__widget_box
            (IControl <$> (filter (λ kv, is_shown s kv.1) (_widgets s)).*2) s,
          Ret tt).
Proof.
  intros Hch Hnew Hq Ho Hkeys Hnd Hp. unfold link. rewrite Hch.
  rewrite bool_decide_false by done. rewrite bool_decide_true by done.
  rewrite (bind_Ret get _ s s s) by done.
  rewrite Hnew. cbn [lt_num ge_num].
  rewrite (bind_Ret (mret _) _ s s (negb (Qle_bool (display_threshold s) q)))
    by done.
  rewrite Hq. cbn [negb andb].
  rewrite (bind_Ret (mret _) _ s s true) by done.
  assert (_ordered_params s
          = Some (s, Ret (ordered_params_of obj (parameters s)
                            (default_precedence s)))) as Hop.
  { unfold _ordered_params, mbind, M_bind, bind, get. by rewrite Ho. }
  rewrite (bind_Ret _ _ _ _ _ Hop).
  assert ((if show_name s
           then "name" :: ordered_params_of obj (parameters s)
                            (default_precedence s)
           else ordered_params_of obj (parameters s) (default_precedence s))
          = (_widgets s).*1) as ->.
  { rewrite Hkeys. by destruct (show_name s). }
  rewrite (bind_Ret _ _ _ _ _
             (collect_shown_spec (_widgets s) s obj Ho Hp
                (λ k c, widgets_lookup_NoDup _ k c Hnd))).
  done.
Qed.

(** *** The nested panes *)

Lemma layout_objects_set l s :
  layout_objects (set_layout_objects l s) = l.
Proof.
  unfold layout_objects, set_layout_objects.
  destruct (_expand_layout s) eqn:E; cbn; by rewrite ?E.
Qed.

Lemma set_layout_objects_set l l' s :
  set_layout_objects l (set_layout_objects l' s) = set_layout_objects l s.
Proof.
  unfold set_layout_objects.
  destruct (_expand_layout s) eqn:E; cbn; by rewrite ?E.
Qed.

Lemma set_layout_objects_same s :
  set_layout_objects (layout_objects s) s = s.
Proof.
  unfold layout_objects, set_layout_objects.
  by destruct s as [? ? ? ? ? ? ? ? ? ? ? ? ? ? ? []].
Qed.

Lemma object_set_layout_objects l s :
  object (set_layout_objects l s) = object s.
Proof. unfold set_layout_objects. by destruct (_expand_layout s). Qed.

Lemma remove_first_app_fresh {A} `{EqDecision A} (x : A) l :
  x ∉ l → remove_first x (l ++ [x]) = l.
Proof.
  induction l as [|y l IH]; intros Hx; simpl.
  - by rewrite decide_True.
  - apply not_elem_of_cons in Hx as [Hxy Hx].
    rewrite decide_False by done. by rewrite IH.
Qed.

Lemma panes_of_nil_fresh v id l :
  identity v = Some id → panes_of v l = [] → IPane id ∉ l.
Proof.
  intros Hid Hp Hin.
  assert (IPane id ∈ panes_of v l) as Hin'.
  { apply list_elem_of_filter. split; [|done]. cbn.
    by apply bool_decide_pack. }
  rewrite Hp in Hin'. by apply elem_of_nil in Hin'.
Qed.

(** [toggle_pane] opens the pane of a parameterized value at the end of
    the expand layout, once however often it is asked to, and closing
    it gives the pane back as it was. *)
Theorem toggle_pane_open_close parameter on off s obj v id :
  object s = Some obj →
  values obj !! parameter = Some v →
  identity v = Some id →
  panes_of v (layout_objects s) = [] →
  truthy (ch_new on) = true →
  truthy (ch_new off) = false →
  let opened := set_layout_objects (layout_objects s ++ [IPane id]) s in
  toggle_pane parameter on s = Some (opened, Ret tt) ∧
  toggle_pane parameter on opened = Some (opened, Ret tt) ∧
  toggle_pane parameter off opened = Some (s, Ret tt) ∧
  toggle_pane parameter off s = Some (s, Ret tt).
Proof.
  intros Ho Hv Hid Hp Hon Hoff opened.
  assert (panes_of v (layout_objects opened) = [IPane id]) as Hp'.
  { subst opened. rewrite layout_objects_set. unfold panes_of in *.
    rewrite filter_app, Hp, filter_cons, decide_True; [done|].
    cbn. by apply bool_decide_pack. }
  assert (object opened = Some obj) as Ho'
    by (subst opened; by rewrite object_set_layout_objects).
  unfold toggle_pane, mbind, M_bind, bind, get.
  rewrite Ho, Ho'. cbn. rewrite Hv. cbn. rewrite Hp, Hp', Hon, Hoff, Hid. cbn.
  split_and!; try done.
  unfold modify. do 2 f_equal. subst opened.
  rewrite layout_objects_set, set_layout_objects_set.
  rewrite remove_first_app_fresh by by eapply panes_of_nil_fresh.
  apply set_layout_objects_same.
Qed.

Lemma replace_first_middle {A} `{EqDecision A} (x y : A) l1 l2 :
  x ∉ l1 → replace_first x y (l1 ++ x :: l2) = l1 ++ y :: l2.
Proof.
  induction l1 as [|z l1 IH]; intros Hx; simpl.
  - by rewrite decide_True.
  - apply not_elem_of_cons in Hx as [Hxz Hx].
    rewrite decide_False by done. by rewrite IH.
Qed.

Lemma remove_first_middle {A} `{EqDecision A} (x : A) l1 l2 :
  x ∉ l1 → remove_first x (l1 ++ x :: l2) = l1 ++ l2.
Proof.
  induction l1 as [|z l1 IH]; intros Hx; simpl.
  - by rewrite decide_True.
  - apply not_elem_of_cons in Hx as [Hxz Hx].
    rewrite decide_False by done. by rewrite IH.
Qed.

Lemma panes_of_middle v id l1 l2 :
  identity v = Some id → IPane id ∉ l1 →
  ∃ rest, panes_of v (l1 ++ IPane id :: l2) = IPane id :: rest.
Proof.
  intros Hid Hx. unfold panes_of. rewrite filter_app.
  assert (filter (λ it, shows v it) l1 = []) as ->.
  { induction l1 as [|it l1 IH]; [done|].
    apply not_elem_of_cons in Hx as [Hne Hx].
    rewrite filter_cons, decide_False; [by apply IH|].
    destruct it as [c|id']; cbn; [by intros []|].
    intros Hs. apply Is_true_true, bool_decide_eq_true in Hs.
    rewrite Hid in Hs. by simplify_eq. }
  rewrite filter_cons, decide_True; [by eexists|].
  cbn. by apply bool_decide_pack.
Qed.

(** When the value of a selector without a toggle changes from a
    parameterized object whose pane is in the expand layout, the pane of
    the new value takes the place of that pane, and a value that is not
    parameterized takes the pane away; the other items keep their
    order. *)
Theorem update_pane_keeps_place notify parameter ch s old l1 l2 :
  identity (ch_old ch) = Some old →
  layout_objects s = l1 ++ IPane old :: l2 →
  IPane old ∉ l1 →
  update_pane notify parameter None ch s
  = Some (set_layout_objects
            (match identity (ch_new ch) with
             | Some new => l1 ++ IPane new :: l2
             | None => l1 ++ l2
             end) s, Ret tt).
Proof.
  intros Hid Hl Hx. unfold update_pane.
  rewrite (bind_Ret get _ s s s) by done.
  rewrite (bind_Ret (mret tt) _ s s tt) by done.
  rewrite Hl.
  destruct (panes_of_middle (ch_old ch) old l1 l2 Hid Hx) as [rest ->].
  destruct (identity (ch_new ch)) as [new|]; unfold modify; do 2 f_equal;
    rewrite Hl.
  - by rewrite replace_first_middle.
  - by rewrite remove_first_middle.
Qed.

End Metadata.

(** ** The watchers a build registers *)

#[local] Instance records_preorder : PreOrder records_object_watchers.
Proof.
  split.
  - intros s. exists []. by rewrite !app_nil_r.
  - intros s1 s2 s3 (n1 & Hr1 & Hc1) (n2 & Hr2 & Hc2).
    exists (n1 ++ n2). unfold on_object in *.
    by rewrite Hr2, Hr1, Hc2, Hc1, filter_app, !app_assoc.
Qed.

#[local] Instance keeps_object_preorder : PreOrder keeps_object_watchers.
Proof.
  split; [by intros s w|].
  intros s1 s2 s3 H12 H23 w Hw Hi. by apply H23; [apply H12|].
Qed.

#[local] Instance registers_preorder : PreOrder registers.
Proof.
  split.
  - intros s. by constructor.
  - intros s1 s2 s3 [Hc1 Hb1 He1 Hw1] [Hc2 Hb2 He2 Hw2].
    constructor; [by etrans|congruence|congruence|].
    intros w Hw. by apply Hw2, Hw1.
Qed.

Lemma records_same s s' :
  registry s' = registry s → _callbacks s' = _callbacks s →
  records_object_watchers s s'.
Proof. intros Hr Hc. exists []. by rewrite Hr, Hc, !app_nil_r. Qed.

Lemma records_keeps s s' :
  records_object_watchers s s' → keeps_object_watchers s s'.
Proof.
  intros (new & Hr & _) w Hw _. rewrite Hr. apply elem_of_app. by left.
Qed.

(** The rules of [keeps]. *)
Section KeepsRules.
Context (P : Param → Prop) (R : relation Param) `{!PreOrder R}.

Lemma keeps_pres {A} (m : M Param A) :
  pres R m → (∀ s s' r, m s = Some (s', r) → P s → P s') → keeps P R m.
Proof. intros HR HP s s' r Hs Hm. split; [by eapply HR|by eapply HP]. Qed.

Lemma keeps_ret {A} (a : A) : keeps P R (mret a).
Proof. by intros s s' r Hs [= <- _]. Qed.

Lemma keeps_bind {A B} (m : M Param A) (k : A → M Param B) :
  keeps P R m → (∀ a, keeps P R (k a)) → keeps P R (m ≫= k).
Proof.
  intros Hm Hk s s' r Hs. unfold mbind, M_bind, bind.
  destruct (m s) as [[s1 [a|e]]|] eqn:Hms; [|intros [= <- _]; eauto|done].
  intros Hka. destruct (Hm _ _ _ Hs Hms) as [HR1 Hs1].
  destruct (Hk a _ _ _ Hs1 Hka) as [HR2 Hs2]. split; [by etrans|done].
Qed.

(** What is read from the pane satisfies what the pane satisfies. *)
Lemma keeps_get {B} (k : Param → M Param B) :
  (∀ a, P a → keeps P R (k a)) → keeps P R (get ≫= k).
Proof. intros Hk s s' r Hs Hm. by eapply (Hk s Hs). Qed.

Lemma keeps_iterM {A} (f : A → M Param unit) (l : list A) :
  (∀ a, keeps P R (f a)) → keeps P R (iterM f l).
Proof.
  intros Hf. induction l as [|a l IH]; simpl; [apply keeps_ret|].
  apply keeps_bind; [apply Hf | by intros _].
Qed.

End KeepsRules.

Section Watchers.
Context `{WidgetLib} `{Runtime}.

Ltac records_solve :=
  repeat (frame_step; simpl);
  try (apply records_same; reflexivity).

Lemma records_watch_widget w name wh cb :
  pres records_object_watchers (watch (OnWidget w) name wh cb).
Proof.
  intros s s' r [= <- _]. eexists [_]. split; [reflexivity|].
  unfold on_object. rewrite filter_cons, decide_False by done.
  by rewrite filter_nil, app_nil_r.
Qed.

(** A watcher on the object is recorded as it is registered. *)
Lemma records_watch_object name wh cb :
  pres records_object_watchers
    (x ← watch OnObject name wh cb;
     modify (λ s, set__callbacks (_callbacks s ++ [x]) s)).
Proof.
  intros s s' r [= <- _]. eexists [_]. split; [reflexivity|].
  unfold on_object. by rewrite filter_cons, decide_True, filter_nil.
Qed.

Lemma records_link_up p_name p_obj v w kw :
  pres records_object_watchers (link_up p_name p_obj v w kw).
Proof.
  unfold link_up.
  apply pres_bind; [tc_solve|by destruct (isinstance_p _ _);
                               apply records_watch_widget|intros wt].
  cbn zeta.
  apply pres_bind; [tc_solve|apply pres_modify; intros ?;
                              by apply records_same|intros _].
  repeat (apply pres_bind; [tc_solve| |intros _]);
    try apply records_watch_object;
    try (case_match; [apply records_watch_object|apply pres_ret; tc_solve]).
Qed.

Lemma records_choose_class p_name p_obj :
  pres records_object_watchers (choose_class p_name p_obj).
Proof. unfold choose_class. records_solve. Qed.

Lemma records_choose_label c p_obj :
  pres records_object_watchers (choose_label c p_obj).
Proof. unfold choose_label, issubclass. records_solve. Qed.

Lemma records_with_bounds p_obj c kw :
  pres records_object_watchers (with_bounds p_obj c kw).
Proof. unfold with_bounds, issubclass. records_solve. Qed.

Lemma records_construct c kwargs :
  pres records_object_watchers (construct c kwargs).
Proof. unfold construct. records_solve. Qed.

Lemma records_with_toggle v w kwargs :
  pres records_object_watchers (with_toggle v w kwargs).
Proof. unfold with_toggle, iter_values, widget_setattr. records_solve. Qed.

Lemma records_widget p_name : pres records_object_watchers (widget p_name).
Proof.
  unfold widget, param_names.
  repeat (frame_step; simpl);
    first [ apply records_choose_class | apply records_choose_label
          | apply records_with_bounds | apply records_construct
          | apply records_link_up | apply records_with_toggle ].
Qed.

Lemma records__get_widgets : pres records_object_watchers _get_widgets.
Proof.
  unfold _get_widgets, _ordered_params.
  repeat (frame_step; simpl);
    first [ apply records_construct | apply records_widget
          | apply records_same; reflexivity ].
Qed.

(** [Param.widget] records in [self._callbacks] the watchers it
    registers on the object, and those alone: the watcher it registers
    on the widget is kept nowhere. *)
Theorem widget_records_object_watchers p_name s s' r :
  widget p_name s = Some (s', r) →
  ∃ new, registry s' = registry s ++ new ∧
         _callbacks s' = _callbacks s ++ on_object new.
Proof. apply records_widget. Qed.

End Watchers.

(** ** What a rebuild keeps and what it drops *)

Section Rebuild.
Context `{WidgetLib} `{Runtime}.

(** [expand] is off. *)
Let quiet (s : Param) : Prop := expand s = false.

Lemma keeps_quiet {A} (R : relation Param) (m : M Param A) :
  pres R m → pres config m → keeps quiet R m.
Proof.
  intros HR Hc. apply keeps_pres; [done|].
  intros s s' r Hm. unfold quiet. by rewrite (config_expand _ _ (Hc _ _ _ Hm)).
Qed.

Lemma keeps_weaken {A} (P : Param → Prop) (R R' : relation Param)
    (m : M Param A) :
  (∀ s s', R s s' → R' s s') → keeps P R m → keeps P R' m.
Proof. intros HR Hm s s' r Hs Hr. destruct (Hm _ _ _ Hs Hr). split; auto. Qed.

Lemma registers_config' s s' : registers s s' → config s s'.
Proof. by intros []. Qed.

Ltac registers_solve :=
  repeat (frame_step; simpl);
  try (constructor;
       [by constructor|done|done
       |intros ? ?; cbn; try done; apply elem_of_app; by left]).

Lemma registers_watch t name wh cb : pres registers (watch t name wh cb).
Proof. unfold watch. registers_solve. Qed.

Lemma registers_has_parameterized w : pres registers (has_parameterized w).
Proof. unfold has_parameterized, iter_elements. registers_solve. Qed.

(** With [expand] off the loop of [_link_subobjects] registers its
    watchers and does nothing else. *)
Lemma registers_link_subobject notify pname c :
  keeps quiet registers (link_subobject notify pname c).
Proof.
  assert (∀ A (m : M Param A), pres registers m → keeps quiet registers m)
    as Hk.
  { intros A m Hm. apply keeps_quiet; [done|].
    eapply pres_weaken; [apply registers_config'|done]. }
  assert (keeps quiet registers
            (s ← get;
             if expand s then
               if expand_button s is Some true then
                 match (match c with CRow _ t => Some t | CWidget _ => None end)
                 with
                 | Some t => widget_set_param notify t {["value" := VBool true]}
                 | None => raise AttributeError
                 end
               else
                 toggle_pane pname
                   {| ch_what := "value"; ch_old := VNone; ch_new := VBool true |}
             else mret tt)) as Htail.
  { apply keeps_get. intros a Ha. rewrite Ha.
    apply keeps_ret; tc_solve. }
  unfold link_subobject.
  apply keeps_bind; [tc_solve| |intros some].
  { apply Hk, pres_anyM; [tc_solve|]. apply registers_has_parameterized. }
  destruct (negb some); [apply keeps_ret; tc_solve|].
  destruct c as [w|w t].
  - apply keeps_bind; [tc_solve|apply Hk, registers_watch|intros x].
    apply keeps_bind; [tc_solve|apply keeps_ret; tc_solve|intros ys].
    apply keeps_bind; [tc_solve| |intros _; exact Htail].
    apply Hk. registers_solve.
  - apply keeps_bind; [tc_solve|apply Hk, registers_watch|intros x].
    apply keeps_bind; [tc_solve| |intros ys].
    { apply Hk. apply pres_bind; [tc_solve|apply registers_watch|intros ?].
      apply pres_ret. tc_solve. }
    apply keeps_bind; [tc_solve| |intros _; exact Htail].
    apply Hk. registers_solve.
Qed.

Lemma registers__link_subobjects notify :
  keeps quiet registers (_link_subobjects notify).
Proof.
  unfold _link_subobjects. apply keeps_get. intros s _.
  apply keeps_iterM; [tc_solve|]. intros kv. apply registers_link_subobject.
Qed.

Lemma keeps_object_same s s' :
  registry s' = registry s → keeps_object_watchers s s'.
Proof. intros Hr w Hw _. by rewrite Hr. Qed.

Lemma keeps_object_shown p : pres keeps_object_watchers (shown p).
Proof. unfold shown. repeat (frame_step; simpl). Qed.

(** Unwatching the callbacks of the widgets of the box leaves the
    watchers on the object registered. *)
Lemma keeps_object_teardown s :
  distinct_watchers s →
  ∃ s1, teardown s = Some (s1, Ret tt) ∧
        keeps_object_watchers s s1 ∧ config s s1.
Proof.
  intros Hd. eexists.
  split; [unfold teardown, mbind, M_bind, bind, get, modify; reflexivity|].
  split; [|by constructor].
  intros w Hw Hi. cbn. apply list_elem_of_filter. split; [|done].
  intros (d & Hu & Hin)%list_elem_of_fmap.
  apply list_elem_of_filter in Hin as [Hgone Hin].
  specialize (Hd w d Hw Hin (eq_sym Hu)). rewrite Hi in Hd.
  by rewrite Hd in Hgone.
Qed.

(** A rebuild of a pane whose [expand] is off leaves every watcher on
    the object registered: the links of the widgets it replaces stay. *)
Theorem rebuild_keeps_object_watchers fuel s s' r :
  expand s = false →
  distinct_watchers s →
  _update_widgets fuel [] s = Some (s', r) →
  ∀ w, w ∈ registry s → inst w = OnObject → w ∈ registry s'.
Proof.
  intros Hq Hd. destruct fuel as [|fuel]; [done|].
  cbn [_update_widgets sorted read_events].
  rewrite (bind_Ret (mret (Some [])) _ s s (Some [])) by done.
  rewrite (bind_Ret get _ s s s) by done.
  rewrite bool_decide_false by naive_solver.
  destruct (keeps_object_teardown s Hd) as (s1 & Ht & Hk1 & Hc1).
  rewrite (bind_Ret _ _ _ _ _ Ht). intros Hr.
  assert (quiet s1) as Hq1 by (unfold quiet; by rewrite <- (config_expand _ _ Hc1)).
  change (keeps_object_watchers s s'). etrans; [exact Hk1|].
  cut (keeps quiet keeps_object_watchers
         ((if object s is None then modify (set__widgets [])
           else ws ← _get_widgets; modify (set__widgets ws));;
          s2 ← get;
          widgets ← filterM (λ kv : string * control, shown kv.1) (_widgets s2);
          modify (set__widget_box ((λ kv, IControl kv.2) <$> widgets));;
          if negb (bool_decide (expand_button s2 = Some false) && negb (expand s2))
          then _link_subobjects (fire fuel)
          else mret tt)).
  { intros Hrest. by destruct (Hrest _ _ _ Hq1 Hr). }
  apply keeps_bind; [tc_solve| |intros _].
  { apply keeps_quiet.
    - destruct (object s).
      + apply pres_bind; [tc_solve| |intros ws].
        * eapply pres_weaken; [apply records_keeps|apply records__get_widgets].
        * apply pres_modify. intros ?. by apply keeps_object_same.
      + apply pres_modify. intros ?. by apply keeps_object_same.
    - destruct (object s).
      + apply pres_bind; [tc_solve|apply config__get_widgets|intros ws].
        apply pres_modify. intros ?. by constructor.
      + apply pres_modify. intros ?. by constructor. }
  apply keeps_get. intros s2 _.
  apply keeps_bind; [tc_solve| |intros widgets].
  { apply keeps_quiet.
    - apply pres_filterM; [tc_solve|]. intros ?. apply keeps_object_shown.
    - apply pres_config_of_frame, pres_filterM; [tc_solve|].
      intros ?. apply preserves_shown. }
  apply keeps_bind; [tc_solve| |intros _].
  { apply keeps_quiet; apply pres_modify; intros ?;
      [by apply keeps_object_same|by constructor]. }
  destruct (negb _); [|apply keeps_ret; tc_solve].
  eapply keeps_weaken; [|apply registers__link_subobjects].
  intros ? ? [_ _ _ Hw] w Hin _. by apply Hw.
Qed.

(** When the expand layout is the widget box and [expand] is off, a
    rebuild that returns leaves no nested pane in the layout: the panes
    that were open are gone with the widgets. *)
Theorem rebuild_closes_nested_panes fuel s s' :
  expand s = false →
  _expand_layout s = ExpandBox →
  _update_widgets fuel [] s = Some (s', Ret tt) →
  ∀ id, IPane id ∉ layout_objects s'.
Proof.
  intros Hq He Hu.
  pose proof (config__update_widgets _ _ _ _ Hu) as Hc.
  destruct fuel as [|fuel]; [done|].
  cbn [_update_widgets sorted read_events] in Hu.
  rewrite (bind_Ret (mret (Some [])) _ s s (Some [])) in Hu by done.
  rewrite (bind_Ret get _ s s s) in Hu by done.
  rewrite bool_decide_false in Hu by naive_solver.
  apply bind_Ret_inv in Hu as (s2 & [] & Ht & Hr).
  apply bind_Ret_inv in Hr as (s3 & [] & Hw & Hr).
  apply bind_Ret_inv in Hr as (? & ? & [= <- <-] & Hr).
  apply bind_Ret_inv in Hr as (? & shown_ & [-> ->]%filterM_shown & Hr).
  apply bind_Ret_inv in Hr as (s5 & [] & [= <-] & Hr).
  set (s5 := set__widget_box _ s3) in Hr.
  assert (config s s3) as Hc3.
  { etrans; [eapply pres_config_of_frame, Ht; apply preserves_teardown|].
    destruct (object s).
    - apply bind_Ret_inv in Hw as (? & ws & Hg & [= <-]).
      etrans; [eapply config__get_widgets, Hg|]. by constructor.
    - injection Hw as <-. by constructor. }
  assert (_widget_box s' = _widget_box s5) as Hbox.
  { destruct (negb _); [|by injection Hr as <-].
    assert (quiet s5) as Hq5
      by (unfold quiet; cbn; by rewrite <- (config_expand _ _ Hc3)).
    by destruct (registers__link_subobjects _ _ _ _ Hq5 Hr) as [[_ <- _ _] _]. }
  intros id. unfold layout_objects.
  rewrite <- (config__expand_layout _ _ Hc), He, Hbox. subst s5. cbn.
  intros (kv & Hkv & _)%list_elem_of_fmap. done.
Qed.

End Rebuild.

(** ** The update in place, again *)

Lemma NoDup_fst_unique {A B} (l : list (A * B)) k v v' :
  NoDup (l.*1) → (k, v) ∈ l → (k, v') ∈ l → v = v'.
Proof.
  induction l as [|[k0 v0] l IH]; intros Hnd H1 H2;
    [by apply elem_of_nil in H1|].
  apply NoDup_cons in Hnd as [Hk0 Hnd].
  apply elem_of_cons in H1 as [H1|H1]; apply elem_of_cons in H2 as [H2|H2];
    simplify_eq; try done.
  - destruct Hk0. apply list_elem_of_fmap. by exists (k0, v').
  - destruct Hk0. apply list_elem_of_fmap. by exists (k0, v).
  - by apply IH.
Qed.

Section Merge.
Import ParamMethod.
Context `{PaneLib}.

(** The comprehension of [_update_pane] raises a [KeyError] when the
    output has a parameter, other than ['name'], that the pane has
    not. *)
Lemma new_params_missing (pvals : gmap string nat) (vals : list (string * nat)) k v :
  (k, v) ∈ vals → k ≠ "name" → pvals !! k = None →
  new_params pvals vals = Raise KeyError.
Proof.
  intros Hin Hname Hk. induction vals as [|[k0 v0] vals IH];
    [by apply elem_of_nil in Hin|].
  cbn [new_params]. case_bool_decide as Hn.
  - apply elem_of_cons in Hin as [[= -> ->]|Hin]; [done|by apply IH].
  - destruct (pvals !! k0) eqn:Hk0; [|done].
    apply elem_of_cons in Hin as [[= -> ->]|Hin]; [congruence|].
    by rewrite (IH Hin).
Qed.

(** An output of the type of the pane and without links that has a
    parameter the pane has not makes [_update_pane] raise a [KeyError]
    before it sets anything: the pane, the layout and the history of
    writes are as they were. *)
Theorem update_pane_missing_parameter (o : output) (s : state) (cur : pane)
    vals k v :
  panes s !! _pane s = Some cur →
  pane_type cur = out_pane_type o →
  no_links (out_links o) = true →
  out_params o = Some vals →
  (k, v) ∈ vals → k ≠ "name" → pane_values cur !! k = None →
  _update_pane o s = Some (s, Raise KeyError).
Proof.
  intros Hcur Ht Hl Hp Hin Hname Hk. unfold _update_pane.
  rewrite (bind_Ret get _ s s s) by done. rewrite Hcur.
  cbn [lift_opt]. rewrite (bind_Ret _ _ s s cur) by done.
  rewrite bool_decide_true by done. rewrite Hl, Hp. cbn [andb].
  by rewrite (new_params_missing _ _ k v).
Qed.

(** The update in place is idempotent: after [_update_pane] merged a
    reactive output into the pane, merging the same output again sets
    no parameter and leaves every pane as it is. *)
Theorem update_pane_merge_idempotent (o : output) (s : state) (cur : pane) vals :
  panes s !! _pane s = Some cur →
  pane_type cur = out_pane_type o →
  no_links (out_links o) = true →
  out_params o = Some vals →
  NoDup (vals.*1) →
  (∀ k v, (k, v) ∈ vals → k ≠ "name" → is_Some (pane_values cur !! k)) →
  ∃ s1 s2,
    _update_pane o s = Some (s1, Ret tt) ∧
    _update_pane o s1 = Some (s2, Ret tt) ∧
    panes s2 = panes s1 ∧ _pane s2 = _pane s1 ∧
    _inner_layout s2 = _inner_layout s1 ∧
    pane_trace s2
    = pane_trace s1 ++ [{| written_pane := _pane s; written := ∅ |}].
Proof.
  intros Hcur Ht Hl Hp Hnd Hin.
  destruct (new_params_differing (pane_values cur) vals Hnd Hin)
    as (m & Hm & Hspec).
  set (cur' := {| pane_type := pane_type cur;
                  pane_values := m ∪ pane_values cur |}).
  assert (∀ k v, (k, v) ∈ vals → k ≠ "name" → pane_values cur' !! k = Some v)
    as Hnow.
  { intros k v Hkv Hname. cbn. apply lookup_union_Some_raw.
    destruct (decide (pane_values cur !! k = Some v)) as [Heq|Hne].
    - right. split; [|done]. destruct (m !! k) as [v'|] eqn:Hmk; [|done].
      apply Hspec in Hmk as (Hkv' & _ & Hne).
      assert (v' = v) as ->; [|done].
      by eapply (NoDup_fst_unique vals k).
    - left. apply Hspec. done. }
  destruct (new_params_differing (pane_values cur') vals Hnd) as (m' & Hm' & Hspec').
  { intros k v Hkv Hname. rewrite (Hnow k v) by done. by eexists. }
  assert (m' = ∅) as ->.
  { apply map_empty. intros k. destruct (m' !! k) as [v|] eqn:Hk; [|done].
    apply Hspec' in Hk as (Hkv & Hname & Hne). destruct Hne. by apply Hnow. }
  assert (∀ s0 c m0, panes s0 !! _pane s0 = Some c →
            pane_type c = out_pane_type o →
            new_params (pane_values c) vals = Ret m0 →
            _update_pane o s0
            = Some ({| own_values := own_values s0; _kwargs := _kwargs s0;
                       _pane := _pane s0; _inner_layout := _inner_layout s0;
                       panes := <[_pane s0 := {| pane_type := pane_type c;
                                                 pane_values := m0 ∪ pane_values c |}]>
                                  (panes s0);
                       next_pane := next_pane s0;
                       pane_trace := pane_trace s0 ++
                                       [{| written_pane := _pane s0;
                                           written := m0 |}] |}, Ret tt)) as Hrun.
  { intros s0 c m0 Hc Htc Hn. unfold _update_pane.
    rewrite (bind_Ret get _ s0 s0 s0) by done. rewrite Hc.
    cbn [lift_opt]. rewrite (bind_Ret _ _ s0 s0 c) by done.
    rewrite bool_decide_true by done. rewrite Hl, Hp, Hn. cbn [andb].
    unfold pane_set. rewrite (bind_Ret get _ s0 s0 s0) by done. rewrite Hc.
    cbn [lift_opt]. by rewrite (bind_Ret _ _ s0 s0 c). }
  eexists _, _. split; [by apply (Hrun s cur m)|].
  split.
  { apply (Hrun _ cur' ∅); [cbn; by rewrite lookup_insert_eq|done|done]. }
  cbn. split_and!; try done.
  rewrite insert_insert_eq. by rewrite (left_id_L ∅ (∪)).
Qed.

End Merge.

(** ** JSONInit *)

Section JSONInitFacts.
Import JSONInit.
Context `{JSONLib}.

(** When the file named by [json_file], or by an environment variable
    that ends in [.json], cannot be loaded, the call raises an
    [UnboundLocalError] instead of the warning its handler means to
    give; nothing is set. *)
Theorem call_unreadable_file_raises self environ p f :
  nonempty (json_file self) = Some f
  ∨ (nonempty (json_file self) = None ∧ environ !! varname self = Some f
     ∧ endswith f ".json" = true) →
  load f = None →
  __call__ self environ p = (subject_object p, [], Some UnboundLocalError).
Proof.
  intros Hf Hl. unfold __call__, read_spec.
  destruct Hf as [Hf|(Hf & He & Hs)].
  - rewrite bool_decide_false.
    2: { intros [_ Hn]. by rewrite Hn in Hf. }
    rewrite Hf. cbn. by rewrite Hl.
  - rewrite bool_decide_false.
    2: { intros [Hn _]. by rewrite Hn in He. }
    rewrite Hf, He, Hs. cbn. by rewrite Hl.
Qed.

(** A [json_file] that is not empty takes precedence: the environment
    is not looked at. *)
Theorem call_json_file_takes_precedence self env1 env2 p f :
  nonempty (json_file self) = Some f →
  __call__ self env1 p = __call__ self env2 p.
Proof.
  intros Hf. unfold __call__, read_spec.
  rewrite !bool_decide_false.
  2,3: intros [_ Hn]; by rewrite Hn in Hf.
  by rewrite Hf.
Qed.

(** Whether a parameter takes a value depends on the parameters of the
    object, not on their values. *)
Lemma accepted_params obj obj' kv :
  params obj' = params obj → accepted obj' kv = accepted obj kv.
Proof.
  intros Hp. unfold accepted, set_param, param_lookup. rewrite Hp.
  destruct (list_find _ _) as [[i [k p_obj]]|]; [|done]. cbn.
  by destruct (validate p_obj kv.2).
Qed.

Lemma set_param_refusal obj obj' name v e :
  params obj' = params obj →
  set_param obj' name v = inr e → set_param obj name v = inr e.
Proof.
  intros Hp. unfold set_param, param_lookup. rewrite Hp.
  destruct (list_find _ _) as [[i [k p_obj]]|]; [|done]. cbn.
  by destruct (validate p_obj v).
Qed.

Lemma set_all_spec who items obj ws :
  Forall (λ kv, ∀ e, set_param obj kv.1 kv.2 = inr e → e = ValueError) items →
  set_all who items obj ws
  = ({| obj_name := obj_name obj; params := params obj;
        values := foldl (λ m kv, <[kv.1 := kv.2]> m) (values obj)
                        (filter (λ kv, accepted obj kv) items) |},
     ws ++ ((λ kv, Refused who kv.1)
              <$> filter (λ kv, negb (accepted obj kv)) items),
     None).
Proof.
  revert obj ws. induction items as [|[name v] items IH]; intros obj ws Hok.
  { cbn. rewrite app_nil_r. by destruct obj. }
  apply Forall_cons in Hok as [Hkv Hok]. cbn [fst snd] in Hkv.
  cbn [set_all].
  destruct (set_param obj name v) as [obj'|e] eqn:Hs.
  - assert (accepted obj (name, v) = true) as Ha
      by (unfold accepted; cbn [fst snd]; by rewrite Hs).
    assert (params obj' = params obj ∧ obj_name obj' = obj_name obj
            ∧ values obj' = <[name := v]> (values obj)) as (Hp & Hn & Hv).
    { unfold set_param in Hs. destruct (param_lookup obj name); [|done].
      destruct (validate _ v); [done|]. by injection Hs as <-. }
    rewrite !filter_cons, Ha.
    rewrite decide_True by done. rewrite decide_False by (by intros []).
    rewrite IH.
    + cbn [foldl fst snd]. rewrite Hp, Hn, Hv.
      rewrite (list_filter_iff (λ kv, accepted obj' kv) (λ kv, accepted obj kv))
        by (intros kv; by rewrite (accepted_params obj obj')).
      rewrite (list_filter_iff (λ kv, negb (accepted obj' kv))
                 (λ kv, negb (accepted obj kv)))
        by (intros kv; by rewrite (accepted_params obj obj')).
      done.
    + eapply Forall_impl; [exact Hok|]. intros kv Hk e He.
      apply Hk. by eapply set_param_refusal.
  - assert (accepted obj (name, v) = false) as Ha
      by (unfold accepted; cbn [fst snd]; by rewrite Hs).
    rewrite (Hkv e eq_refl).
    rewrite !filter_cons, Ha.
    rewrite decide_False by (by intros []). rewrite decide_True by done.
    rewrite IH by done. cbn [fmap list_fmap fst]. by rewrite <- app_assoc.
Qed.

(** When the specification is a dictionary and no parameter refuses its
    value with anything but a [ValueError], the call returns: the
    entries of [spec[target]], or of the specification itself when it
    has no [target], are set on the object where the parameter takes
    the value, and each of the others gives a warning and stops
    nothing. *)
Theorem call_sets_accepted self environ p spec items :
  ¬ (environ !! varname self = None ∧ json_file self = None) →
  read_spec self (environ !! varname self) = inl (VDict spec) →
  default (VDict spec)
    (dict_get spec (default (class_name p) (target self))) = VDict items →
  Forall (λ kv, ∀ e, set_param (subject_object p) kv.1 kv.2 = inr e
                     → e = ValueError) items →
  let obj := subject_object p in
  let who := if is_type p then Main else Self in
  __call__ self environ p
  = ({| obj_name := obj_name obj; params := params obj;
        values := foldl (λ m kv, <[kv.1 := kv.2]> m) (values obj)
                        (filter (λ kv, accepted obj kv) items) |},
     (λ kv, Refused who kv.1) <$> filter (λ kv, negb (accepted obj kv)) items,
     None).
Proof.
  intros Hsrc Hspec Hitems Hok obj who. unfold __call__.
  rewrite bool_decide_false by done. rewrite Hspec, Hitems.
  by rewrite set_all_spec.
Qed.

Lemma foldl_insert_union (l : list (string * value)) (m : gmap string value) :
  NoDup (l.*1) →
  foldl (λ m kv, <[kv.1 := kv.2]> m) m l = list_to_map l ∪ m.
Proof.
  revert m. induction l as [|[k v] l IH]; intros m Hnd.
  { cbn. by rewrite (left_id_L ∅ (∪)). }
  rewrite fmap_cons in Hnd. apply NoDup_cons in Hnd as [Hk Hnd].
  cbn [foldl fst snd list_to_map foldr uncurry]. rewrite IH by done.
  rewrite <- insert_union_l. symmetry. apply insert_union_r.
  by apply not_elem_of_list_to_map_1.
Qed.

(** The order in which the dictionary yields its items does not matter
    to the values set: two orders of the same items, of distinct names,
    leave the same object, and the same warnings up to their order. *)
Theorem set_all_order_irrelevant who items items' obj :
  items ≡ₚ items' →
  NoDup (items.*1) →
  Forall (λ kv, ∀ e, set_param obj kv.1 kv.2 = inr e → e = ValueError) items →
  ∃ obj' ws ws',
    set_all who items obj [] = (obj', ws, None) ∧
    set_all who items' obj [] = (obj', ws', None) ∧
    ws ≡ₚ ws'.
Proof.
  intros Hperm Hnd Hok.
  assert (Forall (λ kv, ∀ e, set_param obj kv.1 kv.2 = inr e → e = ValueError)
            items') as Hok' by by rewrite <- Hperm.
  rewrite !set_all_spec by done.
  eexists _, _, _. split; [reflexivity|]. split.
  - do 2 f_equal. f_equal.
    assert (∀ l, NoDup (l.*1) →
              NoDup ((filter (λ kv, accepted obj kv) l).*1)) as Hf.
    { intros l. induction l as [|kv l IHl]; [done|]. intros Hl.
      apply NoDup_cons in Hl as [Hk Hl]. rewrite filter_cons.
      destruct (decide _); [|by apply IHl]. cbn. apply NoDup_cons.
      split; [|by apply IHl]. intros Hin. apply Hk.
      apply list_elem_of_fmap in Hin as (kv' & -> & Hin).
      apply list_elem_of_filter in Hin as [_ Hin].
      apply list_elem_of_fmap. by exists kv'. }
    rewrite !foldl_insert_union.
    + f_equal. apply list_to_map_proper; [|by rewrite Hperm].
      apply Hf. by rewrite <- Hperm.
    + apply Hf; first [done|by rewrite <- Hperm].
    + apply Hf; first [done|by rewrite <- Hperm].
  - cbn. by rewrite Hperm.
Qed.

End JSONInitFacts.

(** * The scenario of the specification

    The theorems above, at the pane of the object with a number [a], a
    boolean [b] and an action [go], on Python 3.7. *)

Section Scenario.
Import Example.
#[local] Existing Instance widgets_lib.
#[local] Existing Instance python37.
#[local] Existing Instance panes_lib.

Lemma ordered_params_sorted_stable_witness :
  let s := Example.blank in
  let key := key_fn (default_precedence s) in
  let declared := listed Example.obj (parameters s) in
  ∃ out : list (string * descriptor),
    _ordered_params s = Some (s, Ret (out.*1)) ∧
    out ≡ₚ declared ∧
    StronglySorted (λ x y, (key x <= key y)%Q) out ∧
    (∀ q, filter (λ x, Qeq_bool (key x) q) out
          = filter (λ x, Qeq_bool (key x) q) declared) ∧
    (∀ fuel n s', rebuilds fuel n s = Some s' →
                  _ordered_params s' = Some (s', Ret (out.*1))) ∧
    (expand s = false →
     ∀ fuel n, ∃ s', rebuilds (2 + fuel) n s = Some s') ∧
    (∀ s' ws, _get_widgets s = Some (s', Ret ws) →
              ws.*1 = (if negb (expand_layout_is_Tabs s) && show_name s
                       then ["name"] else []) ++ out.*1).
Proof.
  apply (ordered_params_sorted_stable Example.blank Example.obj).
  - reflexivity.
  - reflexivity.
  - apply (bool_decide_unpack _). vm_compute. exact I.
Defined.

(** C3, as stated, fails on an interpreter older than Python 3.6: [b]
    is declared before [a], both have the default precedence, and
    [_ordered_params] lists [a] before [b], the group being sorted by
    name. On any interpreter a whitelisted ['name'] is not listed. *)
Lemma ordered_params_by_name_before_python36 :
  @dict_ordered python27 = false ∧
  (listed obj_ba ["a"; "b"]).*1 = ["b"; "a"] ∧
  key_fn (1 # 100000000) ("b", Boolean None)
  = key_fn (1 # 100000000) ("a", Number (VNum 0) (VNum 10) None) ∧
  @ordered_params_of python27 obj_ba ["a"; "b"] (1 # 100000000) = ["a"; "b"] ∧
  @ordered_params_of python37 obj ["name"; "a"] (1 # 100000000) = ["a"].
Proof. split_and!; vm_compute; reflexivity. Qed.

Lemma update_widgets_box_shown_witness :
  _update_widgets 3 [] hidden = Some (rebuilt hidden, Ret tt) ∧
  expand hidden = false ∧
  (controls_of (_widget_box (rebuilt hidden))
   = (filter (λ kv, is_shown (rebuilt hidden) kv.1) (_widgets (rebuilt hidden))).*2 ∧
   NoDup ((_widgets (rebuilt hidden)).*1)) ∧
  ∃ s' r, _update_widgets (2 + 3) [] hidden = Some (s', r).
Proof.
  assert (_update_widgets 3 [] hidden = Some (rebuilt hidden, Ret tt)) as Hr
    by (vm_compute; reflexivity).
  assert (expand hidden = false) as Hq by reflexivity.
  split; [exact Hr|]. split; [exact Hq|].
  split.
  - exact (proj1 (update_widgets_box_shown 3 [] hidden) (rebuilt hidden) Hr).
  - exact (proj2 (update_widgets_box_shown 3 [] hidden) Hq).
Defined.

(** In that pane the box holds the name label, the slider of [a] and the
    button of [go]: the checkbox of [b] is left out. *)
Lemma hidden_box :
  controls_of (_widget_box (rebuilt hidden))
  = [CWidget (inl 0); CWidget (inl 2); CWidget (inl 3)] ∧
  (_widgets (rebuilt hidden)).*1 = ["name"; "b"; "a"; "go"].
Proof. split; vm_compute; reflexivity. Qed.

Lemma widget_pops_type_witness :
  let d : gmap string value := {["type" := VWidgetClass TextInput]} in
  let ws : gmap string override := {["a" := ODict d]} in
  let p_obj := Number (VNum 0) (VNum 10) None in
  choose_class "a" p_obj typed
  = Some (set_widgets (Some (<["a" := ODict (delete "type" d)]> ws)) typed,
          Ret (VWidgetClass TextInput, delete "type" d)) ∧
  ∃ s' r,
    widget "a" typed = Some (s', r) ∧
    widgets s' = Some (<["a" := ODict (delete "type" d)]> ws) ∧
    choose_class "a" p_obj s'
    = Some (s', Ret (of_resolved (Resolver.widget_type p_obj),
                     delete "type" d)).
Proof.
  apply (widget_pops_type "a" typed obj); reflexivity.
Defined.

Lemma with_bounds_keywords_witness :
  let p_obj := Number (VNum 0) VNone None in
  let kw : gmap string value := {["value" := VNum 0]} in
  ∃ c' kw',
    with_bounds p_obj (VWidgetClass FloatSlider) kw blank
    = Some (blank, Ret (VWidgetClass c', kw')) ∧
    kw' !! "start" = (if is_None (VNum 0) then kw !! "start" else Some (VNum 0)) ∧
    kw' !! "end" = (if is_None VNone then kw !! "end" else Some VNone) ∧
    c' = (if bool_decide (kw' !! "start" = None ∨ kw' !! "end" = None)
             && negb (sub_LiteralInput FloatSlider)
          then LiteralInput else FloatSlider) ∧
    kw' !! "step" = (if has_step c' && truthy (step p_obj)
                     then Some (step p_obj) else kw !! "step") ∧
    ∀ k, k ≠ "start" → k ≠ "end" → k ≠ "step" → kw' !! k = kw !! k.
Proof.
  apply (with_bounds_keywords (Number (VNum 0) VNone None) FloatSlider
           {["value" := VNum 0]} (VNum 0) VNone blank).
  reflexivity.
Defined.

(** C7, as stated, fails: [a] has no soft bound and its slider class is
    not a [LiteralInput], yet [Param.widget] builds a slider, because the
    overrides of the caller give [start] and [end]. *)
Lemma open_bounds_keep_slider :
  get_soft_bounds (Number VNone VNone None) = Some (VNone, VNone) ∧
  Resolver.widget_type (Number VNone VNone None) = Some FloatSlider ∧
  sub_LiteralInput FloatSlider = false ∧
  ∃ s', widget "a" open_bounds = Some (s', Ret (CWidget (inl 0))) ∧
        w_class <$> store s' !! (inl 0 : wid) = Some FloatSlider ∧
        w_class <$> store s' !! (inl 0 : wid) ≠ Some LiteralInput.
Proof.
  split_and!; [reflexivity..|].
  eexists. split_and!; [vm_compute; reflexivity|vm_compute; reflexivity|].
  vm_compute. discriminate.
Qed.

Lemma value_propagation_once_witness :
  let s := rebuilt built in
  let w : wid := inl 5 in
  let V := VNum 5 in
  let links := watchers_of OnObject "a" "value" (registry s) in
  let closures := watchers_of (OnWidget w) "value" "value" (registry s) in
  (∃ s' new,
     widget_set_param (fire (3 + 0)) w {["value" := V]} s = Some (s', Ret tt) ∧
     trace s' = trace s ++ new ∧
     object_writes new = (λ _, ("a", V)) <$> filter is_link_widget closures ∧
     value_writes new = [(w, V)] ∧
     _updating s' = false ∧
     (existsb is_link_widget closures = true →
      ∃ obj', object s' = Some obj' ∧ values obj' !! "a" = Some V) ∧
     (∃ ws', store s' !! w = Some ws' ∧ w_attrs ws' !! "value" = Some V)) ∧
  (∃ s' new,
     object_set_param (fire (3 + 0)) "a" V s = Some (s', Ret tt) ∧
     trace s' = trace s ++ new ∧
     object_writes new = [("a", V)] ∧
     value_writes new = (λ w', (w', V)) <$> omap linked_widget links ∧
     _updating s' = false ∧
     (∃ obj', object s' = Some obj' ∧ values obj' !! "a" = Some V) ∧
     (∀ w', w' ∈ omap linked_widget links →
            ∃ ws', store s' !! w' = Some ws' ∧ w_attrs ws' !! "value" = Some V)).
Proof.
  destruct (value_propagation_once 0 (rebuilt built) "a" (inl 5) obj
              (Number (VNum 0) (VNum 10) None) (VNum 5)) as [Hw Ho];
    [reflexivity|vm_compute; reflexivity|reflexivity|reflexivity|
     reflexivity|].
  split.
  - apply (Hw (default slider_a (store (rebuilt built) !! (inl 5 : wid))));
      vm_compute; reflexivity.
  - apply Ho; vm_compute; reflexivity.
Defined.

(** What the lists of the theorem are in the rebuilt pane: the slider of
    the rebuild has the one closure [link_widget]; the parameter [a] has
    two closures [link], of the slider of the first build, which is no
    longer shown, and of the slider of the rebuild. *)
Lemma rebuilt_closures :
  let s := rebuilt built in
  _update_widgets 3 [] built = Some (s, Ret tt) ∧
  fn <$> watchers_of (OnWidget (inl 5)) "value" "value" (registry s)
  = [link_widget_cb "a"] ∧
  omap linked_widget (watchers_of OnObject "a" "value" (registry s))
  = [inl 1; inl 5] ∧
  controls_of (_widget_box s)
  = [CWidget (inl 4); CWidget (inl 5); CWidget (inl 6); CWidget (inl 7)].
Proof. split_and!; vm_compute; reflexivity. Qed.

(** The same for a parameter whose value is a parameterized object: its
    selector is watched by [link_widget] and by the closure
    [update_pane] of [_link_subobjects], and both directions write the
    new value once; [update_pane] enables the toggle beside it. *)
Lemma subobject_propagation_once :
  let s := rebuilt nested in
  let w : wid := inl 1 in
  let V := VParameterized 6 in
  fn <$> watchers_of (OnWidget w) "value" "value" (registry s)
  = [link_widget_cb "sub"; update_pane_cb "sub" (Some (inl 2))] ∧
  (∃ s' new,
     widget_set_param (fire 3) w {["value" := V]} s = Some (s', Ret tt) ∧
     trace s' = trace s ++ new ∧
     object_writes new = [("sub", V)] ∧
     value_writes new = [(w, V)] ∧
     _updating s' = false) ∧
  (∃ s' new,
     object_set_param (fire 3) "sub" V s = Some (s', Ret tt) ∧
     trace s' = trace s ++ new ∧
     object_writes new = [("sub", V)] ∧
     value_writes new = [(w, V)] ∧
     _updating s' = false).
Proof.
  split; [vm_compute; reflexivity|].
  destruct (value_propagation_once 0 (rebuilt nested) "sub" (inl 1) obj_sub
              Parameter_ (VParameterized 6)) as [Hw Ho];
    [reflexivity|vm_compute; reflexivity|reflexivity|reflexivity|
     reflexivity|].
  split.
  - destruct (Hw (default slider_a (store (rebuilt nested) !! (inl 1 : wid))))
      as (s' & new & Hr & Ht & How & Hvw & Hu & _);
      [vm_compute; reflexivity..|].
    exists s', new. split_and!; [exact Hr|exact Ht| |exact Hvw|exact Hu].
    rewrite How. vm_compute. reflexivity.
  - destruct Ho as (s' & new & Hr & Ht & How & Hvw & Hu & _);
      [vm_compute; reflexivity..|].
    exists s', new. split_and!; [exact Hr|exact Ht|exact How| |exact Hu].
    rewrite Hvw. vm_compute. reflexivity.
Qed.

(** In the scenario of the specification, setting the slider of [a] to
    5 sets [a] to 5, and the guard is free afterwards. *)
Lemma slider_sets_parameter :
  ∃ s', widget_set_param (fire 2) (inl 1) {["value" := VNum 5]} built
        = Some (s', Ret tt) ∧
        (values <$> object s') ≫= (.!! "a") = Some (VNum 5) ∧
        _updating s' = false.
Proof. eexists. split_and!; vm_compute; reflexivity. Qed.

(** C1, as stated, fails twice. For an action: the parameter [go] and
    its button are linked by [Param.widget], and a new value of [go] is
    written to no widget; the click watcher of the button is replaced.
    For a widget instance given in [widgets]: each build links the same
    instance again, so after one rebuild a change of its value calls
    [set_param] on the parameter twice. *)
Lemma value_not_written_once :
  (link_cb "go" (inl 3) 11 ∈ fn <$> watchers_of OnObject "go" "value" (registry built) ∧
   ∃ s', object_set_param (fire 2) "go" (VCallable 8) built = Some (s', Ret tt) ∧
         trace s' = trace built ++ [WObject "go" (VCallable 8)] ∧
         (∀ w updates, WWidget w updates ∉ trace s') ∧
         fn <$> watchers_of (OnWidget (inl 3)) "clicks" "value" (registry s')
         = [action_cb (VCallable 8)]) ∧
  (let s := rebuilt (rebuilt ready_made) in
   _update_widgets 3 [] ready_made = Some (rebuilt ready_made, Ret tt) ∧
   _update_widgets 3 [] (rebuilt ready_made) = Some (s, Ret tt) ∧
   _widgets s !! 1%nat = Some ("a", CWidget (inr 0)) ∧
   fn <$> watchers_of (OnWidget (inr 0)) "value" "value" (registry s)
   = [link_widget_cb "a"; link_widget_cb "a"] ∧
   ∃ s', widget_set_param (fire 3) (inr 0) {["value" := VNum 3]} s
         = Some (s', Ret tt) ∧
         trace s' = trace s ++ [WWidget (inr 0) {["value" := VNum 3]};
                                WObject "a" (VNum 3); WObject "a" (VNum 3)]).
Proof.
  split.
  - split; [vm_compute; left|].
    eexists. split_and!; [vm_compute; reflexivity|vm_compute; reflexivity| |].
    + intros w updates Hin. vm_compute in Hin.
      apply list_elem_of_singleton in Hin. discriminate.
    + vm_compute. reflexivity.
  - split_and!; [vm_compute; reflexivity..|].
    eexists. split; vm_compute; reflexivity.
Qed.

Lemma link_widget_failure_propagates_witness :
  let s := rebuilt built in
  let w : wid := inl 5 in
  let V := VNum 11 in
  (∃ s', link_widget (fire 1) "a" {| ch_what := "value"; ch_old := VNum 0; ch_new := V |} s
         = Some (s', Raise ValueError) ∧
         _updating s' = false ∧
         object s' = object s ∧
         store s' = store s ∧
         registry s' = registry s ∧
         trace s' = trace s ++ [WObject "a" V]) ∧
  (∃ s', widget_set_param (fire (2 + 0)) w {["value" := V]} s
         = Some (s', Raise ValueError) ∧
         _updating s' = false ∧
         object s' = object s ∧
         trace s' = trace s ++ [WWidget w {["value" := V]}; WObject "a" V]).
Proof.
  destruct (link_widget_failure_propagates (rebuilt built) "a" obj
              (Number (VNum 0) (VNum 10) None) (VNum 11) ValueError)
    as [Hc Hw]; [vm_compute; reflexivity|reflexivity|reflexivity|].
  split.
  - apply Hc; reflexivity.
  - destruct (watchers_of (OnWidget (inl 5)) "value" "value"
                (registry (rebuilt built))) as [|wt rest] eqn:Hws;
      [by vm_compute in Hws|].
    apply (Hw 0 (inl 5)
             (default slider_a (store (rebuilt built) !! (inl 5 : wid)))
             wt rest).
    + reflexivity.
    + vm_compute. reflexivity.
    + apply (bool_decide_unpack _). vm_compute. exact I.
    + exact Hws.
    + assert (fn <$> head (watchers_of (OnWidget (inl 5)) "value" "value"
                             (registry (rebuilt built)))
              = Some (link_widget_cb "a")) as Hh by (vm_compute; reflexivity).
      rewrite Hws in Hh. by injection Hh.
    + vm_compute. reflexivity.
    + vm_compute. reflexivity.
Defined.

(** C6, as stated, fails: the value 11 is out of the bounds of [a]; the
    write to the slider raises the [ValueError] of [set_param], it does
    not return. *)
Lemma out_of_bounds_raises :
  validate (Number (VNum 0) (VNum 10) None) (VNum 11) = Some ValueError ∧
  (∃ s', widget_set_param (fire 2) (inl 1) {["value" := VNum 11]} built
         = Some (s', Raise ValueError)) ∧
  ¬ ∃ s', widget_set_param (fire 2) (inl 1) {["value" := VNum 11]} built
          = Some (s', Ret tt).
Proof.
  split; [reflexivity|].
  assert (snd <$> widget_set_param (fire 2) (inl 1) {["value" := VNum 11]} built
          = Some (Raise ValueError)) as Hr by (vm_compute; reflexivity).
  destruct (widget_set_param (fire 2) (inl 1) {["value" := VNum 11]} built)
    as [[s' r]|]; [|discriminate].
  cbn in Hr. injection Hr as ->.
  split; [by exists s'|]. intros [s'' Hr']. discriminate.
Qed.

(** C8 fails on the code: with a ['type'] in the overrides of [a], the
    first build gives [a] a literal input and the rebuild that follows,
    nothing else having changed, gives it a slider. *)
Theorem rebuild_loses_type_override :
  _update_widgets 3 [] typed_literal = Some (rebuilt typed_literal, Ret tt) ∧
  _update_widgets 3 [] (rebuilt typed_literal)
  = Some (rebuilt (rebuilt typed_literal), Ret tt) ∧
  observe (rebuilt typed_literal)
  = [("name", Some (StaticText, VStr "<b>Test</b>"));
     ("a", Some (LiteralInput, VNum 0));
     ("b", Some (Checkbox, VBool false));
     ("go", Some (Button, VNone))] ∧
  observe (rebuilt (rebuilt typed_literal))
  = [("name", Some (StaticText, VStr "<b>Test</b>"));
     ("a", Some (FloatSlider, VNum 0));
     ("b", Some (Checkbox, VBool false));
     ("go", Some (Button, VNone))].
Proof. split_and!; vm_compute; reflexivity. Qed.

(** The direction of C9 that holds: an expand layout that is an instance
    of a layout class, or a class of layouts, raises nothing. *)
Lemma resolve_expand_layout_valid (box c : pytype) :
  is_subclass_of c "Panel" = true →
  resolve_expand_layout box (LInstance c) = Ret ExpandInstance ∧
  ∃ target, resolve_expand_layout box (LType c) = Ret target.
Proof.
  intros Hc. simpl. rewrite Hc. split; [done|].
  destruct (is_subclass_of box (tname c)); by eexists.
Qed.

(** C9 fails on the code: the built-in class [object] is neither a
    layout nor a class of layouts, and [__init__] takes it for the
    expand layout without an error. *)
Theorem init_accepts_object_class :
  is_subclass_of object_t "Panel" = false ∧
  resolve_expand_layout Column (LType object_t) = Ret ExpandBox ∧
  ∃ s, __init__ 3 (InitObject obj) (defaults (LType object_t)) = Some (s, Ret tt).
Proof.
  split_and!; [reflexivity..|]. eexists. vm_compute. reflexivity.
Qed.

Lemma update_pane_in_place_or_replace_witness :
  let o := reactive_output in
  let s := method_pane in
  let cur := {| ParamMethod.pane_type := "Markdown";
                ParamMethod.pane_values :=
                  <["object" := 1]> (<["width" := 2]> {["name" := 3]}) |} in
  let same := bool_decide (ParamMethod.pane_type cur = ParamMethod.out_pane_type o)
              && ParamMethod.no_links (ParamMethod.out_links o) in
  (same = true → ∀ vals,
     ParamMethod.out_params o = Some vals →
     NoDup (vals.*1) →
     (∀ k v, (k, v) ∈ vals → k ≠ "name" →
             is_Some (ParamMethod.pane_values cur !! k)) →
     ∃ s' m,
       ParamMethod._update_pane o s = Some (s', Ret tt) ∧
       (∀ k v, m !! k = Some v ↔
               (k, v) ∈ vals ∧ k ≠ "name" ∧
               ParamMethod.pane_values cur !! k ≠ Some v) ∧
       ParamMethod._pane s' = ParamMethod._pane s ∧
       ParamMethod._inner_layout s' = ParamMethod._inner_layout s ∧
       ParamMethod.panes s' !! ParamMethod._pane s
       = Some {| ParamMethod.pane_type := ParamMethod.pane_type cur;
                 ParamMethod.pane_values := m ∪ ParamMethod.pane_values cur |} ∧
       ParamMethod.pane_trace s'
       = ParamMethod.pane_trace s
         ++ [{| ParamMethod.written_pane := ParamMethod._pane s;
                ParamMethod.written := m |}]) ∧
  (same = true → ParamMethod.out_params o = None →
     ∃ s',
       ParamMethod._update_pane o s = Some (s', Ret tt) ∧
       ParamMethod._pane s' = ParamMethod._pane s ∧
       ParamMethod._inner_layout s' = ParamMethod._inner_layout s ∧
       ParamMethod.panes s' !! ParamMethod._pane s
       = Some {| ParamMethod.pane_type := ParamMethod.pane_type cur;
                 ParamMethod.pane_values :=
                   <["object" := ParamMethod.out_ref o]>
                     (ParamMethod.pane_values cur) |} ∧
       ParamMethod.pane_trace s'
       = ParamMethod.pane_trace s
         ++ [{| ParamMethod.written_pane := ParamMethod._pane s;
                ParamMethod.written := {["object" := ParamMethod.out_ref o]} |}]) ∧
  (same = false → ∀ first rest,
     ParamMethod._inner_layout s = first :: rest →
     is_Some ((ParamMethod._kwargs s ∪ ParamMethod.own_values s) !! "object") →
     ∃ s',
       ParamMethod._update_pane o s = Some (s', Ret tt) ∧
       ParamMethod._pane s' = ParamMethod.next_pane s ∧
       ParamMethod.panes s' !! ParamMethod._pane s'
       = Some (ParamMethod.Pane o
                 (delete "object"
                    (ParamMethod._kwargs s ∪ ParamMethod.own_values s))) ∧
       ParamMethod.panes s' !! ParamMethod._pane s = Some cur ∧
       ParamMethod._inner_layout s' = ParamMethod._pane s' :: rest ∧
       ParamMethod.pane_trace s' = ParamMethod.pane_trace s).
Proof.
  apply (update_pane_in_place_or_replace reactive_output method_pane).
  - vm_compute. reflexivity.
  - vm_compute. lia.
Defined.

(** In that scenario the output is merged in place, and only [object]
    is set: [width] is the value the pane holds and ['name'] is never
    copied. *)
Lemma reactive_output_merged :
  ∃ s', ParamMethod._update_pane reactive_output method_pane = Some (s', Ret tt) ∧
        ParamMethod._pane s' = 0 ∧
        ParamMethod.pane_trace s'
        = [{| ParamMethod.written_pane := 0;
              ParamMethod.written := {["object" := 6]} |}].
Proof. eexists. split_and!; vm_compute; reflexivity. Qed.

End Scenario.
